(** * Binomial-lattice pricing routines: a shallow embedding

    The development follows the notebooks of the repository:
    - the forward-equation notebook ([short_rate], [elementary_prices],
      [zcb_price_forward], [term_structure]);
    - the Cox-Ross-Rubinstein notebook ([stock_lattice], [binomial_tree]);
    - the swap notebook ([swap_price]);
    - the swaption notebook ([swap_price] returning its lattice,
      [swaption_price]).

    The Python code is written once, over an abstract scalar type, and is
    then read at two instances: the real numbers (exact arithmetic, used for
    the order-theoretic statements) and IEEE binary64 (the arithmetic numpy
    runs, used to replay the outputs recorded in the notebooks).

    Period counts are natural numbers; scalar arguments are Python numbers,
    so that a scalar division by zero raises, whereas a division between
    array elements does not. *)

From Stdlib Require Import Reals Lra Lia List String Bool Arith PeanoNat.
From Stdlib Require Import Floats.
Import ListNotations.

Set Implicit Arguments.

(** ** Python exceptions and results *)

Inductive exception : Set :=
| ZeroDivisionError
| IndexError
| ValueError.

(** The class name of an exception, as a caller sees it. *)
Definition exception_name (e : exception) : string :=
  match e with
  | ZeroDivisionError => "ZeroDivisionError"
  | IndexError => "IndexError"
  | ValueError => "ValueError"
  end.

Inductive result (A : Type) : Type :=
| Ok (a : A)
| Raise (e : exception).

Arguments Ok {A} a.
Arguments Raise {A} e.

Definition bind {A B : Type} (m : result A) (k : A -> result B) : result B :=
  match m with
  | Ok a => k a
  | Raise e => Raise e
  end.

Notation "x <- m ;; k" := (bind m (fun x => k))
  (at level 61, m at next level, right associativity).

(** ** Scalars

    The operations the notebooks use on numbers.  [ltb a b] is Python's
    [a < b]; [is_zero] is the test a Python scalar division performs on its
    divisor before it raises [ZeroDivisionError]. *)

Class Scalar (F : Type) : Type := {
  c0 : F;            (* the literal 0 / 0.0   *)
  c1 : F;            (* the literal 1 / 1.0   *)
  c2 : F;            (* the literal 2         *)
  c100 : F;          (* the literal 100.0     *)
  chalf : F;         (* the literal 0.5       *)
  add : F -> F -> F;
  sub : F -> F -> F;
  mul : F -> F -> F;
  div : F -> F -> F;
  ltb : F -> F -> bool;
  is_zero : F -> bool
}.

Declare Scope scalar_scope.
Delimit Scope scalar_scope with sc.
Infix "+" := add : scalar_scope.
Infix "-" := sub : scalar_scope.
Infix "*" := mul : scalar_scope.
Infix "/" := div : scalar_scope.

(** The power operator [x ** y], only needed by [term_structure]. *)
Class Power (F : Type) : Type := {
  pow : F -> F -> F;
  of_nat : nat -> F  (* an [int] loop index used as a number *)
}.

(** Exact real arithmetic. *)
#[export] Instance R_scalar : Scalar R := {|
  c0 := 0%R; c1 := 1%R; c2 := 2%R; c100 := 100%R; chalf := (1 / 2)%R;
  add := Rplus; sub := Rminus; mul := Rmult; div := Rdiv;
  ltb := fun a b => if Rlt_dec a b then true else false;
  is_zero := fun a => if Req_dec_T a 0%R then true else false
|}.

#[export] Instance R_power : Power R := {|
  pow := Rpower;
  of_nat := INR
|}.

(** IEEE 754 binary64, the [float64] of numpy and the [float] of Python. *)
#[export] Instance float_scalar : Scalar float := {|
  c0 := 0%float; c1 := 1%float; c2 := 2%float; c100 := 100%float;
  chalf := 0.5%float;
  add := PrimFloat.add; sub := PrimFloat.sub;
  mul := PrimFloat.mul; div := PrimFloat.div;
  ltb := PrimFloat.ltb;
  is_zero := fun a => PrimFloat.eqb a 0%float
|}.

(** ** Python and numpy primitives *)

(** [range(a, b)] and [range(a, b, -1)] read as the lists they enumerate. *)
Definition range (a b : nat) : list nat := seq a (b - a).

(** [range(hi - 1, -1, -1)]: [hi - 1, ..., 1, 0]. *)
Definition range_down (hi : nat) : list nat := rev (seq 0 hi).

(** [for i in l: s = body i s]. *)
Definition for_ {St : Type} (l : list nat) (body : nat -> St -> St) (s : St)
  : St :=
  fold_left (fun s i => body i s) l s.

(** The same loop when the body may raise. *)
Fixpoint for_M {St : Type} (l : list nat) (body : nat -> St -> result St)
  (s : St) : result St :=
  match l with
  | [] => Ok s
  | i :: l' => s' <- body i s ;; for_M l' body s'
  end.

Section Lattice.

Context {F : Type} `{Scalar F}.
Local Open Scope scalar_scope.

(** Division of two Python scalars: raises on a zero divisor.  Division of
    numpy scalars ([div]) does not raise. *)
Definition pydiv (a b : F) : result F :=
  if is_zero b then Raise ZeroDivisionError else Ok (a / b).

(** The builtin [max]: the first maximal argument, scanning left to right. *)
Definition pymax2 (a b : F) : F := if ltb a b then b else a.
Definition pymax3 (a b c : F) : F := pymax2 (pymax2 a b) c.

(** A square numpy array of shape [(dim, dim)].  Reads and writes are total
    functions of the indices; every index the loops below use lies inside
    the shape, and the places where the source can leave it are written out
    as [Raise IndexError]. *)
Record ndarray : Type := {
  dim : nat;
  data : nat -> nat -> F
}.

Definition np_zeros (n : nat) : ndarray :=
  {| dim := n; data := fun _ _ => c0 |}.

Definition np_zeros_like (a : ndarray) : ndarray := np_zeros (dim a).

Definition get (a : ndarray) (i j : nat) : F := data a i j.

Definition set (a : ndarray) (i j : nat) (v : F) : ndarray :=
  {| dim := dim a;
     data := fun i' j' =>
       if (i' =? i)%nat && (j' =? j)%nat then v else data a i' j' |}.

(** [a / c] for an array [a] and a scalar [c]. *)
Definition np_div (a : ndarray) (c : F) : ndarray :=
  {| dim := dim a; data := fun i j => data a i j / c |}.

(** [np.sum(a, axis=1)[i]]: the sum of row [i], accumulated from the left
    starting at 0, which is the order numpy uses for rows of fewer than
    eight entries.  Longer rows numpy adds pairwise, with eight running
    sums, so that in binary64 its result may differ from this one in the
    last bits; in exact arithmetic the order is immaterial. *)
Definition np_sum_axis1 (a : ndarray) (i : nat) : F :=
  fold_left (fun acc j => acc + get a i j) (seq 0 (dim a)) c0.

(** ** Forward-equation notebook *)

Definition short_rate (r_0 : F) (n : nat) (u d : F) : ndarray :=
  let rate := np_zeros (n + 1) in
  let rate := set rate 0 0 r_0 in
  for_ (range 1 (n + 1)) (fun i rate =>
    let rate := set rate i 0 (get rate (i - 1) 0 * d) in
    for_ (range 1 (i + 1)) (fun j rate =>
      set rate i j (get rate (i - 1) (j - 1) * u)) rate) rate.

Definition elementary_prices (r_0 : F) (n : nat) (u d : F) : ndarray :=
  let s := np_div (short_rate r_0 n u d) c100 in
  let e_prices := np_zeros_like s in
  let e_prices := set e_prices 0 0 c1 in
  let e_prices :=
    for_ (range 1 (n + 1)) (fun i e_prices =>
      set e_prices i 0
        (get e_prices (i - 1) 0 / (c2 * (c1 + get s (i - 1) 0)))) e_prices in
  for_ (range 1 (n + 1)) (fun i e_prices =>
    let e_prices :=
      set e_prices i 0
        (get e_prices (i - 1) 0 / (c2 * (c1 + get s (i - 1) 0))) in
    for_ (range 1 (i + 1)) (fun j e_prices =>
      if (j <? i)%nat then
        set e_prices i j
          (get e_prices (i - 1) (j - 1) / (c2 * (c1 + get s (i - 1) (j - 1)))
           + get e_prices (i - 1) j / (c2 * (c1 + get s (i - 1) j)))
      else
        set e_prices i j
          (get e_prices (i - 1) (j - 1) / (c2 * (c1 + get s (i - 1) (j - 1)))))
      e_prices) e_prices.

Definition zcb_price_forward (k : nat) (r_0 u d fv : F) : F :=
  let e_prices := elementary_prices r_0 k u d in
  fv * np_sum_axis1 e_prices k.

(** One-dimensional arrays ([np.zeros(n)]). *)
Record vector : Type := {
  len : nat;
  vdata : nat -> F
}.

Definition np_zeros1 (n : nat) : vector :=
  {| len := n; vdata := fun _ => c0 |}.

Definition get1 (a : vector) (i : nat) : F := vdata a i.

Definition set1 (a : vector) (i : nat) (v : F) : vector :=
  {| len := len a;
     vdata := fun i' => if (i' =? i)%nat then v else vdata a i' |}.

(** The slice [a[1:]]. *)
Definition slice_from1 (a : vector) : list F :=
  map (get1 a) (range 1 (len a)).

Definition term_structure `{Power F} (r_0 : F) (n : nat) (u d : F) : list F :=
  let zcb_price_arr := np_zeros1 (n + 1) in
  let zcb_price_arr :=
    for_ (range 1 (n + 1)) (fun i zcb_price_arr =>
      set1 zcb_price_arr i (zcb_price_forward i r_0 u d c100)) zcb_price_arr in
  let spot_rates := np_zeros1 (n + 1) in
  let spot_rates :=
    for_ (range 1 (n + 1)) (fun i spot_rates =>
      set1 spot_rates i
        (pow (c100 / get1 zcb_price_arr i) (c1 / of_nat i) - c1)) spot_rates in
  slice_from1 spot_rates.

(** ** Cox-Ross-Rubinstein notebook *)

Definition stock_lattice (S_0 : F) (n : nat) (u d : F) : ndarray :=
  let stock_price := np_zeros (n + 1) in
  let stock_price := set stock_price 0 0 S_0 in
  for_ (range 1 (n + 1)) (fun i stock_price =>
    let stock_price := set stock_price i 0 (get stock_price (i - 1) 0 * d) in
    for_ (range 1 (i + 1)) (fun j stock_price =>
      set stock_price i j (get stock_price (i - 1) (j - 1) * u)) stock_price)
    stock_price.

(** The discounted risk-neutral expectation written at every node; the
    division [1/(1+r_f)] is between Python scalars. *)
Definition continuation (r_f q : F) (option_price : ndarray) (i j : nat)
  : result F :=
  disc <- pydiv c1 (c1 + r_f) ;;
  Ok (disc * (q * get option_price (i + 1) (j + 1)
              + (c1 - q) * get option_price (i + 1) j)).

Definition binomial_tree (n : nat) (r_f S_0 K u d : F)
  (PutCall Type_ : string) : result F :=
  q <- pydiv ((c1 + r_f) - d) (u - d) ;;
  let stock_price := stock_lattice S_0 n u d in
  let option_price := np_zeros (n + 1) in
  let option_price :=
    for_ (range 0 (n + 1)) (fun i option_price =>
      if (PutCall =? "Call")%string then
        set option_price n i (pymax2 c0 (get stock_price n i - K))
      else if (PutCall =? "Put")%string then
        set option_price n i (pymax2 c0 (K - get stock_price n i))
      else option_price) option_price in
  option_price <-
    (if (Type_ =? "E")%string then
       for_M (range_down n) (fun i option_price =>
         for_M (range 0 (i + 1)) (fun j option_price =>
           v <- continuation r_f q option_price i j ;;
           Ok (set option_price i j v)) option_price) option_price
     else if (Type_ =? "A")%string then
       for_M (range_down n) (fun i option_price =>
         for_M (range 0 (i + 1)) (fun j option_price =>
           if (PutCall =? "Put")%string then
             v <- continuation r_f q option_price i j ;;
             Ok (set option_price i j
                   (pymax3 c0 (K - get stock_price i j) v))
           else if (PutCall =? "Call")%string then
             v <- continuation r_f q option_price i j ;;
             Ok (set option_price i j
                   (pymax3 c0 (get stock_price i j - K) v))
           else Ok option_price) option_price) option_price
     else Ok option_price) ;;
  Ok (get option_price 0 0).

(** ** Swap notebook *)

(** The swap value written at node [(i, j)] by backward induction. *)
Definition swap_node (k : F) (rate_lattice swap_price : ndarray) (i j : nat)
  : F :=
  let q := chalf in
  (c1 / (c1 + get rate_lattice i j))
  * (q * get swap_price (i + 1) (j + 1) + (c1 - q) * get swap_price (i + 1) j
     + (get rate_lattice i j - k / c100)).

(** [swap_price[n-1, i]] for the last rate-bearing period. *)
Definition swap_terminal (k : F) (rate_lattice : ndarray) (n i : nat) : F :=
  (get rate_lattice (n - 1) i - k / c100)
  / (c1 + get rate_lattice (n - 1) i).

(** For [n = 0] the source calls [short_rate(r_0, -1, u, d)], whose write
    [rate[0,0] = r_0] into an array of shape [(0, 0)] raises [IndexError].
    Storing the string [''] into a float array raises [ValueError]. *)
Definition swap_price (p k r_0 : F) (n : nat) (u d : F) : result F :=
  match n with
  | O => Raise IndexError
  | S _ =>
    let rate_lattice := short_rate r_0 (n - 1) u d in
    let rate_lattice := np_div rate_lattice c100 in
    let swap_price := np_zeros_like rate_lattice in
    let swap_price :=
      for_ (range 0 n) (fun i swap_price =>
        set swap_price (n - 1) i (swap_terminal k rate_lattice n i))
        swap_price in
    swap_price <-
      for_M (range_down (n - 1)) (fun i swap_price =>
        for_M (range 0 (i + 1)) (fun j swap_price =>
          if (i <? j)%nat then Raise ValueError
          else Ok (set swap_price i j (swap_node k rate_lattice swap_price i j)))
          swap_price) swap_price ;;
    Ok (get swap_price 0 0 * p)
  end.

End Lattice.

(** ** Swaption notebook

    This notebook carries its own [swap_price], which returns the whole
    valuation lattice and has no guard inside the backward induction. *)
Module Swaption.
Section Swaption.

Context {F : Type} `{Scalar F}.
Local Open Scope scalar_scope.

Definition swap_price (p k r_0 : F) (n : nat) (u d : F) : result ndarray :=
  match n with
  | O => Raise IndexError
  | S _ =>
    let rate_lattice := short_rate r_0 (n - 1) u d in
    let rate_lattice := np_div rate_lattice c100 in
    let swap_price := np_zeros_like rate_lattice in
    let swap_price :=
      for_ (range 0 n) (fun i swap_price =>
        set swap_price (n - 1) i (swap_terminal k rate_lattice n i))
        swap_price in
    let swap_price :=
      for_ (range_down (n - 1)) (fun i swap_price =>
        for_ (range 0 (i + 1)) (fun j swap_price =>
          set swap_price i j (swap_node k rate_lattice swap_price i j))
          swap_price) swap_price in
    Ok swap_price
  end.

(** Reading [s_price_arr[n_o, i]] raises [IndexError] unless [n_o] is a row
    of the swap lattice, whose shape is [(n, n)]. *)
Definition swaption_price (k r_f r_0 : F) (n_o n : nat) (u d : F) : result F :=
  s_price_arr <- swap_price c1 r_f r_0 n u d ;;
  let rate_lattice := short_rate r_0 n_o u d in
  let rate_lattice := np_div rate_lattice c100 in
  let swaption_price := np_zeros (n_o + 1) in
  swaption_price <-
    for_M (range 0 (n_o + 1)) (fun i swaption_price =>
      if (n_o <? dim s_price_arr)%nat && (i <? dim s_price_arr)%nat then
        Ok (set swaption_price n_o i (pymax2 (get s_price_arr n_o i) c0))
      else Raise IndexError) swaption_price ;;
  let q := chalf in
  let swaption_price :=
    for_ (range_down n_o) (fun i swaption_price =>
      for_ (range 0 (i + 1)) (fun j swaption_price =>
        set swaption_price i j
          ((c1 / (c1 + get rate_lattice i j))
           * (q * get swaption_price (i + 1) (j + 1)
              + (c1 - q) * get swaption_price (i + 1) j))) swaption_price)
      swaption_price in
  Ok (get swaption_price 0 0).

End Swaption.
End Swaption.

(** * Loop bodies, named

    The bodies of the row loops, and the value each of them stores in a
    cell, so that the loop invariants below can speak about them. *)

Section Bodies.

Context {F : Type} `{Scalar F}.
Local Open Scope scalar_scope.

(** The value [short_rate] and [stock_lattice] write at [(i, j)]. *)
Definition lattice_step (u d : F) (i : nat) (a : @ndarray F) (j : nat) : F :=
  if (j =? 0)%nat then get a (i - 1) 0 * d else get a (i - 1) (j - 1) * u.

Definition lattice_row (u d : F) (i : nat) (rate : @ndarray F) : @ndarray F :=
  let rate := set rate i 0 (get rate (i - 1) 0 * d) in
  for_ (range 1 (i + 1)) (fun j rate =>
    set rate i j (get rate (i - 1) (j - 1) * u)) rate.

(** The value the second loop of [elementary_prices] stores at [(i, j)],
    given the decimal rate lattice [s]. *)
Definition forward_step (s : @ndarray F) (i : nat) (e : @ndarray F) (j : nat)
  : F :=
  if (j =? 0)%nat then
    get e (i - 1) 0 / (c2 * (c1 + get s (i - 1) 0))
  else if (j <? i)%nat then
    get e (i - 1) (j - 1) / (c2 * (c1 + get s (i - 1) (j - 1)))
    + get e (i - 1) j / (c2 * (c1 + get s (i - 1) j))
  else
    get e (i - 1) (j - 1) / (c2 * (c1 + get s (i - 1) (j - 1))).

Definition forward_row (s : @ndarray F) (i : nat) (e_prices : @ndarray F)
  : @ndarray F :=
  let e_prices :=
    set e_prices i 0
      (get e_prices (i - 1) 0 / (c2 * (c1 + get s (i - 1) 0))) in
  for_ (range 1 (i + 1)) (fun j e_prices =>
    if (j <? i)%nat then
      set e_prices i j
        (get e_prices (i - 1) (j - 1) / (c2 * (c1 + get s (i - 1) (j - 1)))
         + get e_prices (i - 1) j / (c2 * (c1 + get s (i - 1) j)))
    else
      set e_prices i j
        (get e_prices (i - 1) (j - 1) / (c2 * (c1 + get s (i - 1) (j - 1)))))
    e_prices.

(** The sum of [f 0, ..., f (m - 1)], accumulated from the left. *)
Definition sum_upto (f : nat -> F) (m : nat) : F :=
  fold_left (fun acc j => acc + f j) (seq 0 m) c0.

(** The value [continuation] returns when it does not raise. *)
Definition cont_value (r_f q : F) (option_price : @ndarray F) (i j : nat) : F :=
  (c1 / (c1 + r_f))
  * (q * get option_price (i + 1) (j + 1)
     + (c1 - q) * get option_price (i + 1) j).

(** What is exercised at a node, for the two recognised option types. *)
Definition exercise (PutCall : string) (K s : F) : F :=
  if (PutCall =? "Call")%string then s - K else K - s.

(** The value [binomial_tree] stores at [(i, j)], [i < n], for the two
    recognised exercise styles. *)
Definition option_node (PutCall Type_ : string) (r_f q K : F)
  (stock_price : @ndarray F) (i : nat) (option_price : @ndarray F) (j : nat)
  : F :=
  if (Type_ =? "E")%string then cont_value r_f q option_price i j
  else pymax3 c0 (exercise PutCall K (get stock_price i j))
              (cont_value r_f q option_price i j).

(** The option lattice [binomial_tree] has built when it returns, for
    recognised tags. *)
Definition option_lattice (n : nat) (r_f S_0 K u d : F)
  (PutCall Type_ : string) : @ndarray F :=
  let q := ((c1 + r_f) - d) / (u - d) in
  let stock_price := stock_lattice S_0 n u d in
  let option_price :=
    for_ (range 0 (n + 1)) (fun i option_price =>
      set option_price n i
        (pymax2 c0 (exercise PutCall K (get stock_price n i))))
      (np_zeros (n + 1)) in
  for_ (range_down n) (fun i option_price =>
    for_ (range 0 (i + 1)) (fun j option_price =>
      set option_price i j
        (option_node PutCall Type_ r_f q K stock_price i option_price j))
      option_price) option_price.

(** The valuation lattice of the swap notebooks, [1 <= n]. *)
Definition swap_lattice (k r_0 : F) (n : nat) (u d : F) : @ndarray F :=
  let rate_lattice := np_div (short_rate r_0 (n - 1) u d) c100 in
  let swap_price :=
    for_ (range 0 n) (fun i swap_price =>
      set swap_price (n - 1) i (swap_terminal k rate_lattice n i))
      (np_zeros_like rate_lattice) in
  for_ (range_down (n - 1)) (fun i swap_price =>
    for_ (range 0 (i + 1)) (fun j swap_price =>
      set swap_price i j (swap_node k rate_lattice swap_price i j))
      swap_price) swap_price.

(** The valuation lattice of [swaption_price], from the swap lattice. *)
Definition swaption_node (rate_lattice : @ndarray F) (i : nat)
  (swaption_price : @ndarray F) (j : nat) : F :=
  (c1 / (c1 + get rate_lattice i j))
  * (chalf * get swaption_price (i + 1) (j + 1)
     + (c1 - chalf) * get swaption_price (i + 1) j).

Definition swaption_lattice (s_price_arr : @ndarray F) (r_0 : F) (n_o : nat)
  (u d : F) : @ndarray F :=
  let rate_lattice := np_div (short_rate r_0 n_o u d) c100 in
  let swaption_price :=
    for_ (range 0 (n_o + 1)) (fun i swaption_price =>
      set swaption_price n_o i (pymax2 (get s_price_arr n_o i) c0))
      (np_zeros (n_o + 1)) in
  for_ (range_down n_o) (fun i swaption_price =>
    for_ (range 0 (i + 1)) (fun j swaption_price =>
      set swaption_price i j (swaption_node rate_lattice i swaption_price j))
      swaption_price) swaption_price.

(** Rows are swept in an order in which the row a step reads ([src i]) is
    never written afterwards. *)
Fixpoint sweep_order (src : nat -> nat) (rows : list nat) : Prop :=
  match rows with
  | [] => True
  | i :: rows' =>
      src i <> i /\ ~ In i rows' /\ ~ In (src i) rows' /\ sweep_order src rows'
  end.

Definition recognised_option (PutCall : string) : Prop :=
  PutCall = "Call"%string \/ PutCall = "Put"%string.

Definition recognised_style (Type_ : string) : Prop :=
  Type_ = "E"%string \/ Type_ = "A"%string.

End Bodies.

(** * The pricing recursions as the specification words them

    Written over the reals, node by node on the tree of up and down moves:
    a node with state [s] has the children [s * u] and [s * d].  The code
    above is compared with these recursions further down. *)

Module Spec.

Local Open Scope R_scope.

Inductive option_type : Set := Call | Put.
Inductive exercise_style : Set := European | American.

(** The tags the notebooks use for the two enumerations. *)
Definition option_tag (ot : option_type) : string :=
  match ot with Call => "Call" | Put => "Put" end.

Definition style_tag (es : exercise_style) : string :=
  match es with European => "E" | American => "A" end.

(** Terminal payoff: [max(0, S-K)] for a call, [max(0, K-S)] for a put. *)
Definition payoff (ot : option_type) (K s : R) : R :=
  match ot with
  | Call => Rmax 0 (s - K)
  | Put => Rmax 0 (K - s)
  end.

(** Value of the option [m] periods before expiry at stock price [s],
    discounting at the per-period decimal rate [r]: the continuation value
    [(1/(1+r)) * (q V_up + (1-q) V_down)], and for an American option the
    larger of it and the exercise value. *)
Fixpoint option_value (ot : option_type) (es : exercise_style)
  (r q K u d : R) (m : nat) (s : R) : R :=
  match m with
  | O => payoff ot K s
  | S m' =>
      let continuation :=
        (1 / (1 + r))
        * (q * option_value ot es r q K u d m' (s * u)
           + (1 - q) * option_value ot es r q K u d m' (s * d)) in
      match es with
      | European => continuation
      | American => Rmax continuation (payoff ot K s)
      end
  end.

(** The risk-neutral probability [q = ((1+r) - d) / (u - d)]. *)
Definition risk_neutral (r u d : R) : R := ((1 + r) - d) / (u - d).

Definition price_option (n : nat) (r S_0 K u d : R) (ot : option_type)
  (es : exercise_style) : R :=
  option_value ot es r (risk_neutral r u d) K u d n S_0.

(** Value of the swap [m] periods before its last rate-bearing period, at
    the decimal short rate [rho], for the decimal fixed rate [kappa]. *)
Fixpoint swap_value (kappa u d : R) (m : nat) (rho : R) : R :=
  match m with
  | O => (rho - kappa) / (1 + rho)
  | S m' =>
      (1 / (1 + rho))
      * (1 / 2 * swap_value kappa u d m' (rho * u)
         + (1 - 1 / 2) * swap_value kappa u d m' (rho * d)
         + (rho - kappa))
  end.

(** Value of the swaption [m] periods before its expiry; [rest] is the
    number of periods the underlying swap still has at the expiry. *)
Fixpoint swaption_value (kappa u d : R) (rest m : nat) (rho : R) : R :=
  match m with
  | O => Rmax (swap_value kappa u d rest rho) 0
  | S m' =>
      (1 / (1 + rho))
      * (1 / 2 * swaption_value kappa u d rest m' (rho * u)
         + (1 - 1 / 2) * swaption_value kappa u d rest m' (rho * d))
  end.

(** The parameters the specification calls valid for an option: a
    non-negative period count (every [nat]), positive up and down factors,
    and a non-degenerate lattice. *)
Definition valid_parameters (u d : R) : Prop := 0 < u /\ 0 < d /\ u <> d.

End Spec.

(** * The bond-lattice notebook

    [zcb_price] prices a zero-coupon bond by backward induction and returns
    the whole lattice; this notebook's [term_structure] reads the root of
    one such lattice per maturity. *)

Module ZcbNotebook.
Section ZcbNotebook.

Context {F : Type} `{Scalar F} `{Power F}.
Local Open Scope scalar_scope.

(** The value stored at node [(i, j)]. *)
Definition zcb_node (rate zcb : @ndarray F) (i j : nat) : F :=
  let q := chalf in
  (c1 / (c1 + get rate i j / c100))
  * (q * get zcb (i + 1) (j + 1) + (c1 - q) * get zcb (i + 1) j).

(** For [n = 0] the call [short_rate(r_0, -1, u, d)] raises IndexError, as
    in [swap_price].  [zcb[n,:] = fv] writes the whole last row. *)
Definition zcb_price (r_0 : F) (n : nat) (u d fv : F) : result (@ndarray F) :=
  match n with
  | O => Raise IndexError
  | S _ =>
    let rate := short_rate r_0 (n - 1) u d in
    let zcb := np_zeros (n + 1) in
    let zcb := for_ (range 0 (n + 1)) (fun j zcb => set zcb n j fv) zcb in
    let zcb :=
      for_ (range_down n) (fun i zcb =>
        for_ (range 0 (i + 1)) (fun j zcb =>
          set zcb i j (zcb_node rate zcb i j)) zcb) zcb in
    Ok zcb
  end.

Definition term_structure (r_0 : F) (n : nat) (u d : F) : result (list F) :=
  let zcb_prices := np_zeros1 (n + 1) in
  zcb_prices <-
    for_M (range 1 (n + 1)) (fun i zcb_prices =>
      lattice <- zcb_price r_0 i u d c100 ;;
      Ok (set1 zcb_prices i (get lattice 0 0))) zcb_prices ;;
  let spot_rates := np_zeros1 (n + 1) in
  let spot_rates :=
    for_ (range 1 (n + 1)) (fun i spot_rates =>
      set1 spot_rates i
        (pow (c100 / get1 zcb_prices i) (c1 / of_nat i) - c1)) spot_rates in
  Ok (slice_from1 spot_rates).

End ZcbNotebook.
End ZcbNotebook.

(** * The Black-Derman-Toy notebook

    The notebook keeps [a] (the initial guess, of which [bdt_short_rate]
    only reads the length), [b] and [spot_market] as module-level globals;
    they are the variables of the section. *)

(** [np.exp]. *)
Class Exponential (F : Type) : Type := {
  np_exp : F -> F
}.

#[export] Instance R_exponential : Exponential R := {|
  np_exp := exp
|}.

Module BDT.
Section BDT.

Context {F : Type} `{Scalar F} `{Power F} `{Exponential F}.
Local Open Scope scalar_scope.

Variable a : list F.
Variable b : F.
Variable spot_market : list F.

(** [l[i]] for a list or one-dimensional array and [i >= 0]. *)
Definition index (l : list F) (i : nat) : result F :=
  match nth_error l i with
  | Some x => Ok x
  | None => Raise IndexError
  end.

(** [a[i, j]] where the index may leave the array. *)
Definition get_checked (arr : @ndarray F) (i j : nat) : result F :=
  if (i <? dim arr)%nat && (j <? dim arr)%nat then Ok (get arr i j)
  else Raise IndexError.

(** [a[i, j] = v] where the index may leave the array. *)
Definition set_checked (arr : @ndarray F) (i j : nat) (v : F)
  : result (@ndarray F) :=
  if (i <? dim arr)%nat && (j <? dim arr)%nat then Ok (set arr i j v)
  else Raise IndexError.

Definition bdt_short_rate (a_in : list F) (b_in : F) : result (@ndarray F) :=
  let n := List.length a in
  let rate := np_zeros n in
  a_0 <- index a_in 0 ;;
  rate <- set_checked rate 0 0 (a_0 + b_in * c0) ;;
  for_M (range 1 n) (fun i rate =>
    for_M (range 0 (i + 1)) (fun j rate =>
      a_i <- index a_in i ;;
      Ok (set rate i j (a_i * np_exp (b_in * of_nat j)))) rate) rate.

(** One term [e_prices[i-1, j] / (2 * (1.0 + s[i-1, j]))]. *)
Definition half_discounted (s e_prices : @ndarray F) (i j : nat) : result F :=
  s_ij <- get_checked s i j ;;
  Ok (get e_prices i j / (c2 * (c1 + s_ij))).

Definition elementary_prices (a_in : list F) (b_in : F)
  : result (@ndarray F) :=
  rate <- bdt_short_rate a_in b_in ;;
  let s := np_div rate c100 in
  let n_periods := List.length a_in in
  let e_prices := np_zeros (n_periods + 1) in
  let e_prices := set e_prices 0 0 c1 in
  e_prices <-
    for_M (range 1 (n_periods + 1)) (fun i e_prices =>
      v <- half_discounted s e_prices (i - 1) 0 ;;
      Ok (set e_prices i 0 v)) e_prices ;;
  for_M (range 1 (n_periods + 1)) (fun i e_prices =>
    v <- half_discounted s e_prices (i - 1) 0 ;;
    let e_prices := set e_prices i 0 v in
    for_M (range 1 (i + 1)) (fun j e_prices =>
      if (j <? i)%nat then
        v1 <- half_discounted s e_prices (i - 1) (j - 1) ;;
        v2 <- half_discounted s e_prices (i - 1) j ;;
        Ok (set e_prices i j (v1 + v2))
      else
        v1 <- half_discounted s e_prices (i - 1) (j - 1) ;;
        Ok (set e_prices i j v1)) e_prices) e_prices.

(** [fv * np.sum(e_prices, axis=1)], as a one-dimensional array. *)
Definition zcb_price_forward (a_in : list F) (b_in fv : F)
  : result (@vector F) :=
  e_prices <- elementary_prices a_in b_in ;;
  Ok {| len := dim e_prices;
        vdata := fun i => fv * np_sum_axis1 e_prices i |}.

Definition term_structure (a_in : list F) (b_in fv : F) : result (list F) :=
  let n := (List.length a_in + 1)%nat in
  zcb_price_arr <- zcb_price_forward a_in b_in fv ;;
  let spot_rates := np_zeros1 n in
  let spot_rates :=
    for_ (range 1 n) (fun i spot_rates =>
      set1 spot_rates i
        (pow (fv / get1 zcb_price_arr i) (c1 / of_nat i) - c1)) spot_rates in
  Ok (map (fun x => x * c100) (slice_from1 spot_rates)).

(** [x - y] for one-dimensional operands, with numpy's broadcasting: equal
    lengths, or one operand of length 1; anything else is a ValueError. *)
Definition np_sub (xs ys : list F) : result (list F) :=
  if (List.length xs =? List.length ys)%nat then
    Ok (map (fun xy => fst xy - snd xy) (combine xs ys))
  else
    match xs, ys with
    | [x], _ => Ok (map (fun y => x - y) ys)
    | _, [y] => Ok (map (fun x => x - y) xs)
    | _, _ => Raise ValueError
    end.

(** [np.sum] of a one-dimensional array. *)
Definition np_sum (xs : list F) : F :=
  fold_left (fun acc x => acc + x) xs c0.

(** [diff**2.0]: numpy computes a power with the scalar exponent 2.0 as the
    product of the base with itself. *)
Definition np_square (xs : list F) : list F := map (fun x => x * x) xs.

Definition objective_function (a_in : list F) : result F :=
  spot_model <- term_structure a_in b c100 ;;
  diff <- np_sub spot_model spot_market ;;
  let sum_sq := np_sum (np_square diff) in
  Ok sum_sq.

End BDT.
End BDT.

(** * The forward pass over an arbitrary rate lattice *)

Section ForwardPass.

Context {F : Type} `{Scalar F}.
Local Open Scope scalar_scope.

(** The two loops of both [elementary_prices], for the decimal rate lattice
    [s] and the zero-initialised price lattice of shape [(n+1, n+1)]. *)
Definition forward_lattice (s : @ndarray F) (n : nat) : @ndarray F :=
  for_ (range 1 (n + 1)) (forward_row s)
    (for_ (range 1 (n + 1)) (fun i e =>
       set e i 0 (get e (i - 1) 0 / (c2 * (c1 + get s (i - 1) 0))))
       (set (np_zeros (n + 1)) 0 0 c1)).

End ForwardPass.

(** * Facts about arrays and loops *)

Section ArrayFacts.

Context {F : Type} `{Scalar F}.
Local Open Scope scalar_scope.

Lemma get_set_same (a : @ndarray F) i j v : get (set a i j v) i j = v.
Proof. unfold get, set; simpl. now rewrite !Nat.eqb_refl. Qed.

Lemma get_set_row (a : @ndarray F) i j v i' j' :
  i' <> i -> get (set a i j v) i' j' = get a i' j'.
Proof.
  intros Hne. unfold get, set; simpl.
  apply Nat.eqb_neq in Hne. now rewrite Hne.
Qed.

Lemma get_set_col (a : @ndarray F) i j v i' j' :
  j' <> j -> get (set a i j v) i' j' = get a i' j'.
Proof.
  intros Hne. unfold get, set; simpl.
  apply Nat.eqb_neq in Hne. rewrite Hne. now rewrite andb_false_r.
Qed.

Lemma dim_set (a : @ndarray F) i j v : dim (set a i j v) = dim a.
Proof. reflexivity. Qed.

Lemma for_nil {St : Type} (body : nat -> St -> St) s : for_ [] body s = s.
Proof. reflexivity. Qed.

Lemma for_cons {St : Type} i l (body : nat -> St -> St) s :
  for_ (i :: l) body s = for_ l body (body i s).
Proof. reflexivity. Qed.

Lemma for_app {St : Type} l1 l2 (body : nat -> St -> St) s :
  for_ (l1 ++ l2) body s = for_ l2 body (for_ l1 body s).
Proof. unfold for_. apply fold_left_app. Qed.

Lemma for_ext {St : Type} l (body body' : nat -> St -> St) s :
  (forall i s', In i l -> body i s' = body' i s') ->
  for_ l body s = for_ l body' s.
Proof.
  revert s. induction l as [|i l IH]; intros s Hb; [reflexivity|].
  rewrite !for_cons, Hb by now left.
  apply IH. intros; apply Hb; now right.
Qed.

(** A loop whose body never raises is a pure loop. *)
Lemma for_M_pure {St : Type} l (body : nat -> St -> result St)
  (f : nat -> St -> St) s :
  (forall i s', In i l -> body i s' = Ok (f i s')) ->
  for_M l body s = Ok (for_ l f s).
Proof.
  revert s. induction l as [|i l IH]; intros s Hb; [reflexivity|].
  rewrite for_cons. cbn [for_M]. rewrite Hb by now left. cbn [bind].
  apply IH. intros; apply Hb; now right.
Qed.

Lemma for_M_pure2 {St : Type} l (cols : nat -> list nat)
  (body : nat -> nat -> St -> result St) (f : nat -> nat -> St -> St) s :
  (forall i j s', body i j s' = Ok (f i j s')) ->
  for_M l (fun i s => for_M (cols i) (body i) s) s
  = Ok (for_ l (fun i s => for_ (cols i) (f i) s) s).
Proof.
  intros Hb. apply for_M_pure. intros i s' _.
  apply for_M_pure. intros j s'' _. apply Hb.
Qed.

(** A loop that preserves a property of the state. *)
Lemma for_invariant {St : Type} (P : St -> Prop) l (body : nat -> St -> St) s :
  (forall i s', In i l -> P s' -> P (body i s')) -> P s -> P (for_ l body s).
Proof.
  revert s. induction l as [|i l IH]; intros s Hb Hs; [exact Hs|].
  rewrite for_cons. apply IH.
  - intros; apply Hb; [now right | assumption].
  - apply Hb; [now left | assumption].
Qed.

Lemma in_range a b i : In i (range a b) <-> (a <= i < b)%nat.
Proof. unfold range. rewrite in_seq. lia. Qed.

Lemma in_range_down hi i : In i (range_down hi) <-> (i < hi)%nat.
Proof. unfold range_down. rewrite <- in_rev, in_seq. lia. Qed.

(** The inner loop of every lattice routine: it writes the cells [(i, j)],
    [j] in [js], of one row from values that do not depend on that row. *)
Lemma fill_row (i : nat) (val : @ndarray F -> nat -> F) (js : list nat) :
  (forall a j v j0, val (set a i j v) j0 = val a j0) ->
  forall a,
    let a1 := for_ js (fun j a => set a i j (val a j)) a in
    dim a1 = dim a /\
    (forall i' j', i' <> i -> get a1 i' j' = get a i' j') /\
    (forall j, In j js -> get a1 i j = val a j) /\
    (forall j, ~ In j js -> get a1 i j = get a i j).
Proof.
  intros Hval. induction js as [|j0 js IH]; intros a; cbv zeta.
  - rewrite for_nil. repeat split; auto. intros j [].
  - rewrite for_cons.
    destruct (IH (set a i j0 (val a j0))) as (Hd & Hrow & Hin & Hout).
    repeat split.
    + now rewrite Hd.
    + intros i' j' Hne. rewrite Hrow by assumption.
      now apply get_set_row.
    + intros j Hj.
      destruct (in_dec Nat.eq_dec j js) as [Hjs|Hjs].
      * rewrite Hin by assumption. apply Hval.
      * destruct Hj as [->|Hj]; [|contradiction].
        rewrite Hout by assumption. apply get_set_same.
    + intros j Hj. rewrite Hout by (intros Hc; apply Hj; now right).
      apply get_set_col. intros ->. apply Hj. now left.
Qed.

Lemma sweep_untouched (body : nat -> @ndarray F -> @ndarray F) rows :
  (forall i a i' j, In i rows -> i' <> i -> get (body i a) i' j = get a i' j) ->
  forall a i j, ~ In i rows -> get (for_ rows body a) i j = get a i j.
Proof.
  induction rows as [|r rows IH]; intros Hb a i j Hi; [reflexivity|].
  rewrite for_cons, IH.
  - apply Hb; [now left|]. intros ->. apply Hi. now left.
  - intros; apply Hb; [now right | assumption].
  - intros Hin. apply Hi. now right.
Qed.

Lemma sweep (src : nat -> nat) (cols : nat -> list nat)
  (val : nat -> @ndarray F -> nat -> F) (body : nat -> @ndarray F -> @ndarray F) rows :
  (forall i a i' j, In i rows -> i' <> i -> get (body i a) i' j = get a i' j) ->
  (forall i a j, In i rows -> In j (cols i) -> get (body i a) i j = val i a j) ->
  (forall i a a' j, (forall j', get a (src i) j' = get a' (src i) j') ->
                    val i a j = val i a' j) ->
  sweep_order src rows ->
  forall a i j, In i rows -> In j (cols i) ->
    get (for_ rows body a) i j = val i (for_ rows body a) j.
Proof.
  intros Hother Hrow Hval.
  induction rows as [|r rows IH]; intros Hord a i j Hi Hj; [destruct Hi|].
  destruct Hord as (Hsrc & Hnin & Hsrcnin & Hord').
  rewrite for_cons.
  assert (Hother' : forall i a i' j, In i rows -> i' <> i ->
                      get (body i a) i' j = get a i' j).
  { intros; apply Hother; [now right | assumption]. }
  destruct (in_dec Nat.eq_dec i rows) as [Hin|Hin].
  - apply IH; auto. intros; apply Hrow; [now right | assumption].
  - destruct Hi as [->|Hi]; [|contradiction].
    rewrite (sweep_untouched body rows Hother') by assumption.
    rewrite Hrow by (auto; now left).
    apply Hval. intros j'.
    rewrite (sweep_untouched body rows Hother') by assumption.
    symmetry. apply Hother; [now left | assumption].
Qed.

Lemma sweep_order_up m k :
  (1 <= m)%nat -> sweep_order (fun i => i - 1)%nat (seq m k).
Proof.
  revert m. induction k as [|k IH]; intros m Hm; simpl; [exact I|].
  repeat split.
  - lia.
  - rewrite in_seq. lia.
  - rewrite in_seq. lia.
  - apply IH. lia.
Qed.

Lemma sweep_order_down hi :
  sweep_order (fun i => i + 1)%nat (range_down hi).
Proof.
  unfold range_down. induction hi as [|hi IH]; [exact I|].
  rewrite seq_S, rev_app_distr. simpl.
  repeat split.
  - lia.
  - rewrite <- in_rev, in_seq. lia.
  - rewrite <- in_rev, in_seq. lia.
  - exact IH.
Qed.

End ArrayFacts.

(** * The lattices, cell by cell *)

Section LatticeFacts.

Context {F : Type} `{Scalar F}.
Local Open Scope scalar_scope.

(** One row of a forward pass: column 0 first, then the columns of
    [range(1, hi)]. *)
Lemma row_body (i hi : nat) (v0 : @ndarray F -> F)
  (val : @ndarray F -> nat -> F) :
  (forall a j v j0, val (set a i j v) j0 = val a j0) ->
  forall a,
    let a1 := for_ (range 1 hi) (fun j a => set a i j (val a j))
                   (set a i 0 (v0 a)) in
    dim a1 = dim a /\
    (forall i' j, i' <> i -> get a1 i' j = get a i' j) /\
    get a1 i 0 = v0 a /\
    (forall j, (1 <= j < hi)%nat -> get a1 i j = val a j).
Proof.
  intros Hval a.
  destruct (fill_row i val (range 1 hi) Hval (set a i 0 (v0 a)))
    as (Hd & Hrow & Hin & Hout).
  cbv zeta. repeat split.
  - now rewrite Hd.
  - intros i' j Hne. rewrite Hrow by assumption. now apply get_set_row.
  - rewrite Hout by (rewrite in_range; lia). apply get_set_same.
  - intros j Hj. rewrite Hin by (rewrite in_range; lia). apply Hval.
Qed.

Lemma lattice_row_spec (u d : F) (i : nat) (a : @ndarray F) :
  (1 <= i)%nat ->
  dim (lattice_row u d i a) = dim a /\
  (forall i' j, i' <> i -> get (lattice_row u d i a) i' j = get a i' j) /\
  (forall j, (j <= i)%nat ->
     get (lattice_row u d i a) i j = lattice_step u d i a j).
Proof.
  intros Hi. unfold lattice_row.
  destruct (row_body i (i + 1) (fun a => get a (i - 1) 0 * d)
              (fun a j => get a (i - 1) (j - 1) * u)) with (a := a)
    as (Hd & Hrow & H0 & Hj).
  { intros a' j v j0. rewrite get_set_row by lia. reflexivity. }
  repeat split; auto.
  intros j Hle. unfold lattice_step.
  destruct (Nat.eqb_spec j 0) as [->|Hne]; [exact H0|].
  apply Hj. lia.
Qed.

Lemma short_rate_unfold (r_0 : F) (n : nat) (u d : F) :
  short_rate r_0 n u d =
  for_ (range 1 (n + 1)) (lattice_row u d) (set (np_zeros (n + 1)) 0 0 r_0).
Proof. reflexivity. Qed.

Lemma stock_lattice_short_rate (S_0 : F) (n : nat) (u d : F) :
  stock_lattice S_0 n u d = short_rate S_0 n u d.
Proof. reflexivity. Qed.

Lemma range_1_seq n : range 1 (n + 1) = seq 1 n.
Proof. unfold range. f_equal. lia. Qed.

Lemma dim_short_rate (r_0 : F) (n : nat) (u d : F) :
  dim (short_rate r_0 n u d) = (n + 1)%nat.
Proof.
  rewrite short_rate_unfold.
  apply (for_invariant (fun a : @ndarray F => dim a = (n + 1)%nat)).
  - intros i a Hi Ha. apply in_range in Hi.
    destruct (lattice_row_spec u d a (i := i)) as (Hd & _); [lia|].
    now rewrite Hd.
  - reflexivity.
Qed.

(** The short-rate lattice: its root and the recurrence of every cell. *)
Lemma short_rate_root (r_0 : F) (n : nat) (u d : F) :
  get (short_rate r_0 n u d) 0 0 = r_0.
Proof.
  rewrite short_rate_unfold, sweep_untouched.
  - apply get_set_same.
  - intros i a i' j Hi Hne. apply in_range in Hi.
    now apply lattice_row_spec; [lia|].
  - rewrite in_range. lia.
Qed.

Lemma short_rate_cell (r_0 : F) (n : nat) (u d : F) (i j : nat) :
  (1 <= i <= n)%nat -> (j <= i)%nat ->
  get (short_rate r_0 n u d) i j
  = lattice_step u d i (short_rate r_0 n u d) j.
Proof.
  intros Hi Hj. rewrite short_rate_unfold.
  apply (sweep (fun i => i - 1)%nat (fun i => seq 0 (i + 1))).
  - intros k a i' j' Hk Hne. apply in_range in Hk.
    now apply lattice_row_spec; [lia|].
  - intros k a j' Hk Hj'. apply in_range in Hk. apply in_seq in Hj'.
    apply lattice_row_spec; lia.
  - intros k a a' j' Hrow. unfold lattice_step.
    now rewrite !Hrow.
  - rewrite range_1_seq.
    apply (sweep_order_up n (m := 1)). lia.
  - rewrite in_range. lia.
  - rewrite in_seq. lia.
Qed.

End LatticeFacts.

Section ForwardFacts.

Context {F : Type} `{Scalar F}.
Local Open Scope scalar_scope.

Lemma forward_row_eq (s : @ndarray F) (i : nat) (e : @ndarray F) :
  forward_row s i e =
  for_ (range 1 (i + 1)) (fun j e => set e i j (forward_step s i e j))
       (set e i 0 (forward_step s i e 0)).
Proof.
  unfold forward_row. apply for_ext.
  intros j e' Hj. apply in_range in Hj. unfold forward_step.
  destruct (Nat.eqb_spec j 0) as [->|_]; [lia|].
  now destruct (j <? i)%nat.
Qed.

Lemma forward_step_set (s : @ndarray F) (i : nat) a j v j0 :
  (1 <= i)%nat ->
  forward_step s i (set a i j v) j0 = forward_step s i a j0.
Proof.
  intros Hi. unfold forward_step.
  now rewrite !get_set_row by lia.
Qed.

Lemma forward_row_spec (s : @ndarray F) (i : nat) (e : @ndarray F) :
  (1 <= i)%nat ->
  dim (forward_row s i e) = dim e /\
  (forall i' j, i' <> i -> get (forward_row s i e) i' j = get e i' j) /\
  (forall j, (j <= i)%nat ->
     get (forward_row s i e) i j = forward_step s i e j).
Proof.
  intros Hi. rewrite forward_row_eq.
  destruct (row_body i (i + 1) (fun a => forward_step s i a 0)
              (fun a j => forward_step s i a j)) with (a := e)
    as (Hd & Hrow & H0 & Hj).
  { intros; now apply forward_step_set. }
  repeat split; auto.
  intros j Hle. destruct (Nat.eq_dec j 0) as [->|Hne]; [exact H0|].
  apply Hj. lia.
Qed.

Lemma elementary_prices_unfold (r_0 : F) (n : nat) (u d : F) :
  elementary_prices r_0 n u d =
  let s := np_div (short_rate r_0 n u d) c100 in
  for_ (range 1 (n + 1)) (forward_row s)
    (for_ (range 1 (n + 1)) (fun i e =>
       set e i 0 (get e (i - 1) 0 / (c2 * (c1 + get s (i - 1) 0))))
       (set (np_zeros_like s) 0 0 c1)).
Proof. reflexivity. Qed.

Lemma dim_elementary_prices (r_0 : F) (n : nat) (u d : F) :
  dim (elementary_prices r_0 n u d) = (n + 1)%nat.
Proof.
  rewrite elementary_prices_unfold. cbv zeta.
  apply (for_invariant (fun a : @ndarray F => dim a = (n + 1)%nat)).
  - intros i a Hi Ha. apply in_range in Hi.
    destruct (forward_row_spec (np_div (short_rate r_0 n u d) c100) a (i := i))
      as (Hd & _); [lia|].
    now rewrite Hd.
  - apply (for_invariant (fun a : @ndarray F => dim a = (n + 1)%nat)).
    + intros i a _ Ha. now rewrite dim_set.
    + rewrite dim_set. unfold np_zeros_like, np_div. simpl.
      apply dim_short_rate.
Qed.

Lemma elementary_prices_root (r_0 : F) (n : nat) (u d : F) :
  get (elementary_prices r_0 n u d) 0 0 = c1.
Proof.
  rewrite elementary_prices_unfold. cbv zeta.
  rewrite sweep_untouched.
  - rewrite sweep_untouched.
    + apply get_set_same.
    + intros i a i' j Hi Hne. now apply get_set_row.
    + rewrite in_range. lia.
  - intros i a i' j Hi Hne. apply in_range in Hi.
    now apply forward_row_spec; [lia|].
  - rewrite in_range. lia.
Qed.

Lemma elementary_prices_cell (r_0 : F) (n : nat) (u d : F) (i j : nat) :
  (1 <= i <= n)%nat -> (j <= i)%nat ->
  get (elementary_prices r_0 n u d) i j
  = forward_step (np_div (short_rate r_0 n u d) c100) i
      (elementary_prices r_0 n u d) j.
Proof.
  intros Hi Hj. rewrite elementary_prices_unfold. cbv zeta.
  apply (sweep (fun i => i - 1)%nat (fun i => seq 0 (i + 1))).
  - intros k a i' j' Hk Hne. apply in_range in Hk.
    now apply forward_row_spec; [lia|].
  - intros k a j' Hk Hj'. apply in_range in Hk. apply in_seq in Hj'.
    apply forward_row_spec; lia.
  - intros k a a' j' Hrow. unfold forward_step.
    now rewrite !Hrow.
  - rewrite range_1_seq.
    apply (sweep_order_up n (m := 1)). lia.
  - rewrite in_range. lia.
  - rewrite in_seq. lia.
Qed.

End ForwardFacts.

(** * Backward induction, cell by cell *)

Section BackwardFacts.

Context {F : Type} `{Scalar F}.
Local Open Scope scalar_scope.

Lemma range_0_seq n : range 0 n = seq 0 n.
Proof. unfold range. f_equal. lia. Qed.

(** A backward pass: rows [hi - 1, ..., 0], every row [i] filled on the
    columns [0..i] from row [i + 1]. *)
Lemma backward_pass (val : nat -> @ndarray F -> nat -> F) (hi : nat)
  (a : @ndarray F) :
  (forall i a a' j, (forall j', get a (i + 1) j' = get a' (i + 1) j') ->
                    val i a j = val i a' j) ->
  let a1 := for_ (range_down hi) (fun i a =>
              for_ (range 0 (i + 1)) (fun j a => set a i j (val i a j)) a) a in
  dim a1 = dim a /\
  (forall i j, (hi <= i)%nat -> get a1 i j = get a i j) /\
  (forall i j, (i < hi)%nat -> (j <= i)%nat -> get a1 i j = val i a1 j).
Proof.
  intros Hval.
  assert (Hrow : forall i (b : @ndarray F),
    let b1 := for_ (range 0 (i + 1)) (fun j a => set a i j (val i a j)) b in
    dim b1 = dim b /\
    (forall i' j', i' <> i -> get b1 i' j' = get b i' j') /\
    (forall j, In j (range 0 (i + 1)) -> get b1 i j = val i b j)).
  { intros i b.
    destruct (fill_row i (val i) (range 0 (i + 1))) with (a := b)
      as (Hd & Ho & Hi & _).
    - intros a' j v j0. apply Hval. intros j'.
      apply get_set_row. lia.
    - cbv zeta. auto. }
  cbv zeta. repeat split.
  - apply (for_invariant (fun b : @ndarray F => dim b = dim a)); [|reflexivity].
    intros i b _ Hb. destruct (Hrow i b) as (Hd & _). now rewrite Hd.
  - intros i j Hi. apply sweep_untouched.
    + intros k b i' j' _ Hne. now apply Hrow.
    + rewrite in_range_down. lia.
  - intros i j Hi Hj.
    apply (sweep (fun i => i + 1)%nat (fun i => range 0 (i + 1))).
    + intros k b i' j' _ Hne. now apply Hrow.
    + intros k b j' _ Hj'. now apply Hrow.
    + intros k b b' j' Hb. now apply Hval.
    + apply sweep_order_down.
    + now apply in_range_down.
    + rewrite in_range. lia.
Qed.

(** A terminal row written from values that do not depend on the array. *)
Lemma terminal_row (n hi : nat) (v : nat -> F) (a : @ndarray F) :
  let a1 := for_ (range 0 hi) (fun i a => set a n i (v i)) a in
  dim a1 = dim a /\
  (forall i j, i <> n -> get a1 i j = get a i j) /\
  (forall j, (j < hi)%nat -> get a1 n j = v j) /\
  (forall j, (hi <= j)%nat -> get a1 n j = get a n j).
Proof.
  destruct (fill_row n (fun _ j => v j) (range 0 hi)) with (a := a)
    as (Hd & Ho & Hi & Hout); [reflexivity|].
  cbv zeta. repeat split; auto.
  - intros j Hj. apply Hi. rewrite in_range. lia.
  - intros j Hj. apply Hout. rewrite in_range. lia.
Qed.

(** ** [binomial_tree] *)

Lemma pydiv_ok (a b : F) : is_zero b = false -> pydiv a b = Ok (a / b).
Proof. intros Hb. unfold pydiv. now rewrite Hb. Qed.

Lemma pydiv_raise (a b : F) :
  is_zero b = true -> pydiv a b = Raise ZeroDivisionError.
Proof. intros Hb. unfold pydiv. now rewrite Hb. Qed.

Lemma continuation_ok (r_f q : F) (a : @ndarray F) (i j : nat) :
  is_zero (c1 + r_f) = false ->
  continuation r_f q a i j = Ok (cont_value r_f q a i j).
Proof. intros Hz. unfold continuation. now rewrite pydiv_ok. Qed.

(** With recognised tags and non-zero divisors, [binomial_tree] returns the
    root of [option_lattice]. *)
Lemma binomial_tree_lattice (n : nat) (r_f S_0 K u d : F)
  (PutCall Type_ : string) :
  recognised_option PutCall -> recognised_style Type_ ->
  is_zero (u - d) = false -> is_zero (c1 + r_f) = false ->
  binomial_tree n r_f S_0 K u d PutCall Type_
  = Ok (get (option_lattice n r_f S_0 K u d PutCall Type_) 0 0).
Proof.
  intros HP HT Hud Hr. unfold binomial_tree.
  rewrite pydiv_ok by exact Hud. cbn [bind].
  set (q := ((c1 + r_f) - d) / (u - d)).
  set (stock := stock_lattice S_0 n u d).
  pose (node := fun i j (a : @ndarray F) =>
          set a i j (option_node PutCall Type_ r_f q K stock i a j)).
  destruct HP as [-> | ->], HT as [-> | ->];
    cbn [String.eqb Ascii.eqb Bool.eqb andb];
    (rewrite for_M_pure2 with (f := node);
     [ reflexivity
     | intros i j a; unfold node, option_node, exercise;
       cbn [String.eqb Ascii.eqb Bool.eqb andb];
       now rewrite continuation_ok ]).
Qed.

Lemma option_lattice_terminal (n : nat) (r_f S_0 K u d : F)
  (PutCall Type_ : string) (j : nat) :
  (j <= n)%nat ->
  get (option_lattice n r_f S_0 K u d PutCall Type_) n j
  = pymax2 c0 (exercise PutCall K (get (stock_lattice S_0 n u d) n j)).
Proof.
  intros Hj. unfold option_lattice. cbv zeta.
  match goal with
  | |- get (for_ _ (fun i a => for_ _ (fun j a' => set a' i j (?v i a' j)) a)
             ?t) _ _ = _ =>
      destruct (backward_pass v n t) as (_ & Hkeep & _)
  end.
  { intros i a a' j' Ha. unfold option_node, cont_value.
    now rewrite !Ha. }
  rewrite Hkeep by lia.
  destruct (terminal_row n (n + 1)
              (fun i => pymax2 c0 (exercise PutCall K
                                     (get (stock_lattice S_0 n u d) n i)))
              (np_zeros (n + 1))) as (_ & _ & Hin & _).
  apply Hin. lia.
Qed.

Lemma option_lattice_cell (n : nat) (r_f S_0 K u d : F)
  (PutCall Type_ : string) (i j : nat) :
  (i < n)%nat -> (j <= i)%nat ->
  get (option_lattice n r_f S_0 K u d PutCall Type_) i j
  = option_node PutCall Type_ r_f (((c1 + r_f) - d) / (u - d)) K
      (stock_lattice S_0 n u d) i
      (option_lattice n r_f S_0 K u d PutCall Type_) j.
Proof.
  intros Hi Hj. unfold option_lattice. cbv zeta.
  match goal with
  | |- get (for_ _ (fun i a => for_ _ (fun j a' => set a' i j (?v i a' j)) a)
             ?t) _ _ = _ =>
      destruct (backward_pass v n t) as (_ & _ & Hcell)
  end.
  { intros k a a' j' Ha. unfold option_node, cont_value.
    now rewrite !Ha. }
  now apply Hcell.
Qed.

(** ** [swap_price] *)

Lemma swap_guard_false (n i j : nat) :
  In i (range_down (n - 1)) -> In j (range 0 (i + 1)) -> (i <? j)%nat = false.
Proof.
  intros _ Hj. apply in_range in Hj. apply Nat.ltb_ge. lia.
Qed.

Lemma swap_price_lattice (p k r_0 : F) (n : nat) (u d : F) :
  (1 <= n)%nat ->
  swap_price p k r_0 n u d = Ok (get (swap_lattice k r_0 n u d) 0 0 * p).
Proof.
  intros Hn. destruct n as [|m]; [lia|].
  unfold swap_price, swap_lattice. cbv zeta.
  set (rate := np_div (short_rate r_0 (S m - 1) u d) c100).
  rewrite for_M_pure with
    (f := fun i a => for_ (range 0 (i + 1)) (fun j a =>
            set a i j (swap_node k rate a i j)) a).
  - reflexivity.
  - intros i a Hi. apply for_M_pure. intros j a' Hj.
    now rewrite (swap_guard_false (S m) i j).
Qed.

Lemma swap_lattice_terminal (k r_0 : F) (n : nat) (u d : F) (j : nat) :
  (j < n)%nat ->
  get (swap_lattice k r_0 n u d) (n - 1) j
  = swap_terminal k (np_div (short_rate r_0 (n - 1) u d) c100) n j.
Proof.
  intros Hj. unfold swap_lattice. cbv zeta.
  destruct (backward_pass (fun i a j => swap_node k (np_div (short_rate r_0 (n - 1) u d) c100) a i j) (n - 1)
              (for_ (range 0 n) (fun i swap_price =>
                 set swap_price (n - 1) i
                   (swap_terminal k (np_div (short_rate r_0 (n - 1) u d) c100)
                      n i))
                 (np_zeros_like (np_div (short_rate r_0 (n - 1) u d) c100)))) as (_ & Hkeep & _).
  { intros i a a' j' Ha. unfold swap_node.
    now rewrite !Ha. }
  rewrite Hkeep by lia.
  destruct (terminal_row (n - 1) n
              (swap_terminal k (np_div (short_rate r_0 (n - 1) u d) c100) n)
              (np_zeros_like (np_div (short_rate r_0 (n - 1) u d) c100)))
    as (_ & _ & Hin & _).
  now apply Hin.
Qed.

Lemma swap_lattice_cell (k r_0 : F) (n : nat) (u d : F) (i j : nat) :
  (i < n - 1)%nat -> (j <= i)%nat ->
  get (swap_lattice k r_0 n u d) i j
  = swap_node k (np_div (short_rate r_0 (n - 1) u d) c100)
      (swap_lattice k r_0 n u d) i j.
Proof.
  intros Hi Hj. unfold swap_lattice. cbv zeta.
  destruct (backward_pass (fun i a j => swap_node k (np_div (short_rate r_0 (n - 1) u d) c100) a i j) (n - 1)
              (for_ (range 0 n) (fun i swap_price =>
                 set swap_price (n - 1) i
                   (swap_terminal k (np_div (short_rate r_0 (n - 1) u d) c100)
                      n i))
                 (np_zeros_like (np_div (short_rate r_0 (n - 1) u d) c100)))) as (_ & _ & Hcell).
  { intros i' a a' j' Ha. unfold swap_node.
    now rewrite !Ha. }
  now apply Hcell.
Qed.

Lemma dim_swap_lattice (k r_0 : F) (n : nat) (u d : F) :
  (1 <= n)%nat -> dim (swap_lattice k r_0 n u d) = n.
Proof.
  intros Hn. unfold swap_lattice. cbv zeta.
  destruct (backward_pass (fun i a j => swap_node k (np_div (short_rate r_0 (n - 1) u d) c100) a i j) (n - 1)
              (for_ (range 0 n) (fun i swap_price =>
                 set swap_price (n - 1) i
                   (swap_terminal k (np_div (short_rate r_0 (n - 1) u d) c100)
                      n i))
                 (np_zeros_like (np_div (short_rate r_0 (n - 1) u d) c100)))) as (Hd & _).
  { intros i' a a' j' Ha. unfold swap_node.
    now rewrite !Ha. }
  rewrite Hd.
  destruct (terminal_row (n - 1) n
              (swap_terminal k (np_div (short_rate r_0 (n - 1) u d) c100) n)
              (np_zeros_like (np_div (short_rate r_0 (n - 1) u d) c100)))
    as (Hd' & _).
  rewrite Hd'. unfold np_zeros_like, np_div. simpl.
  rewrite dim_short_rate. lia.
Qed.

(** ** The swaption notebook *)

Lemma swaption_swap_price_lattice (p k r_0 : F) (n : nat) (u d : F) :
  (1 <= n)%nat ->
  Swaption.swap_price p k r_0 n u d = Ok (swap_lattice k r_0 n u d).
Proof. intros Hn. destruct n as [|m]; [lia|]. reflexivity. Qed.

Lemma swaption_price_lattice (k r_f r_0 : F) (n_o n : nat) (u d : F) :
  (n_o < n)%nat ->
  Swaption.swaption_price k r_f r_0 n_o n u d
  = Ok (get (swaption_lattice (swap_lattice r_f r_0 n u d) r_0 n_o u d) 0 0).
Proof.
  intros Hn. unfold Swaption.swaption_price.
  rewrite swaption_swap_price_lattice by lia. cbn [bind].
  rewrite for_M_pure with
    (f := fun i a => set a n_o i
            (pymax2 (get (swap_lattice r_f r_0 n u d) n_o i) c0)).
  - reflexivity.
  - intros i a Hi. apply in_range in Hi.
    rewrite dim_swap_lattice by lia.
    assert (H1 : (n_o <? n)%nat = true) by (apply Nat.ltb_lt; lia).
    assert (H2 : (i <? n)%nat = true) by (apply Nat.ltb_lt; lia).
    now rewrite H1, H2.
Qed.

Lemma swaption_price_out_of_range (k r_f r_0 : F) (n_o n : nat) (u d : F) :
  (n <= n_o)%nat ->
  Swaption.swaption_price k r_f r_0 n_o n u d = Raise IndexError.
Proof.
  intros Hn. unfold Swaption.swaption_price.
  destruct n as [|m]; [reflexivity|].
  rewrite swaption_swap_price_lattice by lia. cbn [bind].
  rewrite range_0_seq, Nat.add_1_r. cbn [seq for_M].
  rewrite dim_swap_lattice by lia.
  assert (H1 : (n_o <? S m)%nat = false) by (apply Nat.ltb_ge; lia).
  now rewrite H1.
Qed.

Lemma swaption_lattice_terminal (sp : @ndarray F) (r_0 : F) (n_o : nat)
  (u d : F) (j : nat) :
  (j <= n_o)%nat ->
  get (swaption_lattice sp r_0 n_o u d) n_o j = pymax2 (get sp n_o j) c0.
Proof.
  intros Hj. unfold swaption_lattice. cbv zeta.
  destruct (backward_pass
              (swaption_node (np_div (short_rate r_0 n_o u d) c100)) n_o
              (for_ (range 0 (n_o + 1)) (fun i a =>
                 set a n_o i (pymax2 (get sp n_o i) c0)) (np_zeros (n_o + 1))))
    as (_ & Hkeep & _).
  { intros i a a' j' Ha. unfold swaption_node. now rewrite !Ha. }
  rewrite Hkeep by lia.
  destruct (terminal_row n_o (n_o + 1)
              (fun i => pymax2 (get sp n_o i) c0) (np_zeros (n_o + 1)))
    as (_ & _ & Hin & _).
  apply Hin. lia.
Qed.

Lemma swaption_lattice_cell (sp : @ndarray F) (r_0 : F) (n_o : nat)
  (u d : F) (i j : nat) :
  (i < n_o)%nat -> (j <= i)%nat ->
  get (swaption_lattice sp r_0 n_o u d) i j
  = swaption_node (np_div (short_rate r_0 n_o u d) c100) i
      (swaption_lattice sp r_0 n_o u d) j.
Proof.
  intros Hi Hj. unfold swaption_lattice. cbv zeta.
  destruct (backward_pass
              (swaption_node (np_div (short_rate r_0 n_o u d) c100)) n_o
              (for_ (range 0 (n_o + 1)) (fun i a =>
                 set a n_o i (pymax2 (get sp n_o i) c0)) (np_zeros (n_o + 1))))
    as (_ & _ & Hcell).
  { intros i' a a' j' Ha. unfold swaption_node. now rewrite !Ha. }
  now apply Hcell.
Qed.

Lemma get_np_div (a : @ndarray F) (c : F) (i j : nat) :
  get (np_div a c) i j = get a i j / c.
Proof. reflexivity. Qed.

End BackwardFacts.

(** * Sums over the states of a time step *)

Section SumFacts.

Context {F : Type} `{Scalar F}.
Local Open Scope scalar_scope.

Lemma sum_upto_0 (f : nat -> F) : sum_upto f 0 = c0.
Proof. reflexivity. Qed.

Lemma sum_upto_S (f : nat -> F) (m : nat) :
  sum_upto f (S m) = sum_upto f m + f m.
Proof.
  unfold sum_upto. rewrite seq_S, fold_left_app. reflexivity.
Qed.

Lemma sum_upto_ext (f g : nat -> F) (m : nat) :
  (forall j, (j < m)%nat -> f j = g j) -> sum_upto f m = sum_upto g m.
Proof.
  induction m as [|m IH]; intros Hfg; [reflexivity|].
  rewrite !sum_upto_S, IH, Hfg by auto with arith. reflexivity.
Qed.

Lemma np_sum_axis1_sum (a : @ndarray F) (i : nat) :
  np_sum_axis1 a i = sum_upto (get a i) (dim a).
Proof. reflexivity. Qed.

(** The two one-dimensional loops of [term_structure]. *)
Lemma fill_vector (f : nat -> F) (l : list nat) (v : @vector F) :
  let v1 := for_ l (fun i v => set1 v i (f i)) v in
  len v1 = len v /\
  (forall i, In i l -> get1 v1 i = f i) /\
  (forall i, ~ In i l -> get1 v1 i = get1 v i).
Proof.
  revert v. induction l as [|k l IH]; intros v; cbv zeta.
  - rewrite for_nil. repeat split; auto. intros i [].
  - rewrite for_cons. destruct (IH (set1 v k (f k))) as (Hl & Hin & Hout).
    repeat split.
    + now rewrite Hl.
    + intros i Hi. destruct (in_dec Nat.eq_dec i l) as [Hil|Hil].
      * now apply Hin.
      * destruct Hi as [->|Hi]; [|contradiction].
        rewrite Hout by assumption. unfold get1, set1; simpl.
        now rewrite Nat.eqb_refl.
    + intros i Hi. rewrite Hout by (intros Hc; apply Hi; now right).
      unfold get1, set1; simpl.
      destruct (Nat.eqb_spec i k) as [->|Hne]; [|reflexivity].
      exfalso. apply Hi. now left.
Qed.

Lemma term_structure_length `{Power F} (r_0 : F) (n : nat) (u d : F) :
  List.length (term_structure r_0 n u d) = n.
Proof.
  unfold term_structure, slice_from1. cbv zeta.
  rewrite length_map.
  match goal with
  | |- context [len (for_ ?l (fun i v => set1 v i (@?f i)) ?v0)] =>
      destruct (fill_vector f l v0) as (Hl & _)
  end.
  rewrite Hl. unfold range. rewrite length_seq. simpl. lia.
Qed.

Lemma term_structure_nth `{Power F} (r_0 : F) (n : nat) (u d : F)
  (k : nat) (dflt : F) :
  (1 <= k <= n)%nat ->
  nth (k - 1) (term_structure r_0 n u d) dflt
  = pow (c100 / zcb_price_forward k r_0 u d c100) (c1 / of_nat k) - c1.
Proof.
  intros Hk.
  unfold term_structure, slice_from1. cbv zeta.
  set (zcb := for_ (range 1 (n + 1))
                (fun i v => set1 v i (zcb_price_forward i r_0 u d c100))
                (np_zeros1 (n + 1))).
  set (spot := for_ (range 1 (n + 1))
                 (fun i v =>
                    set1 v i (pow (c100 / get1 zcb i) (c1 / of_nat i) - c1))
                 (np_zeros1 (n + 1))).
  destruct (fill_vector
              (fun i => pow (c100 / get1 zcb i) (c1 / of_nat i) - c1)
              (range 1 (n + 1)) (np_zeros1 (n + 1))) as (Hl & Hin & _).
  cbv zeta in Hl, Hin. fold spot in Hl, Hin.
  rewrite Hl. cbn [len np_zeros1]. rewrite range_1_seq.
  rewrite (nth_indep _ dflt (get1 spot 0))
    by (rewrite length_map, length_seq; lia).
  rewrite map_nth, seq_nth by lia.
  replace (1 + (k - 1))%nat with k by lia.
  rewrite Hin by (rewrite in_range; lia).
  destruct (fill_vector (fun i => zcb_price_forward i r_0 u d c100)
              (range 1 (n + 1)) (np_zeros1 (n + 1))) as (_ & Hz & _).
  cbv zeta in Hz. fold zcb in Hz.
  rewrite Hz by (rewrite in_range; lia). reflexivity.
Qed.

End SumFacts.

(** * Exact arithmetic *)

Section RealFacts.

Local Open Scope R_scope.

Ltac r_ops :=
  cbn [add sub mul div c0 c1 c2 c100 chalf ltb is_zero R_scalar pow of_nat
       R_power] in *.

Lemma pymax2_Rmax (a b : R) : pymax2 a b = Rmax a b.
Proof.
  unfold pymax2, Rmax. r_ops.
  destruct (Rlt_dec a b), (Rle_dec a b); lra.
Qed.

Lemma pymax3_Rmax (a b c : R) : pymax3 a b c = Rmax (Rmax a b) c.
Proof. unfold pymax3. now rewrite !pymax2_Rmax. Qed.

Lemma is_zero_R_false (x : R) : x <> 0 -> is_zero x = false.
Proof. intros Hx. r_ops. now destruct (Req_dec_T x 0). Qed.

Lemma is_zero_R_true (x : R) : x = 0 -> is_zero x = true.
Proof. intros Hx. r_ops. now destruct (Req_dec_T x 0). Qed.

(** The lattice in closed form: [j] up-moves and [i - j] down-moves. *)
Lemma short_rate_closed (r_0 u d : R) (n i j : nat) :
  (j <= i)%nat -> (i <= n)%nat ->
  get (short_rate r_0 n u d) i j = r_0 * d ^ (i - j) * u ^ j.
Proof.
  revert j. induction i as [|i IH]; intros j Hj Hi.
  - replace j with 0%nat by lia. rewrite short_rate_root. simpl. lra.
  - rewrite short_rate_cell by lia. unfold lattice_step.
    replace (S i - 1)%nat with i by lia.
    destruct j as [|j]; cbn [Nat.eqb].
    + rewrite IH by lia. r_ops.
      replace (S i - 0)%nat with (S (i - 0)) by lia. simpl. lra.
    + replace (S j - 1)%nat with j by lia.
      rewrite IH by lia. r_ops.
      replace (S i - S j)%nat with (i - j)%nat by lia. simpl. lra.
Qed.

Lemma short_rate_up (r_0 u d : R) (n i j : nat) :
  (j <= i)%nat -> (i < n)%nat ->
  get (short_rate r_0 n u d) (i + 1) (j + 1)
  = get (short_rate r_0 n u d) i j * u.
Proof.
  intros Hj Hi. rewrite !short_rate_closed by lia.
  replace (i + 1 - (j + 1))%nat with (i - j)%nat by lia.
  rewrite Nat.add_1_r. simpl. lra.
Qed.

Lemma short_rate_down (r_0 u d : R) (n i j : nat) :
  (j <= i)%nat -> (i < n)%nat ->
  get (short_rate r_0 n u d) (i + 1) j
  = get (short_rate r_0 n u d) i j * d.
Proof.
  intros Hj Hi. rewrite !short_rate_closed by lia.
  replace (i + 1 - j)%nat with (S (i - j)) by lia. simpl. lra.
Qed.

Lemma short_rate_prefix (r_0 u d : R) (n n' i j : nat) :
  (j <= i)%nat -> (i <= n)%nat -> (i <= n')%nat ->
  get (short_rate r_0 n u d) i j = get (short_rate r_0 n' u d) i j.
Proof. intros. now rewrite !short_rate_closed. Qed.

Lemma short_rate_nonneg (r_0 u d : R) (n i j : nat) :
  0 <= r_0 -> 0 <= u -> 0 <= d ->
  (j <= i)%nat -> (i <= n)%nat ->
  0 <= get (short_rate r_0 n u d) i j.
Proof.
  intros Hr Hu Hd Hj Hi. rewrite short_rate_closed by assumption.
  apply Rmult_le_pos; [apply Rmult_le_pos|]; auto using pow_le.
Qed.

Lemma short_rate_flat (r : R) (n i j : nat) :
  (j <= i)%nat -> (i <= n)%nat ->
  get (short_rate r n 1 1) i j = r.
Proof.
  intros Hj Hi. rewrite short_rate_closed by assumption.
  rewrite !pow1. lra.
Qed.

(** ** The code computes the recursions of the specification *)

Lemma option_lattice_value (ot : Spec.option_type) (es : Spec.exercise_style)
  (n : nat) (r S_0 K u d : R) (i j : nat) :
  (j <= i)%nat -> (i <= n)%nat ->
  get (option_lattice n r S_0 K u d (Spec.option_tag ot) (Spec.style_tag es))
      i j
  = Spec.option_value ot es r (Spec.risk_neutral r u d) K u d (n - i)
      (get (stock_lattice S_0 n u d) i j).
Proof.
  intros Hj Hi. remember (n - i)%nat as m eqn:Hm.
  revert i j Hj Hi Hm. induction m as [|m IH]; intros i j Hj Hi Hm.
  - assert (i = n) by lia. subst i.
    rewrite option_lattice_terminal by assumption.
    rewrite pymax2_Rmax. unfold exercise.
    destruct ot; reflexivity.
  - rewrite option_lattice_cell by lia.
    unfold option_node, cont_value.
    rewrite !IH by lia.
    rewrite !stock_lattice_short_rate.
    rewrite short_rate_up, short_rate_down by lia.
    cbn [Spec.option_value]. cbv zeta.
    destruct es; cbn [Spec.style_tag String.eqb Ascii.eqb Bool.eqb andb].
    + reflexivity.
    + rewrite pymax3_Rmax. unfold exercise.
      rewrite Rmax_comm.
      destruct ot; reflexivity.
Qed.

Lemma binomial_tree_refines (ot : Spec.option_type)
  (es : Spec.exercise_style) (n : nat) (r S_0 K u d : R) :
  u <> d -> 1 + r <> 0 ->
  binomial_tree n r S_0 K u d (Spec.option_tag ot) (Spec.style_tag es)
  = Ok (Spec.price_option n r S_0 K u d ot es).
Proof.
  intros Hud Hr. rewrite binomial_tree_lattice.
  - rewrite option_lattice_value by lia.
    rewrite stock_lattice_short_rate, short_rate_root, Nat.sub_0_r.
    reflexivity.
  - destruct ot; [now left | now right].
  - destruct es; [now left | now right].
  - apply is_zero_R_false. r_ops. lra.
  - apply is_zero_R_false. r_ops. lra.
Qed.

Lemma swap_lattice_value (k r_0 u d : R) (n i j : nat) :
  (1 <= n)%nat -> (j <= i)%nat -> (i <= n - 1)%nat ->
  get (swap_lattice k r_0 n u d) i j
  = Spec.swap_value (k / 100) u d (n - 1 - i)
      (get (short_rate r_0 (n - 1) u d) i j / 100).
Proof.
  intros Hn Hj Hi. remember (n - 1 - i)%nat as m eqn:Hm.
  revert i j Hj Hi Hm. induction m as [|m IH]; intros i j Hj Hi Hm.
  - assert (i = (n - 1)%nat) by lia. subst i.
    rewrite swap_lattice_terminal by lia.
    unfold swap_terminal. rewrite !get_np_div. reflexivity.
  - rewrite swap_lattice_cell by lia.
    unfold swap_node. rewrite !get_np_div, !IH by lia.
    rewrite short_rate_up, short_rate_down by lia.
    cbn [Spec.swap_value]. r_ops.
    replace (get (short_rate r_0 (n - 1) u d) i j * u / 100)
      with (get (short_rate r_0 (n - 1) u d) i j / 100 * u) by lra.
    replace (get (short_rate r_0 (n - 1) u d) i j * d / 100)
      with (get (short_rate r_0 (n - 1) u d) i j / 100 * d) by lra.
    reflexivity.
Qed.

Lemma swap_price_refines (p k r_0 u d : R) (n : nat) :
  (1 <= n)%nat ->
  swap_price p k r_0 n u d
  = Ok (Spec.swap_value (k / 100) u d (n - 1) (r_0 / 100) * p).
Proof.
  intros Hn. rewrite swap_price_lattice by assumption.
  rewrite swap_lattice_value by lia.
  rewrite short_rate_root, Nat.sub_0_r. reflexivity.
Qed.

Lemma swaption_lattice_value (r_f r_0 u d : R) (n_o n i j : nat) :
  (n_o < n)%nat -> (j <= i)%nat -> (i <= n_o)%nat ->
  get (swaption_lattice (swap_lattice r_f r_0 n u d) r_0 n_o u d) i j
  = Spec.swaption_value (r_f / 100) u d (n - 1 - n_o) (n_o - i)
      (get (short_rate r_0 n_o u d) i j / 100).
Proof.
  intros Hn Hj Hi. remember (n_o - i)%nat as m eqn:Hm.
  revert i j Hj Hi Hm. induction m as [|m IH]; intros i j Hj Hi Hm.
  - assert (i = n_o) by lia. subst i.
    rewrite swaption_lattice_terminal by assumption.
    rewrite pymax2_Rmax, swap_lattice_value by lia.
    rewrite (short_rate_prefix r_0 u d (n := n - 1) (n' := n_o)) by lia.
    reflexivity.
  - rewrite swaption_lattice_cell by lia.
    unfold swaption_node. rewrite !get_np_div, !IH by lia.
    rewrite short_rate_up, short_rate_down by lia.
    cbn [Spec.swaption_value]. r_ops.
    replace (get (short_rate r_0 n_o u d) i j * u / 100)
      with (get (short_rate r_0 n_o u d) i j / 100 * u) by lra.
    replace (get (short_rate r_0 n_o u d) i j * d / 100)
      with (get (short_rate r_0 n_o u d) i j / 100 * d) by lra.
    reflexivity.
Qed.

Lemma swaption_price_refines (k r_f r_0 u d : R) (n_o n : nat) :
  (n_o < n)%nat ->
  Swaption.swaption_price k r_f r_0 n_o n u d
  = Ok (Spec.swaption_value (r_f / 100) u d (n - 1 - n_o) n_o (r_0 / 100)).
Proof.
  intros Hn. rewrite swaption_price_lattice by assumption.
  rewrite swaption_lattice_value by lia.
  rewrite short_rate_root, Nat.sub_0_r. reflexivity.
Qed.

(** ** Sums of elementary prices *)

Lemma sum_upto_plus (f g : nat -> R) (m : nat) :
  sum_upto (fun j => f j + g j) m = sum_upto f m + sum_upto g m.
Proof.
  induction m as [|m IH]; [rewrite !sum_upto_0; r_ops; lra|].
  rewrite !sum_upto_S, IH. r_ops. lra.
Qed.

Lemma sum_upto_scal (c : R) (f : nat -> R) (m : nat) :
  sum_upto (fun j => f j * c) m = sum_upto f m * c.
Proof.
  induction m as [|m IH]; [rewrite !sum_upto_0; r_ops; lra|].
  rewrite !sum_upto_S, IH. r_ops. lra.
Qed.

Lemma sum_upto_le (f g : nat -> R) (m : nat) :
  (forall j, (j < m)%nat -> f j <= g j) -> sum_upto f m <= sum_upto g m.
Proof.
  induction m as [|m IH]; intros Hfg; [rewrite !sum_upto_0; lra|].
  rewrite !sum_upto_S. r_ops.
  apply Rplus_le_compat; [apply IH|]; auto with arith.
Qed.

Lemma sum_upto_shift (a : nat -> R) (m : nat) :
  sum_upto (fun j => if (j =? 0)%nat then 0 else a (j - 1)%nat) (S m)
  = sum_upto a m.
Proof.
  induction m as [|m IH].
  - rewrite sum_upto_S, !sum_upto_0. r_ops. simpl. lra.
  - rewrite sum_upto_S, IH, sum_upto_S. cbn [Nat.eqb].
    now replace (S m - 1)%nat with m by lia.
Qed.

Lemma sum_upto_trunc (a : nat -> R) (m : nat) :
  sum_upto (fun j => if (j <? m)%nat then a j else 0) (S m) = sum_upto a m.
Proof.
  rewrite sum_upto_S, Nat.ltb_irrefl.
  rewrite (sum_upto_ext _ a).
  - r_ops. lra.
  - intros j Hj. apply Nat.ltb_lt in Hj. now rewrite Hj.
Qed.

(** Each elementary price of step [k] is split in two halves, discounted
    once, and handed to the two successor states. *)
Lemma row_sum_step (r_0 u d : R) (n k : nat) :
  (k < n)%nat ->
  sum_upto (get (elementary_prices r_0 n u d) (k + 1)) (k + 2)
  = sum_upto (fun j =>
      get (elementary_prices r_0 n u d) k j
      / (1 + get (short_rate r_0 n u d) k j / 100)) (k + 1).
Proof.
  intros Hk.
  set (e := elementary_prices r_0 n u d).
  set (s := np_div (short_rate r_0 n u d) c100).
  pose (a := fun j => get e k j / (2 * (1 + get s k j))).
  rewrite (sum_upto_ext _
    (fun j => (if (j =? 0)%nat then 0 else a (j - 1)%nat)
              + (if (j <? k + 1)%nat then a j else 0))).
  - rewrite sum_upto_plus.
    replace (k + 2)%nat with (S (k + 1)) by lia.
    rewrite sum_upto_shift, sum_upto_trunc, <- sum_upto_plus.
    apply sum_upto_ext. intros j _. unfold a, s.
    rewrite get_np_div. r_ops. unfold Rdiv.
    rewrite Rinv_mult. lra.
  - intros j Hj. unfold e.
    rewrite elementary_prices_cell by lia.
    unfold forward_step. fold e. fold s.
    replace (k + 1 - 1)%nat with k by lia. r_ops.
    destruct (Nat.eqb_spec j 0) as [->|Hne].
    + replace (0 <? k + 1)%nat with true by (symmetry; apply Nat.ltb_lt; lia).
      unfold a. lra.
    + destruct (Nat.ltb_spec j (k + 1)); unfold a; lra.
Qed.

Lemma elementary_prices_nonneg (r_0 u d : R) (n i j : nat) :
  (forall i j, (j <= i)%nat -> (i <= n)%nat ->
               0 <= get (short_rate r_0 n u d) i j) ->
  (j <= i)%nat -> (i <= n)%nat ->
  0 <= get (elementary_prices r_0 n u d) i j.
Proof.
  intros Hrate. revert j. induction i as [|i IH]; intros j Hj Hi.
  - replace j with 0%nat by lia. rewrite elementary_prices_root. r_ops. lra.
  - assert (Hdiv : forall j', (j' <= i)%nat ->
      0 <= get (elementary_prices r_0 n u d) i j'
           / (2 * (1 + get (np_div (short_rate r_0 n u d) c100) i j'))).
    { intros j' Hj'. rewrite get_np_div. r_ops.
      apply Rmult_le_pos; [apply IH; lia|].
      apply Rlt_le, Rinv_0_lt_compat.
      assert (0 <= get (short_rate r_0 n u d) i j') by (apply Hrate; lia).
      lra. }
    rewrite elementary_prices_cell by lia. unfold forward_step.
    replace (S i - 1)%nat with i by lia. r_ops.
    destruct (Nat.eqb_spec j 0) as [->|Hne].
    + apply Hdiv. lia.
    + destruct (Nat.ltb_spec j (S i)).
      * apply Rplus_le_le_0_compat; apply Hdiv; lia.
      * apply Hdiv. lia.
Qed.

Lemma row_sum_nonincreasing (r_0 u d : R) (n k : nat) :
  (forall i j, (j <= i)%nat -> (i <= n)%nat ->
               0 <= get (short_rate r_0 n u d) i j) ->
  (k < n)%nat ->
  sum_upto (get (elementary_prices r_0 n u d) (k + 1)) (k + 2)
  <= sum_upto (get (elementary_prices r_0 n u d) k) (k + 1).
Proof.
  intros Hrate Hk. rewrite row_sum_step by assumption.
  apply sum_upto_le. intros j Hj.
  assert (He : 0 <= get (elementary_prices r_0 n u d) k j)
    by (apply elementary_prices_nonneg; auto; lia).
  assert (Hs : 0 <= get (short_rate r_0 n u d) k j) by (apply Hrate; lia).
  apply Rle_trans
    with (get (elementary_prices r_0 n u d) k j / 1); [|lra].
  unfold Rdiv. apply Rmult_le_compat_l; [assumption|].
  apply Rinv_le_contravar; lra.
Qed.

Lemma row_sum_root (r_0 u d : R) (n : nat) :
  sum_upto (get (elementary_prices r_0 n u d) 0) 1 = 1.
Proof.
  rewrite sum_upto_S, sum_upto_0, elementary_prices_root. r_ops. lra.
Qed.

(** The lattice built for a shorter horizon is a prefix of the longer one. *)
Lemma elementary_prices_prefix (r_0 u d : R) (n n' i j : nat) :
  (j <= i)%nat -> (i <= n)%nat -> (i <= n')%nat ->
  get (elementary_prices r_0 n u d) i j
  = get (elementary_prices r_0 n' u d) i j.
Proof.
  revert j. induction i as [|i IH]; intros j Hj Hn Hn'.
  - replace j with 0%nat by lia. now rewrite !elementary_prices_root.
  - rewrite !elementary_prices_cell by lia. unfold forward_step.
    replace (S i - 1)%nat with i by lia. rewrite !get_np_div.
    destruct (Nat.eqb_spec j 0) as [->|Hne].
    + rewrite (IH 0%nat) by lia.
      now rewrite (short_rate_prefix r_0 u d (n := n) (n' := n')) by lia.
    + destruct (Nat.ltb_spec j (S i)).
      * rewrite (IH (j - 1)%nat), (IH j) by lia.
        rewrite (short_rate_prefix r_0 u d (n := n) (n' := n')
                   (i := i) (j := j - 1)) by lia.
        now rewrite (short_rate_prefix r_0 u d (n := n) (n' := n')
                       (i := i) (j := j)) by lia.
      * rewrite (IH (j - 1)%nat) by lia.
        now rewrite (short_rate_prefix r_0 u d (n := n) (n' := n')
                       (i := i) (j := j - 1)) by lia.
Qed.

Lemma zcb_price_forward_row_sum (r_0 u d fv : R) (n k : nat) :
  (k <= n)%nat ->
  zcb_price_forward k r_0 u d fv
  = fv * sum_upto (get (elementary_prices r_0 n u d) k) (k + 1).
Proof.
  intros Hk. unfold zcb_price_forward. cbv zeta.
  rewrite np_sum_axis1_sum, dim_elementary_prices. r_ops. f_equal.
  apply sum_upto_ext. intros j Hj.
  apply elementary_prices_prefix; lia.
Qed.

(** ** The flat lattice *)

Lemma flat_row_sum (r : R) (n k : nat) :
  (k <= n)%nat ->
  sum_upto (get (elementary_prices r n 1 1) k) (k + 1)
  = (/ (1 + r / 100)) ^ k.
Proof.
  induction k as [|k IH]; intros Hk.
  - rewrite row_sum_root. reflexivity.
  - replace (S k + 1)%nat with (k + 2)%nat by lia.
    replace (S k) with (k + 1)%nat at 1 by lia.
    rewrite row_sum_step by lia.
    rewrite (sum_upto_ext _
      (fun j => get (elementary_prices r n 1 1) k j * / (1 + r / 100))).
    + rewrite sum_upto_scal, IH by lia. simpl. lra.
    + intros j Hj. rewrite short_rate_flat by lia. reflexivity.
Qed.

Lemma flat_zcb_price (r : R) (k : nat) :
  zcb_price_forward k r 1 1 100 = 100 * (/ (1 + r / 100)) ^ k.
Proof.
  rewrite (zcb_price_forward_row_sum r 1 1 100 (n := k)) by lia.
  now rewrite flat_row_sum by lia.
Qed.

Lemma flat_spot_rate (r : R) (n k : nat) (dflt : R) :
  0 < 1 + r / 100 -> (1 <= k <= n)%nat ->
  nth (k - 1) (term_structure r n 1 1) dflt = r / 100.
Proof.
  intros Hr Hk. rewrite term_structure_nth by assumption.
  change c100 with 100. rewrite flat_zcb_price. r_ops.
  assert (Hpow : 0 < (1 + r / 100) ^ k) by now apply pow_lt.
  replace (100 / (100 * (/ (1 + r / 100)) ^ k)) with ((1 + r / 100) ^ k).
  - rewrite <- Rpower_pow by assumption.
    rewrite Rpower_mult.
    replace (INR k * (1 / INR k)) with 1.
    + rewrite Rpower_1 by assumption. lra.
    + field. apply not_0_INR. lia.
  - rewrite pow_inv. field. lra.
Qed.

End RealFacts.

(** ** Order properties of the option recursion *)

Section OptionOrder.

Local Open Scope R_scope.

Lemma option_value_style_le (ot : Spec.option_type) (r q K u d : R)
  (m : nat) (s : R) :
  0 <= q <= 1 -> 0 < 1 + r ->
  Spec.option_value ot Spec.European r q K u d m s
  <= Spec.option_value ot Spec.American r q K u d m s.
Proof.
  intros Hq Hr. revert s. induction m as [|m IH]; intros s.
  - simpl. lra.
  - cbn [Spec.option_value]. cbv zeta.
    eapply Rle_trans; [|apply Rmax_l].
    apply Rmult_le_compat_l.
    + apply Rlt_le. unfold Rdiv. rewrite Rmult_1_l.
      now apply Rinv_0_lt_compat.
    + apply Rplus_le_compat; apply Rmult_le_compat_l; try apply IH; lra.
Qed.

Lemma risk_neutral_range (r u d : R) :
  d < u -> d <= 1 + r <= u -> 0 <= Spec.risk_neutral r u d <= 1.
Proof.
  intros Hud Hr. unfold Spec.risk_neutral.
  assert (Hpos : 0 < u - d) by lra.
  split.
  - apply Rmult_le_pos; [lra|]. apply Rlt_le. now apply Rinv_0_lt_compat.
  - apply Rmult_le_reg_r with (u - d); [assumption|].
    unfold Rdiv. rewrite Rmult_assoc, Rinv_l by lra. lra.
Qed.

End OptionOrder.

Ltac rmax_simp :=
  repeat match goal with
  | |- context [Rmax ?a ?b] =>
      first [ rewrite (Rmax_left a b) by lra
            | rewrite (Rmax_right a b) by lra ]
  end.

(** ** Unrecognised tags *)

Section UnknownTags.

Context {F : Type} `{Scalar F}.
Local Open Scope scalar_scope.

(** With an unrecognised option type the terminal loop writes nothing. *)
Lemma terminal_unknown_option (n : nat) (K : F) (stock : @ndarray F)
  (PutCall : string) (a : @ndarray F) :
  PutCall <> "Call"%string -> PutCall <> "Put"%string ->
  for_ (range 0 (n + 1)) (fun i option_price =>
    if (PutCall =? "Call")%string then
      set option_price n i (pymax2 c0 (get stock n i - K))
    else if (PutCall =? "Put")%string then
      set option_price n i (pymax2 c0 (K - get stock n i))
    else option_price) a = a.
Proof.
  intros HC HP. apply String.eqb_neq in HC, HP. rewrite HC, HP.
  apply (for_invariant (fun b : @ndarray F => b = a)); auto.
Qed.

Lemma binomial_tree_unknown_style (n : nat) (r_f S_0 K u d : F)
  (PutCall Type_ : string) :
  Type_ <> "E"%string -> Type_ <> "A"%string ->
  is_zero (u - d) = false -> (1 <= n)%nat ->
  binomial_tree n r_f S_0 K u d PutCall Type_ = Ok c0.
Proof.
  intros HE HA Hud Hn. unfold binomial_tree.
  rewrite pydiv_ok by exact Hud. cbn [bind].
  apply String.eqb_neq in HE, HA. rewrite HE, HA. cbn [bind].
  f_equal.
  apply (for_invariant (fun b : @ndarray F => get b 0 0 = c0));
    [|reflexivity].
  intros i b _ Hb.
  destruct (PutCall =? "Call")%string;
    [|destruct (PutCall =? "Put")%string];
    try assumption; rewrite get_set_row by lia; assumption.
Qed.

Lemma binomial_tree_unknown_option_american (n : nat) (r_f S_0 K u d : F)
  (PutCall : string) :
  PutCall <> "Call"%string -> PutCall <> "Put"%string ->
  is_zero (u - d) = false ->
  binomial_tree n r_f S_0 K u d PutCall "A" = Ok c0.
Proof.
  intros HC HP Hud. unfold binomial_tree.
  rewrite pydiv_ok by exact Hud. cbn [bind].
  rewrite terminal_unknown_option by assumption.
  apply String.eqb_neq in HC, HP. rewrite HC, HP.
  cbn [String.eqb Ascii.eqb Bool.eqb andb].
  rewrite for_M_pure2 with (f := fun _ _ (a : @ndarray F) => a)
    by reflexivity.
  cbn [bind]. f_equal.
  apply (for_invariant (fun b : @ndarray F => get b 0 0 = c0));
    [|reflexivity].
  intros i b _ Hb.
  apply (for_invariant (fun b : @ndarray F => get b 0 0 = c0)); auto.
Qed.

Lemma binomial_tree_unknown_option_european (n : nat) (r_f S_0 K u d : F)
  (PutCall : string) :
  PutCall <> "Call"%string -> PutCall <> "Put"%string ->
  is_zero (u - d) = false -> is_zero (c1 + r_f) = false ->
  binomial_tree n r_f S_0 K u d PutCall "E"
  = Ok (get (for_ (range_down n) (fun i a =>
               for_ (range 0 (i + 1)) (fun j a =>
                 set a i j
                   (cont_value r_f (((c1 + r_f) - d) / (u - d)) a i j)) a)
               (np_zeros (n + 1))) 0 0).
Proof.
  intros HC HP Hud Hr. unfold binomial_tree.
  rewrite pydiv_ok by exact Hud. cbn [bind].
  rewrite terminal_unknown_option by assumption.
  cbn [String.eqb Ascii.eqb Bool.eqb andb].
  rewrite for_M_pure2 with
    (f := fun i j (a : @ndarray F) =>
            set a i j (cont_value r_f (((c1 + r_f) - d) / (u - d)) a i j)).
  - reflexivity.
  - intros i j a. now rewrite continuation_ok.
Qed.

End UnknownTags.

Section UnknownTagsReal.

Local Open Scope R_scope.

(** Discounting a lattice of zeros leaves zeros. *)
Lemma zero_lattice_european (n : nat) (r q : R) (i j : nat) :
  (j <= i)%nat -> (i <= n)%nat ->
  get (for_ (range_down n) (fun i a =>
         for_ (range 0 (i + 1)) (fun j a =>
           set a i j (cont_value r q a i j)) a) (np_zeros (n + 1))) i j = 0.
Proof.
  destruct (backward_pass (fun i a j => cont_value r q a i j) n
              (np_zeros (n + 1))) as (_ & Hkeep & Hcell).
  { intros k a a' j' Ha. unfold cont_value. now rewrite !Ha. }
  cbv zeta in Hkeep, Hcell.
  intros Hj Hi. remember (n - i)%nat as m eqn:Hm.
  revert i j Hj Hi Hm. induction m as [|m IH]; intros i j Hj Hi Hm.
  - rewrite Hkeep by lia. reflexivity.
  - rewrite Hcell by lia. unfold cont_value.
    rewrite !IH by lia.
    cbn [add sub mul div c0 c1 R_scalar]. lra.
Qed.

Lemma binomial_tree_unknown_tag (n : nat) (r_f S_0 K u d : R)
  (PutCall Type_ : string) :
  ~ (recognised_option PutCall /\ recognised_style Type_) ->
  u <> d -> 1 + r_f <> 0 -> (1 <= n)%nat ->
  binomial_tree n r_f S_0 K u d PutCall Type_ = Ok 0.
Proof.
  intros Htag Hud Hr Hn.
  assert (Hz : is_zero (u - d)%sc = false).
  { apply is_zero_R_false. cbn [sub R_scalar]. lra. }
  assert (Hz' : is_zero (c1 + r_f)%sc = false).
  { apply is_zero_R_false. cbn [add c1 R_scalar]. lra. }
  destruct (string_dec Type_ "E") as [->|HE];
    [|destruct (string_dec Type_ "A") as [->|HA]].
  - assert (HC : PutCall <> "Call"%string).
    { intros ->. apply Htag. split; [now left | now left]. }
    assert (HP : PutCall <> "Put"%string).
    { intros ->. apply Htag. split; [now right | now left]. }
    rewrite binomial_tree_unknown_option_european by assumption.
    now rewrite zero_lattice_european by lia.
  - assert (HC : PutCall <> "Call"%string).
    { intros ->. apply Htag. split; [now left | now right]. }
    assert (HP : PutCall <> "Put"%string).
    { intros ->. apply Htag. split; [now right | now right]. }
    now rewrite binomial_tree_unknown_option_american.
  - now rewrite binomial_tree_unknown_style.
Qed.

End UnknownTagsReal.

(** * The recorded notebook outputs, replayed in binary64 *)

Section Replay.

Local Open Scope float_scope.
#[local] Set Warnings "-inexact-float".

Example replay_binomial_tree :
  binomial_tree 3 0.01 100 100 1.07 (1 / 1.07) "Put" "A"
  = Ok 3.823930814466083.
Proof. vm_compute. reflexivity. Qed.

Example replay_swap_price :
  swap_price 100 5 6 10 1.25 0.9 = Ok 19.599784745960417.
Proof. vm_compute. reflexivity. Qed.

Example replay_swaption_price :
  Swaption.swaption_price 0 5 6 3 6 1.25 0.9 = Ok 0.06197180915914935.
Proof. vm_compute. reflexivity. Qed.

Example replay_degenerate_lattice :
  binomial_tree 3 0.01 100 100 1.07 1.07 "Put" "A" = Raise ZeroDivisionError.
Proof. vm_compute. reflexivity. Qed.

Example replay_unknown_tag :
  binomial_tree 3 0.01 100 100 1.07 (1 / 1.07) "P" "E" = Ok 0.
Proof. vm_compute. reflexivity. Qed.

(** For [u = d = inf] the divisor [u - d] is NaN, not zero: nothing is
    raised and the price is NaN. *)
Example replay_infinite_factors :
  binomial_tree 1 0.01 100 100 infinity infinity "Call" "E" = Ok nan.
Proof. vm_compute. reflexivity. Qed.

(** The one-period spot rate of the flat 6% lattice, [x ** (1/1)] being
    [x]: close to, but not, the double 0.06. *)
Example replay_flat_spot_rate :
  100 / zcb_price_forward 1 6 1 1 100 - 1 = 0.06000000000000005
  /\ PrimFloat.eqb (100 / zcb_price_forward 1 6 1 1 100 - 1) 0.06 = false.
Proof. split; vm_compute; reflexivity. Qed.

Example replay_american_below_european :
  binomial_tree 2 0 1 6 3 2 "Call" "A" = Ok 0
  /\ binomial_tree 2 0 1 6 3 2 "Call" "E" = Ok 3.
Proof. split; vm_compute; reflexivity. Qed.

End Replay.

(** * Main results *)

Section ForwardEquations.

Context {F : Type} `{Scalar F}.
Local Open Scope scalar_scope.

(** C1.  The lattice returned by [elementary_prices] has [e[0,0] = 1] and,
    for every [1 <= i <= n], satisfies the forward equations on the left
    edge, on the diagonal and in the interior, where the rate is the
    short-rate lattice value divided by 100. *)
Theorem elementary_prices_forward_equations (r_0 : F) (n : nat) (u d : F) :
  let e := elementary_prices r_0 n u d in
  let rate := fun i j => get (short_rate r_0 n u d) i j / c100 in
  get e 0 0 = c1 /\
  forall i, (1 <= i <= n)%nat ->
    get e i 0 = get e (i - 1) 0 / (c2 * (c1 + rate (i - 1)%nat 0%nat)) /\
    get e i i
    = get e (i - 1) (i - 1) / (c2 * (c1 + rate (i - 1)%nat (i - 1)%nat)) /\
    forall j, (0 < j < i)%nat ->
      get e i j
      = get e (i - 1) (j - 1) / (c2 * (c1 + rate (i - 1)%nat (j - 1)%nat))
        + get e (i - 1) j / (c2 * (c1 + rate (i - 1)%nat j)).
Proof.
  cbv zeta. split; [apply elementary_prices_root|].
  intros i Hi. repeat split.
  - rewrite elementary_prices_cell at 1 by lia. reflexivity.
  - rewrite elementary_prices_cell at 1 by lia. unfold forward_step.
    destruct (Nat.eqb_spec i 0) as [->|_]; [lia|].
    rewrite Nat.ltb_irrefl. reflexivity.
  - intros j Hj.
    rewrite elementary_prices_cell at 1 by lia. unfold forward_step.
    destruct (Nat.eqb_spec j 0) as [->|_]; [lia|].
    destruct (Nat.ltb_spec j i); [reflexivity | lia].
Qed.

(** C2.  The bond price is the face value times the sum of the elementary
    prices of all states [j = 0..k] at time step [k]. *)
Theorem zcb_price_forward_sum (k : nat) (r_0 u d fv : F) :
  zcb_price_forward k r_0 u d fv
  = fv * sum_upto (fun j => get (elementary_prices r_0 k u d) k j) (k + 1).
Proof.
  unfold zcb_price_forward. cbv zeta.
  now rewrite np_sum_axis1_sum, dim_elementary_prices.
Qed.

(** C9.  In [swap_price] the guard [i < j] is false at every pair of
    indices the backward loops visit, so the branch storing [''] is never
    taken: the call raises nothing and returns the root of the numeric
    valuation lattice times the notional. *)
Theorem swap_price_guard_dead (p k r_0 : F) (n : nat) (u d : F) :
  (1 <= n)%nat ->
  (forall i j, In i (range_down (n - 1)) -> In j (range 0 (i + 1)) ->
               (i <? j)%nat = false) /\
  swap_price p k r_0 n u d = Ok (get (swap_lattice k r_0 n u d) 0 0 * p).
Proof.
  intros Hn. split.
  - intros i j. apply swap_guard_false.
  - now apply swap_price_lattice.
Qed.

(** C10.  [swaption_price] does not depend on its strike argument. *)
Theorem swaption_price_strike_independent (k1 k2 r_f r_0 : F)
  (n_o n : nat) (u d : F) :
  Swaption.swaption_price k1 r_f r_0 n_o n u d
  = Swaption.swaption_price k2 r_f r_0 n_o n u d.
Proof. reflexivity. Qed.

End ForwardEquations.

Section RealResults.

Local Open Scope R_scope.

Lemma elementary_prices_forward_equations_witness :
  let e := elementary_prices 6 2 (5 / 4) (9 / 10) in
  let rate := fun i j => get (short_rate 6 2 (5 / 4) (9 / 10)) i j / 100 in
  (1 <= 2 <= 2)%nat /\ (0 < 1 < 2)%nat /\
  get e 0 0 = 1 /\
  get e 2 1
  = get e 1 0 / (2 * (1 + rate 1%nat 0%nat))
    + get e 1 1 / (2 * (1 + rate 1%nat 1%nat)).
Proof.
  cbv zeta.
  destruct (elementary_prices_forward_equations 6 2 (5 / 4) (9 / 10))
    as [H0 Hi].
  assert (H2 : (1 <= 2 <= 2)%nat) by lia.
  assert (H1 : (0 < 1 < 2)%nat) by lia.
  destruct (Hi 2%nat H2) as (_ & _ & Hint).
  split; [exact H2|]. split; [exact H1|]. split; [exact H0|].
  exact (Hint 1%nat H1).
Defined.

Lemma swap_price_guard_dead_witness :
  (1 <= 10)%nat /\
  (forall i j, In i (range_down (10 - 1)) -> In j (range 0 (i + 1)) ->
               (i <? j)%nat = false) /\
  swap_price 100 5 6 10 (5 / 4) (9 / 10)
  = Ok (get (swap_lattice 5 6 10 (5 / 4) (9 / 10)) 0 0 * 100).
Proof.
  assert (Hn : (1 <= 10)%nat) by lia.
  split; [exact Hn|].
  exact (@swap_price_guard_dead R _ 100 5 6 10 (5 / 4) (9 / 10) Hn).
Defined.

(** C3 as stated (the risk-free rate of [binomial_tree] is divided by 100
    before discounting) fails: one period, [r_f = 1], [S_0 = K = 100],
    [u = 2], [d = 1/2], European call.  The code returns 50; discounting at
    [r_f / 100] gives 3400/101. *)
Lemma binomial_tree_rate_not_normalised :
  binomial_tree 1 1 100 100 2 (1 / 2) "Call" "E"
  <> Ok (Spec.price_option 1 (1 / 100) 100 100 2 (1 / 2)
           Spec.Call Spec.European).
Proof.
  rewrite (binomial_tree_refines Spec.Call Spec.European) by lra.
  assert (H1 : Spec.price_option 1 1 100 100 2 (1 / 2)
                 Spec.Call Spec.European = 50).
  { unfold Spec.price_option, Spec.risk_neutral.
    replace ((1 + 1 - 1 / 2) / (2 - 1 / 2)) with 1 by (field; lra).
    cbn [Spec.option_value Spec.payoff]. cbv zeta.
    rmax_simp. lra. }
  assert (H2 : Spec.price_option 1 (1 / 100) 100 100 2 (1 / 2)
                 Spec.Call Spec.European = 3400 / 101).
  { unfold Spec.price_option, Spec.risk_neutral.
    replace ((1 + 1 / 100 - 1 / 2) / (2 - 1 / 2)) with (34 / 100)
      by (field; lra).
    cbn [Spec.option_value Spec.payoff]. cbv zeta.
    rmax_simp. field. }
  rewrite H1, H2. intros Heq. injection Heq. lra.
Qed.

(** C3, amended.  [binomial_tree] uses its risk-free rate as a per-period
    decimal rate, without dividing it by 100: it returns the risk-neutral
    backward-induction value with discount factor [1/(1+r_f)] and
    [q = ((1+r_f) - d)/(u - d)].  The swap and swaption pricers do take
    their fixed rate and initial short rate as percentages and divide them
    by 100 before discounting. *)
Theorem rate_conventions (ot : Spec.option_type) (es : Spec.exercise_style)
  (n n_o : nat) (r_f S_0 K u d p k strike r_0 : R) :
  u <> d -> 1 + r_f <> 0 -> (n_o < n)%nat ->
  binomial_tree n r_f S_0 K u d (Spec.option_tag ot) (Spec.style_tag es)
  = Ok (Spec.price_option n r_f S_0 K u d ot es)
  /\ swap_price p k r_0 n u d
     = Ok (Spec.swap_value (k / 100) u d (n - 1) (r_0 / 100) * p)
  /\ Swaption.swaption_price strike k r_0 n_o n u d
     = Ok (Spec.swaption_value (k / 100) u d (n - 1 - n_o) n_o (r_0 / 100)).
Proof.
  intros Hud Hr Hn. repeat split.
  - now apply binomial_tree_refines.
  - apply swap_price_refines. lia.
  - now apply swaption_price_refines.
Qed.

Lemma rate_conventions_witness :
  107 / 100 <> 100 / 107 /\ 1 + 1 / 100 <> 0 /\ (3 < 6)%nat /\
  binomial_tree 6 (1 / 100) 100 100 (107 / 100) (100 / 107) "Put" "A"
  = Ok (Spec.price_option 6 (1 / 100) 100 100 (107 / 100) (100 / 107)
          Spec.Put Spec.American)
  /\ swap_price 100 5 6 6 (107 / 100) (100 / 107)
     = Ok (Spec.swap_value (5 / 100) (107 / 100) (100 / 107) (6 - 1) (6 / 100)
           * 100)
  /\ Swaption.swaption_price 0 5 6 3 6 (107 / 100) (100 / 107)
     = Ok (Spec.swaption_value (5 / 100) (107 / 100) (100 / 107)
             (6 - 1 - 3) 3 (6 / 100)).
Proof.
  assert (H1 : 107 / 100 <> 100 / 107) by lra.
  assert (H2 : 1 + 1 / 100 <> 0) by lra.
  assert (H3 : (3 < 6)%nat) by lia.
  split; [exact H1|]. split; [exact H2|]. split; [exact H3|].
  exact (@rate_conventions Spec.Put Spec.American 6 3 (1 / 100) 100 100
           (107 / 100) (100 / 107) 100 5 0 6 H1 H2 H3).
Defined.

(** C4 as stated fails for parameters the specification accepts (positive
    factors, [u <> d]) when they admit arbitrage: two periods, [r_f = 0],
    [S_0 = 1], [K = 6], [u = 3], [d = 2], call.  Then [q = -1], the European
    price is 3 and the American price is 0. *)
Lemma american_below_european :
  Spec.valid_parameters 3 2 /\
  ~ (exists a e,
       binomial_tree 2 0 1 6 3 2 "Call" "A" = Ok a /\
       binomial_tree 2 0 1 6 3 2 "Call" "E" = Ok e /\
       e <= a).
Proof.
  split; [unfold Spec.valid_parameters; lra|].
  rewrite (binomial_tree_refines Spec.Call Spec.American) by lra.
  rewrite (binomial_tree_refines Spec.Call Spec.European) by lra.
  assert (HA : Spec.price_option 2 0 1 6 3 2 Spec.Call Spec.American = 0).
  { unfold Spec.price_option, Spec.risk_neutral.
    replace ((1 + 0 - 2) / (3 - 2)) with (-1) by (field; lra).
    cbn [Spec.option_value Spec.payoff]. cbv zeta.
    replace (1 / (1 + 0)) with 1 by (field; lra).
    rmax_simp. lra. }
  assert (HE : Spec.price_option 2 0 1 6 3 2 Spec.Call Spec.European = 3).
  { unfold Spec.price_option, Spec.risk_neutral.
    replace ((1 + 0 - 2) / (3 - 2)) with (-1) by (field; lra).
    cbn [Spec.option_value Spec.payoff]. cbv zeta.
    replace (1 / (1 + 0)) with 1 by (field; lra).
    rmax_simp. lra. }
  rewrite HA, HE. intros (a & e & Ha & He & Hle).
  injection Ha as <-. injection He as <-. lra.
Qed.

(** C4, amended.  In exact arithmetic, when the parameters admit no
    arbitrage, [0 < d <= 1 + r_f <= u] with [d < u] (so that
    [0 <= q <= 1]), both exercise styles return a price, and the American
    price is at least the European price, for calls and for puts.  In
    binary64 an overflowing lattice can break the comparison, see
    [replay_european_overflow]. *)
Theorem american_ge_european (n : nat) (r_f S_0 K u d : R)
  (PutCall : string) :
  recognised_option PutCall ->
  0 < d -> d < u -> d <= 1 + r_f <= u ->
  exists a e,
    binomial_tree n r_f S_0 K u d PutCall "A" = Ok a /\
    binomial_tree n r_f S_0 K u d PutCall "E" = Ok e /\
    e <= a.
Proof.
  intros HP Hd Hud Hr.
  assert (exists ot, PutCall = Spec.option_tag ot) as [ot ->].
  { destruct HP as [-> | ->];
      [now exists Spec.Call | now exists Spec.Put]. }
  exists (Spec.price_option n r_f S_0 K u d ot Spec.American),
         (Spec.price_option n r_f S_0 K u d ot Spec.European).
  repeat split.
  - apply (binomial_tree_refines ot Spec.American); lra.
  - apply (binomial_tree_refines ot Spec.European); lra.
  - unfold Spec.price_option. apply option_value_style_le.
    + now apply risk_neutral_range.
    + lra.
Qed.

Lemma american_ge_european_witness :
  recognised_option "Put" /\ 0 < 100 / 107 /\ 100 / 107 < 107 / 100 /\
  100 / 107 <= 1 + 1 / 100 <= 107 / 100 /\
  exists a e,
    binomial_tree 3 (1 / 100) 100 100 (107 / 100) (100 / 107) "Put" "A"
    = Ok a /\
    binomial_tree 3 (1 / 100) 100 100 (107 / 100) (100 / 107) "Put" "E"
    = Ok e /\
    e <= a.
Proof.
  assert (H0 : recognised_option "Put") by (right; reflexivity).
  assert (H1 : 0 < 100 / 107) by lra.
  assert (H2 : 100 / 107 < 107 / 100) by lra.
  assert (H3 : 100 / 107 <= 1 + 1 / 100 <= 107 / 100) by lra.
  split; [exact H0|]. split; [exact H1|]. split; [exact H2|].
  split; [exact H3|].
  exact (@american_ge_european 3 (1 / 100) 100 100 (107 / 100) (100 / 107)
           "Put" H0 H1 H2 H3).
Defined.

(** C5, amended.  In exact arithmetic, when every short rate of the
    lattice is non-negative, the sum over the states [j = 0..k] of the
    elementary prices at time step [k], which is the price of the
    zero-coupon bond of maturity [k] and face value 1, does not increase
    with [k]; at [k = 0] it equals 1.  In binary64 rounding can make the sum
    grow in its last bits, see [rounded_sums_increase]. *)
Theorem elementary_sums_nonincreasing (r_0 u d : R) (n k1 k2 : nat) :
  (forall i j, (j <= i)%nat -> (i <= n)%nat ->
               0 <= get (short_rate r_0 n u d) i j) ->
  (k1 <= k2)%nat -> (k2 <= n)%nat ->
  let e := elementary_prices r_0 n u d in
  sum_upto (get e 0) 1 = 1 /\
  sum_upto (get e k2) (k2 + 1) <= sum_upto (get e k1) (k1 + 1) /\
  zcb_price_forward k1 r_0 u d 1 = sum_upto (get e k1) (k1 + 1) /\
  zcb_price_forward k2 r_0 u d 1 = sum_upto (get e k2) (k2 + 1) /\
  zcb_price_forward k2 r_0 u d 1 <= zcb_price_forward k1 r_0 u d 1.
Proof.
  intros Hrate H12 H2n. cbv zeta.
  assert (Hmono :
    sum_upto (get (elementary_prices r_0 n u d) k2) (k2 + 1)
    <= sum_upto (get (elementary_prices r_0 n u d) k1) (k1 + 1)).
  { induction H12 as [|k2 H12 IH]; [lra|].
    eapply Rle_trans; [|apply IH; lia].
    replace (S k2 + 1)%nat with (k2 + 2)%nat by lia.
    replace (S k2) with (k2 + 1)%nat by lia.
    apply row_sum_nonincreasing; [assumption | lia]. }
  assert (Hz : forall k, (k <= n)%nat ->
    zcb_price_forward k r_0 u d 1
    = sum_upto (get (elementary_prices r_0 n u d) k) (k + 1)).
  { intros k Hk. rewrite (zcb_price_forward_row_sum r_0 u d 1 Hk).
    cbn [mul R_scalar]. lra. }
  repeat split.
  - apply row_sum_root.
  - exact Hmono.
  - apply Hz. lia.
  - apply Hz. lia.
  - rewrite !Hz by lia. exact Hmono.
Qed.

Lemma elementary_sums_nonincreasing_witness :
  (forall i j, (j <= i)%nat -> (i <= 3)%nat ->
               0 <= get (short_rate 6 3 (5 / 4) (9 / 10)) i j) /\
  (1 <= 3)%nat /\ (3 <= 3)%nat /\
  let e := elementary_prices 6 3 (5 / 4) (9 / 10) in
  sum_upto (get e 0) 1 = 1 /\
  sum_upto (get e 3) (3 + 1) <= sum_upto (get e 1) (1 + 1) /\
  zcb_price_forward 1 6 (5 / 4) (9 / 10) 1 = sum_upto (get e 1) (1 + 1) /\
  zcb_price_forward 3 6 (5 / 4) (9 / 10) 1 = sum_upto (get e 3) (3 + 1) /\
  zcb_price_forward 3 6 (5 / 4) (9 / 10) 1
  <= zcb_price_forward 1 6 (5 / 4) (9 / 10) 1.
Proof.
  assert (H0 : forall i j, (j <= i)%nat -> (i <= 3)%nat ->
                 0 <= get (short_rate 6 3 (5 / 4) (9 / 10)) i j).
  { intros i j Hj Hi. apply short_rate_nonneg; try assumption; lra. }
  assert (H1 : (1 <= 3)%nat) by lia.
  assert (H2 : (3 <= 3)%nat) by lia.
  split; [exact H0|]. split; [exact H1|]. split; [exact H2|].
  exact (@elementary_sums_nonincreasing 6 (5 / 4) (9 / 10) 3 1 3 H0 H1 H2).
Defined.

(** C6 as stated fails: on the flat lattice with [r = 6] the one-period
    spot rate returned by [term_structure] is the decimal 0.06, not 6. *)
Lemma flat_spot_rate_not_percent :
  nth (1 - 1) (term_structure 6 1 1 1) 0 <> 6.
Proof.
  rewrite flat_spot_rate by (try lia; lra). lra.
Qed.

(** C6, amended.  On the flat lattice ([u = d = 1], rate [r > 0] at every
    node, [r] a percentage) [term_structure] returns [n] spot rates and the
    one of maturity [k], [1 <= k <= n], is the decimal rate [r / 100]. *)
Theorem flat_term_structure (r : R) (n k : nat) (dflt : R) :
  0 < r -> (1 <= k <= n)%nat ->
  List.length (term_structure r n 1 1) = n /\
  nth (k - 1) (term_structure r n 1 1) dflt = r / 100.
Proof.
  intros Hr Hk. split.
  - apply term_structure_length.
  - apply flat_spot_rate; [lra | assumption].
Qed.

Lemma flat_term_structure_witness :
  0 < 6 /\ (1 <= 2 <= 3)%nat /\
  List.length (term_structure 6 3 1 1) = 3%nat /\
  nth (2 - 1) (term_structure 6 3 1 1) 0 = 6 / 100.
Proof.
  assert (H1 : 0 < 6) by lra.
  assert (H2 : (1 <= 2 <= 3)%nat) by lia.
  split; [exact H1|]. split; [exact H2|].
  exact (@flat_term_structure 6 3 2 0 H1 H2).
Defined.

(** C7 as stated fails: with [u = d] the call does fail, but the exception
    it raises is not one named DegenerateLattice. *)
Lemma degenerate_lattice_error_name :
  ~ (exists e,
       binomial_tree 1 0 100 100 1 1 "Call" "E" = Raise e /\
       exception_name e = "DegenerateLattice"%string).
Proof.
  intros (e & He & Hname).
  unfold binomial_tree in He.
  rewrite pydiv_raise in He
    by (apply is_zero_R_true; cbn [sub R_scalar]; lra).
  cbn [bind] in He. injection He as <-. discriminate Hname.
Qed.

(** C7, amended.  Every call of [binomial_tree] with [u = d] raises
    Python's ZeroDivisionError at the division that computes [q], before
    any lattice is built; no price (and no NaN) is returned. *)
Theorem degenerate_lattice_raises (n : nat) (r_f S_0 K u : R)
  (PutCall Type_ : string) :
  binomial_tree n r_f S_0 K u u PutCall Type_ = Raise ZeroDivisionError.
Proof.
  unfold binomial_tree.
  rewrite pydiv_raise by (apply is_zero_R_true; cbn [sub R_scalar]; lra).
  reflexivity.
Qed.

End RealResults.

(** * Results in binary64 *)

Section Binary64Results.

Local Open Scope float_scope.
#[local] Set Warnings "-inexact-float".

(** C4 in binary64: inside the no-arbitrage domain ([d = 1 <= 1 + r_f = 1
    <= u = 10]) the up-node of a stock worth 1e308 overflows to infinity;
    with [q = 0] the European step multiplies it by zero and returns NaN,
    which is not below the American price 1e308. *)
Example replay_european_overflow :
  binomial_tree 1 0 1e308 1 10 1 "Call" "E" = Ok nan
  /\ binomial_tree 1 0 1e308 1 10 1 "Call" "A" = Ok 1e308.
Proof. split; vm_compute; reflexivity. Qed.

(** C5 as stated fails in the arithmetic the code runs in.  With
    [r_0 = 1.2e-14], [u = 1], [d = 0.9] every short rate of the lattice is
    non-negative, yet the elementary prices of step 5 sum to more than
    those of step 4, and so do the two bond prices of face value 1:
    0.99999999999999967 against 0.99999999999999956. *)
Lemma rounded_sums_increase :
  (forall i j, (j <= i)%nat -> (i <= 5)%nat ->
     PrimFloat.leb 0 (get (short_rate 1.2e-14 5 1 0.9) i j) = true) /\
  PrimFloat.ltb (np_sum_axis1 (elementary_prices 1.2e-14 5 1 0.9) 4)
                (np_sum_axis1 (elementary_prices 1.2e-14 5 1 0.9) 5) = true /\
  zcb_price_forward 4 1.2e-14 1 0.9 1 = 0.99999999999999956 /\
  zcb_price_forward 5 1.2e-14 1 0.9 1 = 0.99999999999999967 /\
  PrimFloat.ltb (zcb_price_forward 4 1.2e-14 1 0.9 1)
                (zcb_price_forward 5 1.2e-14 1 0.9 1) = true.
Proof.
  split; [|repeat split; vm_compute; reflexivity].
  intros i j Hj Hi.
  assert (Hall :
    forallb (fun i =>
      forallb (fun j =>
        PrimFloat.leb 0 (get (short_rate 1.2e-14 5 1 0.9) i j))
        (range 0 (i + 1))) (range 0 6) = true)
    by (vm_compute; reflexivity).
  rewrite forallb_forall in Hall.
  assert (Hrow := Hall i (proj2 (in_range 0 6 i) ltac:(lia))).
  rewrite forallb_forall in Hrow.
  apply Hrow. apply in_range. lia.
Qed.

(** C8.  The claim is right and the code is not.  The notebook describes
    the tags as [P] for a put and [C] for a call, the function recognises
    only ['Put'] and ['Call'], and its [if]/[elif] chains have no [else]:
    on the notebook's own example the tag ['P'] is swallowed, nothing is
    raised and the price returned is 0, where the put is worth
    3.6333982715065152.  An unrecognised exercise style is swallowed in
    the same way. *)
Theorem unrecognised_tag_priced_at_zero :
  binomial_tree 3 0.01 100 100 1.07 (1 / 1.07) "P" "E" = Ok 0
  /\ binomial_tree 3 0.01 100 100 1.07 (1 / 1.07) "Put" "E"
     = Ok 3.6333982715065152
  /\ binomial_tree 3 0.01 100 100 1.07 (1 / 1.07) "Put" "European" = Ok 0.
Proof. repeat split; vm_compute; reflexivity. Qed.

End Binary64Results.

(** * Further properties of the lattices *)

Section LatticeShape.

Context {F : Type} `{Scalar F}.
Local Open Scope scalar_scope.

(** Writing on or below the diagonal keeps the cells above it at zero. *)
Lemma set_keeps_upper (a : @ndarray F) (i0 j0 : nat) (v : F) :
  (j0 <= i0)%nat ->
  (forall i j, (i < j)%nat -> get a i j = c0) ->
  forall i j, (i < j)%nat -> get (set a i0 j0 v) i j = c0.
Proof.
  intros Hle Ha i j Hij.
  destruct (Nat.eq_dec i i0) as [->|Hne].
  - rewrite get_set_col by lia. now apply Ha.
  - rewrite get_set_row by assumption. now apply Ha.
Qed.

Lemma lattice_row_keeps_upper (u d : F) (i0 : nat) (a : @ndarray F) :
  (forall i j, (i < j)%nat -> get a i j = c0) ->
  forall i j, (i < j)%nat -> get (lattice_row u d i0 a) i j = c0.
Proof.
  intros Ha. unfold lattice_row. cbv zeta.
  apply (for_invariant
           (fun b : @ndarray F => forall i j, (i < j)%nat -> get b i j = c0)).
  - intros j0 b Hj0 Hb. apply in_range in Hj0.
    apply set_keeps_upper; [lia | assumption].
  - apply set_keeps_upper; [lia | assumption].
Qed.

Lemma short_rate_upper (r_0 : F) (n : nat) (u d : F) (i j : nat) :
  (i < j)%nat -> get (short_rate r_0 n u d) i j = c0.
Proof.
  revert i j. rewrite short_rate_unfold.
  apply (for_invariant
           (fun b : @ndarray F => forall i j, (i < j)%nat -> get b i j = c0)).
  - intros i0 b _ Hb. now apply lattice_row_keeps_upper.
  - apply set_keeps_upper; [lia | reflexivity].
Qed.

Lemma forward_row_keeps_upper (s : @ndarray F) (i0 : nat) (a : @ndarray F) :
  (forall i j, (i < j)%nat -> get a i j = c0) ->
  forall i j, (i < j)%nat -> get (forward_row s i0 a) i j = c0.
Proof.
  intros Ha. rewrite forward_row_eq.
  apply (for_invariant
           (fun b : @ndarray F => forall i j, (i < j)%nat -> get b i j = c0)).
  - intros j0 b Hj0 Hb. apply in_range in Hj0.
    apply set_keeps_upper; [lia | assumption].
  - apply set_keeps_upper; [lia | assumption].
Qed.

Lemma elementary_prices_upper (r_0 : F) (n : nat) (u d : F) (i j : nat) :
  (i < j)%nat -> get (elementary_prices r_0 n u d) i j = c0.
Proof.
  revert i j. rewrite elementary_prices_unfold. cbv zeta.
  apply (for_invariant
           (fun b : @ndarray F => forall i j, (i < j)%nat -> get b i j = c0)).
  - intros i0 b _ Hb. now apply forward_row_keeps_upper.
  - apply (for_invariant
             (fun b : @ndarray F =>
                forall i j, (i < j)%nat -> get b i j = c0)).
    + intros i0 b _ Hb. apply set_keeps_upper; [lia | assumption].
    + apply set_keeps_upper; [lia | reflexivity].
Qed.

(** X1.  [short_rate] (and [stock_lattice], which runs the same code)
    returns an array of shape [(n+1, n+1)] whose root is the initial value
    and whose cells above the diagonal, [i < j <= n], keep the zero they
    were allocated with. *)
Theorem lattice_shape (r_0 : F) (n : nat) (u d : F) :
  dim (short_rate r_0 n u d) = (n + 1)%nat /\
  stock_lattice r_0 n u d = short_rate r_0 n u d /\
  get (short_rate r_0 n u d) 0 0 = r_0 /\
  forall i j, (i < j)%nat -> (j <= n)%nat ->
    get (short_rate r_0 n u d) i j = c0.
Proof.
  repeat split.
  - apply dim_short_rate.
  - apply short_rate_root.
  - intros i j Hij _. now apply short_rate_upper.
Qed.

(** X2.  [elementary_prices] returns an array of shape [(n+1, n+1)] whose
    cells above the diagonal are zero: at time step [i] only the states
    [0..i] carry a price. *)
Theorem elementary_prices_shape (r_0 : F) (n : nat) (u d : F) :
  dim (elementary_prices r_0 n u d) = (n + 1)%nat /\
  forall i j, (i < j)%nat -> (j <= n)%nat ->
    get (elementary_prices r_0 n u d) i j = c0.
Proof.
  split.
  - apply dim_elementary_prices.
  - intros i j Hij _. now apply elementary_prices_upper.
Qed.

End LatticeShape.

Section LatticeReal.

Local Open Scope R_scope.

Ltac r_ops :=
  cbn [add sub mul div c0 c1 c2 c100 chalf ltb is_zero R_scalar pow of_nat
       R_power] in *.

Lemma lattice_shape_witness :
  (0 < 2)%nat /\ (2 <= 3)%nat /\
  dim (short_rate 6 3 (5 / 4) (9 / 10)) = (3 + 1)%nat /\
  get (short_rate 6 3 (5 / 4) (9 / 10)) 0 0 = 6 /\
  get (short_rate 6 3 (5 / 4) (9 / 10)) 0 2 = 0.
Proof.
  destruct (lattice_shape 6 3 (5 / 4) (9 / 10)) as (Hd & _ & Hr & Hup).
  assert (H1 : (0 < 2)%nat) by lia.
  assert (H2 : (2 <= 3)%nat) by lia.
  split; [exact H1|]. split; [exact H2|]. split; [exact Hd|].
  split; [exact Hr|]. exact (Hup 0%nat 2%nat H1 H2).
Defined.

Lemma elementary_prices_shape_witness :
  (1 < 2)%nat /\ (2 <= 3)%nat /\
  dim (elementary_prices 6 3 (5 / 4) (9 / 10)) = (3 + 1)%nat /\
  get (elementary_prices 6 3 (5 / 4) (9 / 10)) 1 2 = 0.
Proof.
  destruct (elementary_prices_shape 6 3 (5 / 4) (9 / 10)) as (Hd & Hup).
  assert (H1 : (1 < 2)%nat) by lia.
  assert (H2 : (2 <= 3)%nat) by lia.
  split; [exact H1|]. split; [exact H2|]. split; [exact Hd|].
  exact (Hup 1%nat 2%nat H1 H2).
Defined.

(** X3.  In exact arithmetic the lattice is recombining and has a closed
    form: the cell [(i, j)], [j <= i <= n], holds the initial value times
    [d^(i-j) * u^j]; in particular the edges are [r_0 * d^i] and
    [r_0 * u^i], and an up-move followed by a down-move reaches the same
    value as a down-move followed by an up-move. *)
Theorem lattice_closed_form (r_0 u d : R) (n i j : nat) :
  (j <= i)%nat -> (i <= n)%nat ->
  get (short_rate r_0 n u d) i j = r_0 * d ^ (i - j) * u ^ j /\
  get (short_rate r_0 n u d) i 0 = r_0 * d ^ i /\
  get (short_rate r_0 n u d) i i = r_0 * u ^ i /\
  ((i < n)%nat ->
   get (short_rate r_0 n u d) (i + 1) (j + 1)
   = get (short_rate r_0 n u d) i j * u /\
   get (short_rate r_0 n u d) (i + 1) j
   = get (short_rate r_0 n u d) i j * d).
Proof.
  intros Hj Hi. repeat split.
  - now apply short_rate_closed.
  - rewrite short_rate_closed by lia. rewrite Nat.sub_0_r. simpl. lra.
  - rewrite short_rate_closed by lia. rewrite Nat.sub_diag. simpl. lra.
  - now apply short_rate_up.
  - now apply short_rate_down.
Qed.

Lemma lattice_closed_form_witness :
  (1 <= 2)%nat /\ (2 <= 3)%nat /\ (2 < 3)%nat /\
  get (short_rate 6 3 (5 / 4) (9 / 10)) 2 1
  = 6 * (9 / 10) ^ (2 - 1) * (5 / 4) ^ 1 /\
  get (short_rate 6 3 (5 / 4) (9 / 10)) (2 + 1) (1 + 1)
  = get (short_rate 6 3 (5 / 4) (9 / 10)) 2 1 * (5 / 4) /\
  get (short_rate 6 3 (5 / 4) (9 / 10)) (2 + 1) 1
  = get (short_rate 6 3 (5 / 4) (9 / 10)) 2 1 * (9 / 10).
Proof.
  assert (H1 : (1 <= 2)%nat) by lia.
  assert (H2 : (2 <= 3)%nat) by lia.
  assert (H3 : (2 < 3)%nat) by lia.
  destruct (@lattice_closed_form 6 (5 / 4) (9 / 10) 3 2 1 H1 H2)
    as (Hc & _ & _ & Hstep).
  destruct (Hstep H3) as (Hu & Hd).
  split; [exact H1|]. split; [exact H2|]. split; [exact H3|].
  split; [exact Hc|]. split; [exact Hu | exact Hd].
Defined.

Lemma sum_upto_zeros (f : nat -> R) (m p : nat) :
  (forall j, (m <= j)%nat -> f j = 0) ->
  sum_upto f (m + p) = sum_upto f m.
Proof.
  intros Hz. induction p as [|p IH].
  - now rewrite Nat.add_0_r.
  - rewrite Nat.add_succ_r, sum_upto_S, IH, Hz by lia. r_ops. lra.
Qed.

Lemma sum_upto_nonneg (f : nat -> R) (m : nat) :
  (forall j, (j < m)%nat -> 0 <= f j) -> 0 <= sum_upto f m.
Proof.
  induction m as [|m IH]; intros Hf.
  - rewrite sum_upto_0. r_ops. lra.
  - rewrite sum_upto_S. r_ops.
    apply Rplus_le_le_0_compat; [apply IH|]; auto with arith.
Qed.

Lemma sum_upto_ge_term (f : nat -> R) (m j : nat) :
  (forall j', (j' < m)%nat -> 0 <= f j') -> (j < m)%nat ->
  f j <= sum_upto f m.
Proof.
  induction m as [|m IH]; intros Hf Hj; [lia|].
  rewrite sum_upto_S. r_ops.
  destruct (Nat.eq_dec j m) as [->|Hne].
  - assert (0 <= sum_upto f m) by (apply sum_upto_nonneg; auto with arith).
    lra.
  - assert (f j <= sum_upto f m) by (apply IH; auto with arith; lia).
    assert (0 <= f m) by auto with arith. lra.
Qed.

(** X4.  One lattice holds every bond price: for each [k <= n] the sum of
    the whole row [k] of [elementary_prices(r_0, n, u, d)], times the face
    value, is the price [zcb_price_forward(k, r_0, u, d, fv)] that
    [term_structure] recomputes from a fresh lattice of horizon [k]. *)
Theorem one_lattice_all_maturities (r_0 u d fv : R) (n k : nat) :
  (k <= n)%nat ->
  zcb_price_forward k r_0 u d fv
  = fv * np_sum_axis1 (elementary_prices r_0 n u d) k /\
  forall i j, (j <= i)%nat -> (i <= k)%nat ->
    get (elementary_prices r_0 k u d) i j
    = get (elementary_prices r_0 n u d) i j.
Proof.
  intros Hk. split.
  - rewrite (zcb_price_forward_row_sum r_0 u d fv Hk).
    rewrite np_sum_axis1_sum, dim_elementary_prices.
    replace (n + 1)%nat with (k + 1 + (n - k))%nat by lia.
    rewrite (@sum_upto_zeros (get (elementary_prices r_0 n u d) k)
               (k + 1) (n - k)); [reflexivity|].
    intros j Hj.
    pose proof (@elementary_prices_upper R _ r_0 n u d k j) as Hu.
    r_ops. apply Hu. lia.
  - intros i j Hj Hi. apply elementary_prices_prefix; lia.
Qed.

Lemma one_lattice_all_maturities_witness :
  (2 <= 5)%nat /\ (1 <= 2)%nat /\ (2 <= 2)%nat /\
  zcb_price_forward 2 6 (5 / 4) (9 / 10) 100
  = 100 * np_sum_axis1 (elementary_prices 6 5 (5 / 4) (9 / 10)) 2 /\
  get (elementary_prices 6 2 (5 / 4) (9 / 10)) 2 1
  = get (elementary_prices 6 5 (5 / 4) (9 / 10)) 2 1.
Proof.
  assert (H1 : (2 <= 5)%nat) by lia.
  assert (H2 : (1 <= 2)%nat) by lia.
  assert (H3 : (2 <= 2)%nat) by lia.
  destruct (@one_lattice_all_maturities 6 (5 / 4) (9 / 10) 100 5 2 H1)
    as (Hz & Hp).
  split; [exact H1|]. split; [exact H2|]. split; [exact H3|].
  split; [exact Hz|]. exact (Hp 2%nat 1%nat H2 H3).
Defined.

(** X5.  The discounting identity behind the forward equations: the
    elementary prices of step [k + 1] sum to the elementary prices of step
    [k], each discounted once at the rate of its own node, as long as no
    discount factor of step [k] divides by zero. *)
Theorem forward_sum_identity (r_0 u d : R) (n k : nat) :
  (k < n)%nat ->
  (forall j, (j <= k)%nat ->
     1 + get (short_rate r_0 n u d) k j / 100 <> 0) ->
  sum_upto (get (elementary_prices r_0 n u d) (k + 1)) (k + 2)
  = sum_upto (fun j =>
      get (elementary_prices r_0 n u d) k j
      / (1 + get (short_rate r_0 n u d) k j / 100)) (k + 1).
Proof. intros Hk _. now apply row_sum_step. Qed.

Lemma forward_sum_identity_witness :
  (1 < 3)%nat /\
  (forall j, (j <= 1)%nat ->
     1 + get (short_rate 6 3 (5 / 4) (9 / 10)) 1 j / 100 <> 0) /\
  sum_upto (get (elementary_prices 6 3 (5 / 4) (9 / 10)) (1 + 1)) (1 + 2)
  = sum_upto (fun j =>
      get (elementary_prices 6 3 (5 / 4) (9 / 10)) 1 j
      / (1 + get (short_rate 6 3 (5 / 4) (9 / 10)) 1 j / 100)) (1 + 1).
Proof.
  assert (H1 : (1 < 3)%nat) by lia.
  assert (H2 : forall j, (j <= 1)%nat ->
                 1 + get (short_rate 6 3 (5 / 4) (9 / 10)) 1 j / 100 <> 0).
  { intros j Hj.
    assert (0 <= get (short_rate 6 3 (5 / 4) (9 / 10)) 1 j)
      by (apply short_rate_nonneg; try lra; lia).
    lra. }
  split; [exact H1|]. split; [exact H2|].
  exact (@forward_sum_identity 6 (5 / 4) (9 / 10) 3 1 H1 H2).
Defined.

Lemma elementary_left_edge_pos (r_0 u d : R) (n k : nat) :
  (forall i j, (j <= i)%nat -> (i <= n)%nat ->
               0 <= get (short_rate r_0 n u d) i j) ->
  (k <= n)%nat -> 0 < get (elementary_prices r_0 n u d) k 0.
Proof.
  intros Hrate. induction k as [|k IH]; intros Hk.
  - rewrite elementary_prices_root. r_ops. lra.
  - rewrite elementary_prices_cell by lia. unfold forward_step.
    cbn [Nat.eqb]. replace (S k - 1)%nat with k by lia.
    rewrite get_np_div. r_ops.
    assert (0 <= get (short_rate r_0 n u d) k 0) by (apply Hrate; lia).
    assert (0 < get (elementary_prices r_0 n u d) k 0) by (apply IH; lia).
    apply Rmult_lt_0_compat; [assumption|].
    apply Rinv_0_lt_compat. lra.
Qed.

Lemma row_sum_pos (r_0 u d : R) (n k : nat) :
  (forall i j, (j <= i)%nat -> (i <= n)%nat ->
               0 <= get (short_rate r_0 n u d) i j) ->
  (k <= n)%nat ->
  0 < sum_upto (get (elementary_prices r_0 n u d) k) (k + 1).
Proof.
  intros Hrate Hk.
  apply Rlt_le_trans with (get (elementary_prices r_0 n u d) k 0).
  - now apply elementary_left_edge_pos.
  - apply sum_upto_ge_term; [|lia].
    intros j Hj. apply elementary_prices_nonneg; auto; lia.
Qed.

Lemma row_sum_le_one (r_0 u d : R) (n k : nat) :
  (forall i j, (j <= i)%nat -> (i <= n)%nat ->
               0 <= get (short_rate r_0 n u d) i j) ->
  (k <= n)%nat ->
  sum_upto (get (elementary_prices r_0 n u d) k) (k + 1) <= 1.
Proof.
  intros Hrate. induction k as [|k IH]; intros Hk.
  - rewrite row_sum_root. lra.
  - eapply Rle_trans; [|apply IH; lia].
    replace (S k + 1)%nat with (k + 2)%nat by lia.
    replace (S k) with (k + 1)%nat by lia.
    apply row_sum_nonincreasing; [assumption | lia].
Qed.

(** X6.  When every short rate of the lattice is non-negative, every
    elementary price lies between 0 and 1. *)
Theorem elementary_price_bounds (r_0 u d : R) (n i j : nat) :
  (forall i j, (j <= i)%nat -> (i <= n)%nat ->
               0 <= get (short_rate r_0 n u d) i j) ->
  (j <= i)%nat -> (i <= n)%nat ->
  0 <= get (elementary_prices r_0 n u d) i j <= 1.
Proof.
  intros Hrate Hj Hi. split.
  - now apply elementary_prices_nonneg.
  - apply Rle_trans
      with (sum_upto (get (elementary_prices r_0 n u d) i) (i + 1)).
    + apply sum_upto_ge_term; [|lia].
      intros j' Hj'. apply elementary_prices_nonneg; auto; lia.
    + now apply row_sum_le_one.
Qed.

Lemma elementary_price_bounds_witness :
  (forall i j, (j <= i)%nat -> (i <= 3)%nat ->
               0 <= get (short_rate 6 3 (5 / 4) (9 / 10)) i j) /\
  (1 <= 2)%nat /\ (2 <= 3)%nat /\
  0 <= get (elementary_prices 6 3 (5 / 4) (9 / 10)) 2 1 <= 1.
Proof.
  assert (H0 : forall i j, (j <= i)%nat -> (i <= 3)%nat ->
                 0 <= get (short_rate 6 3 (5 / 4) (9 / 10)) i j).
  { intros i j Hj Hi. apply short_rate_nonneg; try assumption; lra. }
  assert (H1 : (1 <= 2)%nat) by lia.
  assert (H2 : (2 <= 3)%nat) by lia.
  split; [exact H0|]. split; [exact H1|]. split; [exact H2|].
  exact (@elementary_price_bounds 6 (5 / 4) (9 / 10) 3 2 1 H0 H1 H2).
Defined.

Lemma forward_price_in_range (r_0 u d fv : R) (k : nat) :
  (forall i j, (j <= i)%nat -> (i <= k)%nat ->
               0 <= get (short_rate r_0 k u d) i j) ->
  0 < fv ->
  0 < zcb_price_forward k r_0 u d fv <= fv.
Proof.
  intros Hrate Hfv.
  rewrite (@zcb_price_forward_row_sum r_0 u d fv k k) by lia.
  assert (Hp := @row_sum_pos r_0 u d k k Hrate (Nat.le_refl k)).
  assert (Hl := @row_sum_le_one r_0 u d k k Hrate (Nat.le_refl k)).
  split.
  - now apply Rmult_lt_0_compat.
  - rewrite <- (Rmult_1_r fv) at 2.
    apply Rmult_le_compat_l; lra.
Qed.

(** X7.  When every short rate of the lattice is non-negative, a
    zero-coupon bond with positive face value has a positive price that
    does not exceed its face value. *)
Theorem bond_price_bounds (r_0 u d fv : R) (k : nat) :
  (forall i j, (j <= i)%nat -> (i <= k)%nat ->
               0 <= get (short_rate r_0 k u d) i j) ->
  0 < fv ->
  0 < zcb_price_forward k r_0 u d fv <= fv.
Proof. exact (@forward_price_in_range r_0 u d fv k). Qed.

Lemma bond_price_bounds_witness :
  (forall i j, (j <= i)%nat -> (i <= 3)%nat ->
               0 <= get (short_rate 6 3 (5 / 4) (9 / 10)) i j) /\
  0 < 100 /\
  0 < zcb_price_forward 3 6 (5 / 4) (9 / 10) 100 <= 100.
Proof.
  assert (H0 : forall i j, (j <= i)%nat -> (i <= 3)%nat ->
                 0 <= get (short_rate 6 3 (5 / 4) (9 / 10)) i j).
  { intros i j Hj Hi. apply short_rate_nonneg; try assumption; lra. }
  assert (H1 : 0 < 100) by lra.
  split; [exact H0|]. split; [exact H1|].
  exact (@bond_price_bounds 6 (5 / 4) (9 / 10) 100 3 H0 H1).
Defined.

(** X8.  When every short rate of the lattice is non-negative,
    [term_structure] returns [n] spot rates, none of them negative. *)
Theorem spot_rates_nonneg (r_0 u d : R) (n k : nat) (dflt : R) :
  (forall i j, (j <= i)%nat -> (i <= n)%nat ->
               0 <= get (short_rate r_0 n u d) i j) ->
  (1 <= k <= n)%nat ->
  List.length (term_structure r_0 n u d) = n /\
  0 <= nth (k - 1) (term_structure r_0 n u d) dflt.
Proof.
  intros Hrate Hk. split; [apply term_structure_length|].
  rewrite term_structure_nth by assumption.
  assert (Hrate_k : forall i j, (j <= i)%nat -> (i <= k)%nat ->
                      0 <= get (short_rate r_0 k u d) i j).
  { intros i j Hj Hi.
    rewrite (short_rate_prefix r_0 u d (n := k) (n' := n)) by lia.
    apply Hrate; lia. }
  assert (H100 : 0 < 100) by lra.
  destruct (@forward_price_in_range r_0 u d 100 k Hrate_k H100)
    as (Hpos & Hle).
  change (c100 : R) with 100. r_ops.
  set (z := zcb_price_forward k r_0 u d 100) in *.
  assert (Hx : 1 <= 100 / z).
  { apply Rmult_le_reg_r with z; [assumption|].
    unfold Rdiv. rewrite Rmult_assoc, Rinv_l by lra. lra. }
  assert (Hy : 0 <= 1 / INR k).
  { apply Rlt_le. unfold Rdiv. rewrite Rmult_1_l.
    apply Rinv_0_lt_compat. apply lt_0_INR. lia. }
  assert (Hpow := Rle_Rpower (100 / z) 0 (1 / INR k) Hx Hy).
  rewrite Rpower_O in Hpow by lra. lra.
Qed.

Lemma spot_rates_nonneg_witness :
  (forall i j, (j <= i)%nat -> (i <= 3)%nat ->
               0 <= get (short_rate 6 3 (5 / 4) (9 / 10)) i j) /\
  (1 <= 2 <= 3)%nat /\
  List.length (term_structure 6 3 (5 / 4) (9 / 10)) = 3%nat /\
  0 <= nth (2 - 1) (term_structure 6 3 (5 / 4) (9 / 10)) 0.
Proof.
  assert (H0 : forall i j, (j <= i)%nat -> (i <= 3)%nat ->
                 0 <= get (short_rate 6 3 (5 / 4) (9 / 10)) i j).
  { intros i j Hj Hi. apply short_rate_nonneg; try assumption; lra. }
  assert (H1 : (1 <= 2 <= 3)%nat) by lia.
  split; [exact H0|]. split; [exact H1|].
  exact (@spot_rates_nonneg 6 (5 / 4) (9 / 10) 3 2 0 H0 H1).
Defined.

(** X9.  On the flat lattice ([u = d = 1], with [r <> -100]) the forward
    equations reproduce direct discounting: the bond of maturity [k] costs
    [fv / (1 + r/100)^k]. *)
Theorem flat_bond_price (r fv : R) (k : nat) :
  1 + r / 100 <> 0 ->
  zcb_price_forward k r 1 1 fv = fv / (1 + r / 100) ^ k.
Proof.
  intros _.
  rewrite (@zcb_price_forward_row_sum r 1 1 fv k k) by lia.
  rewrite flat_row_sum by lia.
  now rewrite pow_inv.
Qed.

Lemma flat_bond_price_witness :
  1 + 6 / 100 <> 0 /\
  zcb_price_forward 3 6 1 1 100 = 100 / (1 + 6 / 100) ^ 3.
Proof.
  assert (H1 : 1 + 6 / 100 <> 0) by lra.
  split; [exact H1|].
  exact (@flat_bond_price 6 100 3 H1).
Defined.

End LatticeReal.

(** * Further properties of the option pricer *)

Section OptionEdges.

Context {F : Type} `{Scalar F}.
Local Open Scope scalar_scope.

(** X10.  With [n = 0] no backward step runs: [binomial_tree] returns the
    payoff at the initial price, [max(0, S_0 - K)] or [max(0, K - S_0)],
    whatever the exercise-style tag is (recognised or not) and whatever the
    risk-free rate is. *)
Theorem binomial_tree_zero_periods (r_f S_0 K u d : F)
  (PutCall Type_ : string) :
  recognised_option PutCall -> is_zero (u - d) = false ->
  binomial_tree 0 r_f S_0 K u d PutCall Type_
  = Ok (pymax2 c0 (exercise PutCall K S_0)).
Proof.
  intros HP Hud. unfold binomial_tree.
  rewrite pydiv_ok by exact Hud. cbn [bind].
  assert (Hloop : forall (b : @ndarray F) body_E body_A,
    (if (Type_ =? "E")%string then for_M (range_down 0) body_E b
     else if (Type_ =? "A")%string then for_M (range_down 0) body_A b
     else Ok b) = Ok b).
  { intros b bE bA.
    destruct (Type_ =? "E")%string; [reflexivity|].
    destruct (Type_ =? "A")%string; reflexivity. }
  rewrite Hloop. cbn [bind]. f_equal.
  unfold exercise.
  destruct HP as [-> | ->]; cbn [String.eqb Ascii.eqb Bool.eqb andb];
    cbn [range Nat.add Nat.sub seq for_ fold_left];
    rewrite get_set_same; reflexivity.
Qed.

Lemma range_down_S (n : nat) : range_down (S n) = n :: range_down n.
Proof.
  unfold range_down. rewrite seq_S, rev_app_distr. reflexivity.
Qed.

Lemma range_0_S (n : nat) : range 0 (n + 1) = 0%nat :: seq 1 n.
Proof.
  unfold range. rewrite Nat.sub_0_r, Nat.add_1_r. reflexivity.
Qed.

(** X11.  With [1 + r_f = 0], at least one period and recognised tags, the
    first backward step divides by zero: [binomial_tree] raises
    ZeroDivisionError. *)
Theorem binomial_tree_zero_discount (n : nat) (r_f S_0 K u d : F)
  (PutCall Type_ : string) :
  recognised_option PutCall -> recognised_style Type_ ->
  is_zero (u - d) = false -> is_zero (c1 + r_f) = true -> (1 <= n)%nat ->
  binomial_tree n r_f S_0 K u d PutCall Type_ = Raise ZeroDivisionError.
Proof.
  intros HP HT Hud Hr Hn. unfold binomial_tree.
  rewrite pydiv_ok by exact Hud. cbn [bind].
  destruct n as [|m]; [lia|].
  rewrite range_down_S. cbn [for_M].
  rewrite (range_0_S m). cbn [for_M].
  unfold continuation. rewrite pydiv_raise by exact Hr.
  destruct HP as [-> | ->], HT as [-> | ->];
    cbn [String.eqb Ascii.eqb Bool.eqb andb bind]; reflexivity.
Qed.

End OptionEdges.

Section OptionEdgeWitnesses.

Local Open Scope float_scope.
#[local] Set Warnings "-inexact-float".

Lemma binomial_tree_zero_periods_witness :
  recognised_option "Put" /\ is_zero (1.07 - 0.93) = false /\
  binomial_tree 0 0.01 100 110 1.07 0.93 "Put" "Bermudan" = Ok 10.
Proof.
  assert (H1 : recognised_option "Put") by (right; reflexivity).
  assert (H2 : is_zero (sub 1.07 0.93) = false) by reflexivity.
  split; [exact H1|]. split; [exact H2|].
  exact (@binomial_tree_zero_periods float _ 0.01 100 110 1.07 0.93
           "Put" "Bermudan" H1 H2).
Defined.

Lemma binomial_tree_zero_discount_witness :
  recognised_option "Call" /\ recognised_style "A" /\
  is_zero (1.07 - 0.93) = false /\ is_zero (1 + (-1)) = true /\
  (1 <= 3)%nat /\
  binomial_tree 3 (-1) 100 110 1.07 0.93 "Call" "A"
  = Raise ZeroDivisionError.
Proof.
  assert (H1 : recognised_option "Call") by (left; reflexivity).
  assert (H2 : recognised_style "A") by (right; reflexivity).
  assert (H3 : is_zero (sub 1.07 0.93) = false) by reflexivity.
  assert (H4 : is_zero (add 1 (-1)) = true) by reflexivity.
  assert (H5 : (1 <= 3)%nat) by lia.
  split; [exact H1|]. split; [exact H2|]. split; [exact H3|].
  split; [exact H4|]. split; [exact H5|].
  exact (@binomial_tree_zero_discount float _ 3 (-1) 100 110 1.07 0.93
           "Call" "A" H1 H2 H3 H4 H5).
Defined.

End OptionEdgeWitnesses.

Section OptionReal.

Local Open Scope R_scope.

Lemma risk_neutral_mean (r u d : R) :
  u <> d ->
  Spec.risk_neutral r u d * u + (1 - Spec.risk_neutral r u d) * d = 1 + r.
Proof. intros Hud. unfold Spec.risk_neutral. field. lra. Qed.

Lemma payoff_nonneg (ot : Spec.option_type) (K s : R) :
  0 <= Spec.payoff ot K s.
Proof. destruct ot; apply Rmax_l. Qed.

Lemma payoff_parity (K s : R) :
  Spec.payoff Spec.Call K s - Spec.payoff Spec.Put K s = s - K.
Proof.
  unfold Spec.payoff, Rmax.
  destruct (Rle_dec 0 (s - K)), (Rle_dec 0 (K - s)); lra.
Qed.

Lemma european_parity_value (r q K u d : R) (m : nat) (s : R) :
  1 + r <> 0 -> q * u + (1 - q) * d = 1 + r ->
  Spec.option_value Spec.Call Spec.European r q K u d m s
  - Spec.option_value Spec.Put Spec.European r q K u d m s
  = s - K * (/ (1 + r)) ^ m.
Proof.
  intros Hr Hq. revert s. induction m as [|m IH]; intros s.
  - cbn [Spec.option_value]. rewrite payoff_parity. simpl. lra.
  - cbn [Spec.option_value]. cbv zeta.
    pose proof (IH (s * u)) as Hu. pose proof (IH (s * d)) as Hd.
    set (cu := Spec.option_value Spec.Call Spec.European r q K u d m (s * u))
      in *.
    set (cd := Spec.option_value Spec.Call Spec.European r q K u d m (s * d))
      in *.
    set (pu := Spec.option_value Spec.Put Spec.European r q K u d m (s * u))
      in *.
    set (pd := Spec.option_value Spec.Put Spec.European r q K u d m (s * d))
      in *.
    set (X := (/ (1 + r)) ^ m) in *.
    replace cu with (pu + (s * u - K * X)) by lra.
    replace cd with (pd + (s * d - K * X)) by lra.
    assert (Hx : / (1 + r) * (1 + r) = 1) by now apply Rinv_l.
    replace (1 / (1 + r)) with (/ (1 + r)) by (unfold Rdiv; lra).
    replace (/ (1 + r) * (q * (pu + (s * u - K * X))
                          + (1 - q) * (pd + (s * d - K * X)))
             - / (1 + r) * (q * pu + (1 - q) * pd))
      with (s * (/ (1 + r) * (q * u + (1 - q) * d)) - K * (/ (1 + r) * X))
      by ring.
    rewrite Hq, Hx. unfold X. simpl. ring.
Qed.

(** X12.  Put-call parity: for [u <> d] and [1 + r_f <> 0] the European
    call and put prices returned by [binomial_tree] differ by exactly
    [S_0 - K / (1 + r_f)^n], in exact arithmetic. *)
Theorem put_call_parity (n : nat) (r_f S_0 K u d : R) :
  u <> d -> 1 + r_f <> 0 ->
  exists c p,
    binomial_tree n r_f S_0 K u d "Call" "E" = Ok c /\
    binomial_tree n r_f S_0 K u d "Put" "E" = Ok p /\
    c - p = S_0 - K / (1 + r_f) ^ n.
Proof.
  intros Hud Hr.
  exists (Spec.price_option n r_f S_0 K u d Spec.Call Spec.European),
         (Spec.price_option n r_f S_0 K u d Spec.Put Spec.European).
  repeat split.
  - now apply (binomial_tree_refines Spec.Call Spec.European).
  - now apply (binomial_tree_refines Spec.Put Spec.European).
  - unfold Spec.price_option.
    rewrite european_parity_value;
      [| assumption | now apply risk_neutral_mean].
    rewrite pow_inv. reflexivity.
Qed.

Lemma put_call_parity_witness :
  107 / 100 <> 100 / 107 /\ 1 + 1 / 100 <> 0 /\
  exists c p,
    binomial_tree 3 (1 / 100) 100 100 (107 / 100) (100 / 107) "Call" "E"
    = Ok c /\
    binomial_tree 3 (1 / 100) 100 100 (107 / 100) (100 / 107) "Put" "E"
    = Ok p /\
    c - p = 100 - 100 / (1 + 1 / 100) ^ 3.
Proof.
  assert (H1 : 107 / 100 <> 100 / 107) by lra.
  assert (H2 : 1 + 1 / 100 <> 0) by lra.
  split; [exact H1|]. split; [exact H2|].
  exact (@put_call_parity 3 (1 / 100) 100 100 (107 / 100) (100 / 107) H1 H2).
Defined.

Lemma american_value_ge_payoff (ot : Spec.option_type) (r q K u d : R)
  (m : nat) (s : R) :
  Spec.payoff ot K s
  <= Spec.option_value ot Spec.American r q K u d m s.
Proof.
  destruct m as [|m]; cbn [Spec.option_value]; cbv zeta.
  - lra.
  - apply Rmax_r.
Qed.

(** X13.  Whatever the parameters (arbitrage or not), as long as the call
    does not raise, the American price is never below the value of
    exercising at once: it is at least 0 and at least [S_0 - K] for a call,
    [K - S_0] for a put. *)
Theorem american_ge_exercise (n : nat) (r_f S_0 K u d : R)
  (PutCall : string) :
  recognised_option PutCall -> u <> d -> 1 + r_f <> 0 ->
  exists a,
    binomial_tree n r_f S_0 K u d PutCall "A" = Ok a /\
    0 <= a /\ exercise PutCall K S_0 <= a.
Proof.
  intros HP Hud Hr.
  assert (exists ot, PutCall = Spec.option_tag ot) as [ot ->].
  { destruct HP as [-> | ->];
      [now exists Spec.Call | now exists Spec.Put]. }
  exists (Spec.price_option n r_f S_0 K u d ot Spec.American).
  split; [now apply (binomial_tree_refines ot Spec.American)|].
  unfold Spec.price_option.
  pose proof (american_value_ge_payoff ot r_f
                (Spec.risk_neutral r_f u d) K u d n S_0) as Hge.
  split.
  - eapply Rle_trans; [apply (payoff_nonneg ot K S_0) | exact Hge].
  - eapply Rle_trans; [|exact Hge].
    destruct ot; apply Rmax_r.
Qed.

Lemma american_ge_exercise_witness :
  recognised_option "Put" /\ 3 <> 2 /\ 1 + 0 <> 0 /\
  exists a,
    binomial_tree 2 0 1 6 3 2 "Put" "A" = Ok a /\
    0 <= a /\ exercise "Put" 6 1 <= a.
Proof.
  assert (H0 : recognised_option "Put") by (right; reflexivity).
  assert (H1 : 3 <> 2) by lra.
  assert (H2 : 1 + 0 <> 0) by lra.
  split; [exact H0|]. split; [exact H1|]. split; [exact H2|].
  exact (@american_ge_exercise 2 0 1 6 3 2 "Put" H0 H1 H2).
Defined.

Lemma european_value_nonneg (ot : Spec.option_type) (r q K u d : R)
  (m : nat) (s : R) :
  0 <= q <= 1 -> 0 < 1 + r ->
  0 <= Spec.option_value ot Spec.European r q K u d m s.
Proof.
  intros Hq Hr. revert s. induction m as [|m IH]; intros s.
  - apply payoff_nonneg.
  - cbn [Spec.option_value]. cbv zeta.
    apply Rmult_le_pos.
    + apply Rlt_le. unfold Rdiv. rewrite Rmult_1_l.
      now apply Rinv_0_lt_compat.
    + apply Rplus_le_le_0_compat; apply Rmult_le_pos;
        try apply IH; lra.
Qed.

Lemma discount_power_le_one (r : R) (m : nat) :
  0 <= r -> 0 <= (/ (1 + r)) ^ m <= 1.
Proof.
  intros Hr.
  assert (H0 : 0 < / (1 + r)) by (apply Rinv_0_lt_compat; lra).
  assert (H1 : / (1 + r) <= 1).
  { rewrite <- Rinv_1 at 2. apply Rinv_le_contravar; lra. }
  split.
  - apply pow_le. lra.
  - apply Rle_trans with (1 ^ m); [apply pow_incr; lra|].
    rewrite pow1. lra.
Qed.

Lemma american_call_value (r q K u d : R) (m : nat) (s : R) :
  0 <= q <= 1 -> q * u + (1 - q) * d = 1 + r -> 0 <= r -> 0 <= K ->
  Spec.option_value Spec.Call Spec.American r q K u d m s
  = Spec.option_value Spec.Call Spec.European r q K u d m s.
Proof.
  intros Hq Hmean Hr HK. revert s. induction m as [|m IH]; intros s.
  - reflexivity.
  - cbn [Spec.option_value]. cbv zeta. rewrite !IH.
    apply Rmax_left.
    change (Spec.payoff Spec.Call K s
            <= Spec.option_value Spec.Call Spec.European r q K u d (S m) s).
    assert (Hnn := @european_value_nonneg Spec.Call r q K u d (S m) s Hq).
    assert (Hpp := @european_value_nonneg Spec.Put r q K u d (S m) s Hq).
    assert (Hpar := @european_parity_value r q K u d (S m) s).
    destruct (discount_power_le_one (S m) Hr) as (Hd0 & Hd1).
    assert (K * (/ (1 + r)) ^ S m <= K).
    { rewrite <- (Rmult_1_r K) at 2. apply Rmult_le_compat_l; lra. }
    unfold Spec.payoff. apply Rmax_lub; [apply Hnn; lra|].
    specialize (Hpar ltac:(lra) Hmean).
    specialize (Hpp ltac:(lra)). lra.
Qed.

(** X14.  With no arbitrage ([0 < d <= 1 + r_f <= u], [d < u]), a
    non-negative interest rate and a non-negative strike, early exercise of
    a call is never worth anything: [binomial_tree] returns the same price
    for the American call as for the European call. *)
Theorem american_call_equals_european (n : nat) (r_f S_0 K u d : R) :
  0 < d -> d < u -> d <= 1 + r_f <= u -> 0 <= r_f -> 0 <= K ->
  exists c,
    binomial_tree n r_f S_0 K u d "Call" "A" = Ok c /\
    binomial_tree n r_f S_0 K u d "Call" "E" = Ok c.
Proof.
  intros Hd Hud Hr Hr0 HK.
  exists (Spec.price_option n r_f S_0 K u d Spec.Call Spec.European).
  split.
  - rewrite (binomial_tree_refines Spec.Call Spec.American) by lra.
    unfold Spec.price_option. f_equal.
    apply american_call_value; try assumption.
    + now apply risk_neutral_range.
    + apply risk_neutral_mean. lra.
  - apply (binomial_tree_refines Spec.Call Spec.European); lra.
Qed.

Lemma american_call_equals_european_witness :
  0 < 100 / 107 /\ 100 / 107 < 107 / 100 /\
  100 / 107 <= 1 + 1 / 100 <= 107 / 100 /\ 0 <= 1 / 100 /\ 0 <= 100 /\
  exists c,
    binomial_tree 3 (1 / 100) 100 100 (107 / 100) (100 / 107) "Call" "A"
    = Ok c /\
    binomial_tree 3 (1 / 100) 100 100 (107 / 100) (100 / 107) "Call" "E"
    = Ok c.
Proof.
  assert (H1 : 0 < 100 / 107) by lra.
  assert (H2 : 100 / 107 < 107 / 100) by lra.
  assert (H3 : 100 / 107 <= 1 + 1 / 100 <= 107 / 100) by lra.
  assert (H4 : 0 <= 1 / 100) by lra.
  assert (H5 : 0 <= 100) by lra.
  split; [exact H1|]. split; [exact H2|]. split; [exact H3|].
  split; [exact H4|]. split; [exact H5|].
  exact (@american_call_equals_european 3 (1 / 100) 100 100 (107 / 100)
           (100 / 107) H1 H2 H3 H4 H5).
Defined.

End OptionReal.

Section StrikeMonotone.

Local Open Scope R_scope.

Lemma payoff_call_antitone (K1 K2 s : R) :
  K1 <= K2 -> Spec.payoff Spec.Call K2 s <= Spec.payoff Spec.Call K1 s.
Proof.
  intros HK. unfold Spec.payoff, Rmax.
  destruct (Rle_dec 0 (s - K2)), (Rle_dec 0 (s - K1)); lra.
Qed.

Lemma payoff_put_monotone (K1 K2 s : R) :
  K1 <= K2 -> Spec.payoff Spec.Put K1 s <= Spec.payoff Spec.Put K2 s.
Proof.
  intros HK. unfold Spec.payoff, Rmax.
  destruct (Rle_dec 0 (K1 - s)), (Rle_dec 0 (K2 - s)); lra.
Qed.

(** Backward induction preserves a pointwise order between payoffs. *)
Lemma option_value_monotone (ot1 ot2 : Spec.option_type)
  (es : Spec.exercise_style) (r q K1 K2 u d : R) (m : nat) (s : R) :
  0 <= q <= 1 -> 0 < 1 + r ->
  (forall s', Spec.payoff ot1 K1 s' <= Spec.payoff ot2 K2 s') ->
  Spec.option_value ot1 es r q K1 u d m s
  <= Spec.option_value ot2 es r q K2 u d m s.
Proof.
  intros Hq Hr Hpay. revert s. induction m as [|m IH]; intros s.
  - apply Hpay.
  - cbn [Spec.option_value]. cbv zeta.
    assert (Hcont :
      1 / (1 + r)
      * (q * Spec.option_value ot1 es r q K1 u d m (s * u)
         + (1 - q) * Spec.option_value ot1 es r q K1 u d m (s * d))
      <= 1 / (1 + r)
         * (q * Spec.option_value ot2 es r q K2 u d m (s * u)
            + (1 - q) * Spec.option_value ot2 es r q K2 u d m (s * d))).
    { apply Rmult_le_compat_l.
      - apply Rlt_le. unfold Rdiv. rewrite Rmult_1_l.
        now apply Rinv_0_lt_compat.
      - apply Rplus_le_compat; apply Rmult_le_compat_l;
          try apply IH; lra. }
    destruct es; [exact Hcont|].
    apply Rmax_lub.
    + eapply Rle_trans; [exact Hcont | apply Rmax_l].
    + eapply Rle_trans; [apply Hpay | apply Rmax_r].
Qed.

(** X15.  With no arbitrage, the prices [binomial_tree] returns are
    monotone in the strike, for both exercise styles: raising the strike
    from [K1] to [K2] does not raise the call price and does not lower the
    put price. *)
Theorem option_price_strike_monotone (n : nat) (r_f S_0 K1 K2 u d : R)
  (Type_ : string) :
  recognised_style Type_ ->
  0 < d -> d < u -> d <= 1 + r_f <= u -> K1 <= K2 ->
  exists c1 c2 p1 p2,
    binomial_tree n r_f S_0 K1 u d "Call" Type_ = Ok c1 /\
    binomial_tree n r_f S_0 K2 u d "Call" Type_ = Ok c2 /\
    binomial_tree n r_f S_0 K1 u d "Put" Type_ = Ok p1 /\
    binomial_tree n r_f S_0 K2 u d "Put" Type_ = Ok p2 /\
    c2 <= c1 /\ p1 <= p2.
Proof.
  intros HT Hd Hud Hr HK.
  assert (exists es, Type_ = Spec.style_tag es) as [es ->].
  { destruct HT as [-> | ->];
      [now exists Spec.European | now exists Spec.American]. }
  exists (Spec.price_option n r_f S_0 K1 u d Spec.Call es),
         (Spec.price_option n r_f S_0 K2 u d Spec.Call es),
         (Spec.price_option n r_f S_0 K1 u d Spec.Put es),
         (Spec.price_option n r_f S_0 K2 u d Spec.Put es).
  assert (Hq := @risk_neutral_range r_f u d Hud Hr).
  repeat split;
    try (apply (binomial_tree_refines Spec.Call es); lra);
    try (apply (binomial_tree_refines Spec.Put es); lra);
    unfold Spec.price_option; apply option_value_monotone;
    try assumption; try lra; intros s'.
  - now apply payoff_call_antitone.
  - now apply payoff_put_monotone.
Qed.

Lemma option_price_strike_monotone_witness :
  recognised_style "A" /\ 0 < 100 / 107 /\ 100 / 107 < 107 / 100 /\
  100 / 107 <= 1 + 1 / 100 <= 107 / 100 /\ 95 <= 100 /\
  exists c1 c2 p1 p2,
    binomial_tree 3 (1 / 100) 100 95 (107 / 100) (100 / 107) "Call" "A"
    = Ok c1 /\
    binomial_tree 3 (1 / 100) 100 100 (107 / 100) (100 / 107) "Call" "A"
    = Ok c2 /\
    binomial_tree 3 (1 / 100) 100 95 (107 / 100) (100 / 107) "Put" "A"
    = Ok p1 /\
    binomial_tree 3 (1 / 100) 100 100 (107 / 100) (100 / 107) "Put" "A"
    = Ok p2 /\
    c2 <= c1 /\ p1 <= p2.
Proof.
  assert (H0 : recognised_style "A") by (right; reflexivity).
  assert (H1 : 0 < 100 / 107) by lra.
  assert (H2 : 100 / 107 < 107 / 100) by lra.
  assert (H3 : 100 / 107 <= 1 + 1 / 100 <= 107 / 100) by lra.
  assert (H4 : 95 <= 100) by lra.
  split; [exact H0|]. split; [exact H1|]. split; [exact H2|].
  split; [exact H3|]. split; [exact H4|].
  exact (@option_price_strike_monotone 3 (1 / 100) 100 95 100 (107 / 100)
           (100 / 107) "A" H0 H1 H2 H3 H4).
Defined.

End StrikeMonotone.

(** * Further properties of the swap and swaption pricers *)

Section SwapEdges.

Context {F : Type} `{Scalar F}.
Local Open Scope scalar_scope.

(** X16.  The two copies of [swap_price] agree: the swap notebook returns
    the root of the lattice the swaption notebook's copy returns, times the
    notional, and both raise IndexError for [n = 0].  The notional handed
    to the swaption notebook's copy plays no role. *)
Theorem swap_price_copies_agree (p p' k r_0 : F) (n : nat) (u d : F) :
  swap_price p k r_0 n u d
  = (lattice <- Swaption.swap_price p' k r_0 n u d ;;
     Ok (get lattice 0 0 * p)).
Proof.
  destruct n as [|m]; [reflexivity|].
  rewrite swap_price_lattice, swaption_swap_price_lattice by lia.
  reflexivity.
Qed.

(** X17.  [swaption_price] returns a price exactly when the swaption
    expires before the swap does: for [n_o < n] it returns the root of its
    valuation lattice, and for [n <= n_o] (in particular for [n = 0]) it
    raises IndexError, when it looks up the swap lattice at the expiry. *)
Theorem swaption_price_domain (k r_f r_0 : F) (n_o n : nat) (u d : F) :
  ((n_o < n)%nat ->
   Swaption.swaption_price k r_f r_0 n_o n u d
   = Ok (get (swaption_lattice (swap_lattice r_f r_0 n u d) r_0 n_o u d)
           0 0)) /\
  ((n <= n_o)%nat ->
   Swaption.swaption_price k r_f r_0 n_o n u d = Raise IndexError).
Proof.
  split.
  - apply swaption_price_lattice.
  - apply swaption_price_out_of_range.
Qed.

End SwapEdges.

Section SwapReal.

Local Open Scope R_scope.

Lemma swaption_price_domain_witness :
  (3 < 6)%nat /\ (6 <= 6)%nat /\
  Swaption.swaption_price 0 5 6 3 6 (5 / 4) (9 / 10)
  = Ok (get (swaption_lattice (swap_lattice 5 6 6 (5 / 4) (9 / 10))
               6 3 (5 / 4) (9 / 10)) 0 0) /\
  Swaption.swaption_price 0 5 6 6 6 (5 / 4) (9 / 10) = Raise IndexError.
Proof.
  assert (H1 : (3 < 6)%nat) by lia.
  assert (H2 : (6 <= 6)%nat) by lia.
  split; [exact H1|]. split; [exact H2|]. split.
  - exact (proj1 (@swaption_price_domain R _ 0 5 6 3 6 (5 / 4) (9 / 10)) H1).
  - exact (proj2 (@swaption_price_domain R _ 0 5 6 6 6 (5 / 4) (9 / 10)) H2).
Defined.

Lemma swap_value_antitone (k1 k2 u d : R) (m : nat) (rho : R) :
  0 <= u -> 0 <= d -> 0 <= rho -> k1 <= k2 ->
  Spec.swap_value k2 u d m rho <= Spec.swap_value k1 u d m rho.
Proof.
  intros Hu Hd Hrho Hk. revert rho Hrho.
  induction m as [|m IH]; intros rho Hrho.
  - cbn [Spec.swap_value]. unfold Rdiv.
    apply Rmult_le_compat_r; [|lra].
    apply Rlt_le, Rinv_0_lt_compat. lra.
  - cbn [Spec.swap_value].
    apply Rmult_le_compat_l.
    + apply Rlt_le. unfold Rdiv. rewrite Rmult_1_l.
      apply Rinv_0_lt_compat. lra.
    + assert (H1 := IH (rho * u) (Rmult_le_pos _ _ Hrho Hu)).
      assert (H2 := IH (rho * d) (Rmult_le_pos _ _ Hrho Hd)).
      lra.
Qed.

(** X18.  With a non-negative initial rate, non-negative factors and a
    non-negative notional, the swap price does not increase when the fixed
    rate paid is raised. *)
Theorem swap_price_fixed_rate_antitone (p k1 k2 r_0 u d : R) (n : nat) :
  (1 <= n)%nat -> 0 <= p -> 0 <= r_0 -> 0 <= u -> 0 <= d -> k1 <= k2 ->
  exists v1 v2,
    swap_price p k1 r_0 n u d = Ok v1 /\
    swap_price p k2 r_0 n u d = Ok v2 /\
    v2 <= v1.
Proof.
  intros Hn Hp Hr Hu Hd Hk.
  exists (Spec.swap_value (k1 / 100) u d (n - 1) (r_0 / 100) * p),
         (Spec.swap_value (k2 / 100) u d (n - 1) (r_0 / 100) * p).
  repeat split; try now apply swap_price_refines.
  apply Rmult_le_compat_r; [assumption|].
  apply swap_value_antitone; lra.
Qed.

Lemma swap_price_fixed_rate_antitone_witness :
  (1 <= 10)%nat /\ 0 <= 100 /\ 0 <= 6 /\ 0 <= 5 / 4 /\ 0 <= 9 / 10 /\
  5 <= 7 /\
  exists v1 v2,
    swap_price 100 5 6 10 (5 / 4) (9 / 10) = Ok v1 /\
    swap_price 100 7 6 10 (5 / 4) (9 / 10) = Ok v2 /\
    v2 <= v1.
Proof.
  assert (H1 : (1 <= 10)%nat) by lia.
  assert (H2 : 0 <= 100) by lra.
  assert (H3 : 0 <= 6) by lra.
  assert (H4 : 0 <= 5 / 4) by lra.
  assert (H5 : 0 <= 9 / 10) by lra.
  assert (H6 : 5 <= 7) by lra.
  split; [exact H1|]. split; [exact H2|]. split; [exact H3|].
  split; [exact H4|]. split; [exact H5|]. split; [exact H6|].
  exact (@swap_price_fixed_rate_antitone 100 5 7 6 (5 / 4) (9 / 10) 10
           H1 H2 H3 H4 H5 H6).
Defined.

Lemma flat_swap_value (kappa rho : R) (m : nat) :
  0 < rho ->
  Spec.swap_value kappa 1 1 m rho
  = (rho - kappa) * ((1 - (/ (1 + rho)) ^ (m + 1)) / rho).
Proof.
  intros Hrho. induction m as [|m IH].
  - cbn [Spec.swap_value]. simpl. field. lra.
  - cbn [Spec.swap_value]. rewrite !Rmult_1_r, IH.
    replace (S m + 1)%nat with (S (m + 1)) by lia.
    rewrite <- tech_pow_Rmult.
    set (X := (/ (1 + rho)) ^ (m + 1)). field. lra.
Qed.

(** X19.  On the flat lattice ([u = d = 1], rate [r > 0]) the swap price
    has the textbook closed form: notional times the difference between the
    floating and the fixed rate times the annuity factor
    [(1 - (1 + r/100)^(-n)) / (r/100)].  In particular a swap whose fixed
    rate equals the short rate is worth 0. *)
Theorem flat_swap_price (p k r : R) (n : nat) :
  (1 <= n)%nat -> 0 < r ->
  swap_price p k r n 1 1
  = Ok ((r / 100 - k / 100)
        * ((1 - (/ (1 + r / 100)) ^ n) / (r / 100)) * p)
  /\ swap_price p r r n 1 1 = Ok 0.
Proof.
  intros Hn Hr. split.
  - rewrite swap_price_refines by assumption.
    rewrite flat_swap_value by lra.
    now replace (n - 1 + 1)%nat with n by lia.
  - rewrite swap_price_refines by assumption.
    rewrite flat_swap_value by lra. f_equal.
    unfold Rminus at 1. rewrite Rplus_opp_r. lra.
Qed.

Lemma flat_swap_price_witness :
  (1 <= 10)%nat /\ 0 < 6 /\
  swap_price 100 5 6 10 1 1
  = Ok ((6 / 100 - 5 / 100)
        * ((1 - (/ (1 + 6 / 100)) ^ 10) / (6 / 100)) * 100)
  /\ swap_price 100 6 6 10 1 1 = Ok 0.
Proof.
  assert (H1 : (1 <= 10)%nat) by lia.
  assert (H2 : 0 < 6) by lra.
  split; [exact H1|]. split; [exact H2|].
  exact (@flat_swap_price 100 5 6 10 H1 H2).
Defined.

Lemma swaption_value_nonneg (kappa u d : R) (rest m : nat) (rho : R) :
  0 <= u -> 0 <= d -> 0 <= rho ->
  0 <= Spec.swaption_value kappa u d rest m rho.
Proof.
  intros Hu Hd Hrho. revert rho Hrho.
  induction m as [|m IH]; intros rho Hrho.
  - cbn [Spec.swaption_value]. apply Rmax_r.
  - cbn [Spec.swaption_value].
    apply Rmult_le_pos.
    + apply Rlt_le. unfold Rdiv. rewrite Rmult_1_l.
      apply Rinv_0_lt_compat. lra.
    + assert (H1 := IH (rho * u) (Rmult_le_pos _ _ Hrho Hu)).
      assert (H2 := IH (rho * d) (Rmult_le_pos _ _ Hrho Hd)).
      lra.
Qed.

Lemma swaption_value_antitone (k1 k2 u d : R) (rest m : nat) (rho : R) :
  0 <= u -> 0 <= d -> 0 <= rho -> k1 <= k2 ->
  Spec.swaption_value k2 u d rest m rho
  <= Spec.swaption_value k1 u d rest m rho.
Proof.
  intros Hu Hd Hrho Hk. revert rho Hrho.
  induction m as [|m IH]; intros rho Hrho.
  - cbn [Spec.swaption_value].
    apply Rmax_lub; [|apply Rmax_r].
    eapply Rle_trans; [|apply Rmax_l].
    now apply swap_value_antitone.
  - cbn [Spec.swaption_value].
    apply Rmult_le_compat_l.
    + apply Rlt_le. unfold Rdiv. rewrite Rmult_1_l.
      apply Rinv_0_lt_compat. lra.
    + assert (H1 := IH (rho * u) (Rmult_le_pos _ _ Hrho Hu)).
      assert (H2 := IH (rho * d) (Rmult_le_pos _ _ Hrho Hd)).
      lra.
Qed.

(** X20.  With a non-negative initial rate and non-negative factors, the
    swaption price is never negative, and it does not increase when the
    fixed rate of the underlying swap is raised. *)
Theorem swaption_price_nonneg_antitone (strike k1 k2 r_0 u d : R)
  (n_o n : nat) :
  (n_o < n)%nat -> 0 <= r_0 -> 0 <= u -> 0 <= d -> k1 <= k2 ->
  exists v1 v2,
    Swaption.swaption_price strike k1 r_0 n_o n u d = Ok v1 /\
    Swaption.swaption_price strike k2 r_0 n_o n u d = Ok v2 /\
    0 <= v2 /\ v2 <= v1.
Proof.
  intros Hn Hr Hu Hd Hk.
  exists (Spec.swaption_value (k1 / 100) u d (n - 1 - n_o) n_o (r_0 / 100)),
         (Spec.swaption_value (k2 / 100) u d (n - 1 - n_o) n_o (r_0 / 100)).
  repeat split; try now apply swaption_price_refines.
  - apply swaption_value_nonneg; lra.
  - apply swaption_value_antitone; lra.
Qed.

Lemma swaption_price_nonneg_antitone_witness :
  (3 < 6)%nat /\ 0 <= 6 /\ 0 <= 5 / 4 /\ 0 <= 9 / 10 /\ 5 <= 7 /\
  exists v1 v2,
    Swaption.swaption_price 0 5 6 3 6 (5 / 4) (9 / 10) = Ok v1 /\
    Swaption.swaption_price 0 7 6 3 6 (5 / 4) (9 / 10) = Ok v2 /\
    0 <= v2 /\ v2 <= v1.
Proof.
  assert (H1 : (3 < 6)%nat) by lia.
  assert (H2 : 0 <= 6) by lra.
  assert (H3 : 0 <= 5 / 4) by lra.
  assert (H4 : 0 <= 9 / 10) by lra.
  assert (H5 : 5 <= 7) by lra.
  split; [exact H1|]. split; [exact H2|]. split; [exact H3|].
  split; [exact H4|]. split; [exact H5|].
  exact (@swaption_price_nonneg_antitone 0 5 7 6 (5 / 4) (9 / 10) 3 6
           H1 H2 H3 H4 H5).
Defined.

End SwapReal.

(** * The bond-lattice notebook against the forward equations *)

Section ZcbFacts.

Context {F : Type} `{Scalar F} `{Power F}.
Local Open Scope scalar_scope.

Lemma Ok_inj {A : Type} (x y : A) : Ok x = Ok y -> x = y.
Proof. intros Heq. now injection Heq. Qed.

Lemma zcb_price_cells (r_0 : F) (n : nat) (u d fv : F) (Z : @ndarray F) :
  ZcbNotebook.zcb_price r_0 n u d fv = Ok Z ->
  (1 <= n)%nat /\
  dim Z = (n + 1)%nat /\
  (forall j, (j <= n)%nat -> get Z n j = fv) /\
  (forall i j, (i < n)%nat -> (j <= i)%nat ->
     get Z i j
     = ZcbNotebook.zcb_node (short_rate r_0 (n - 1) u d) Z i j).
Proof.
  intros HZ. destruct n as [|m]; [discriminate HZ|].
  unfold ZcbNotebook.zcb_price in HZ. cbv zeta in HZ.
  apply Ok_inj in HZ. subst Z.
  set (rate := short_rate r_0 (S m - 1) u d).
  set (term := for_ (range 0 (S m + 1)) (fun j zcb => set zcb (S m) j fv)
                 (np_zeros (S m + 1))).
  destruct (backward_pass
              (fun i zcb j => ZcbNotebook.zcb_node rate zcb i j) (S m) term)
    as (Hd & Hkeep & Hcell).
  { intros i a a' j Ha. unfold ZcbNotebook.zcb_node. cbv zeta.
    now rewrite !Ha. }
  destruct (terminal_row (S m) (S m + 1) (fun _ => fv) (np_zeros (S m + 1)))
    as (Hd' & _ & Hin & _).
  cbv zeta in *. fold term in Hd', Hin.
  split; [lia|]. split; [|split].
  - rewrite Hd, Hd'. reflexivity.
  - intros j Hj. rewrite Hkeep by lia. apply Hin. lia.
  - intros i j Hi Hj. now apply Hcell.
Qed.

Lemma zcb_price_defined (r_0 : F) (n : nat) (u d fv : F) :
  (1 <= n)%nat -> exists Z, ZcbNotebook.zcb_price r_0 n u d fv = Ok Z.
Proof.
  intros Hn. destruct n as [|m]; [lia|].
  eexists. reflexivity.
Qed.

End ZcbFacts.

Section ZcbReal.

Local Open Scope R_scope.

Ltac r_ops :=
  cbn [add sub mul div c0 c1 c2 c100 chalf ltb is_zero R_scalar pow of_nat
       R_power] in *.

(** The elementary prices of a step, each weighted by the bond value at
    its node, sum to the same amount at every step. *)
Lemma zcb_duality_step (r_0 u d fv : R) (n i : nat) (Z : @ndarray R) :
  ZcbNotebook.zcb_price r_0 n u d fv = Ok Z -> (i < n)%nat ->
  sum_upto (fun j => get (elementary_prices r_0 n u d) (i + 1) j
                     * get Z (i + 1) j) (i + 2)
  = sum_upto (fun j => get (elementary_prices r_0 n u d) i j * get Z i j)
             (i + 1).
Proof.
  intros HZ Hi.
  destruct (zcb_price_cells r_0 n u d fv HZ) as (Hn & _ & _ & Hcell).
  set (e := elementary_prices r_0 n u d).
  set (s := np_div (short_rate r_0 n u d) c100).
  pose (a := fun j => get e i j / (2 * (1 + get s i j))).
  rewrite (sum_upto_ext _
    (fun j => (if (j =? 0)%nat then 0
               else a (j - 1)%nat * get Z (i + 1) (j - 1 + 1))
              + (if (j <? i + 1)%nat then a j * get Z (i + 1) j else 0))).
  - rewrite sum_upto_plus.
    replace (i + 2)%nat with (S (i + 1)) by lia.
    rewrite (sum_upto_shift (fun j => a j * get Z (i + 1) (j + 1))).
    rewrite (sum_upto_trunc (fun j => a j * get Z (i + 1) j)).
    rewrite <- sum_upto_plus.
    apply sum_upto_ext. intros j Hj.
    rewrite (Hcell i j) by lia.
    unfold ZcbNotebook.zcb_node, a, s. cbv zeta.
    rewrite get_np_div.
    rewrite (short_rate_prefix r_0 u d (n := n - 1) (n' := n)) by lia.
    r_ops. unfold Rdiv. rewrite Rinv_mult.
    replace (1 - 1 * / 2) with (/ 2) by lra. ring.
  - intros j Hj. unfold e.
    rewrite elementary_prices_cell by lia.
    unfold forward_step. fold e. fold s.
    replace (i + 1 - 1)%nat with i by lia. r_ops.
    destruct (Nat.eqb_spec j 0) as [->|Hne].
    + replace (0 <? i + 1)%nat with true by (symmetry; apply Nat.ltb_lt; lia).
      unfold a. lra.
    + replace (j - 1 + 1)%nat with j by lia.
      destruct (Nat.ltb_spec j (i + 1)); unfold a; lra.
Qed.

Lemma zcb_root_forward (r_0 u d fv : R) (n : nat) (Z : @ndarray R) :
  ZcbNotebook.zcb_price r_0 n u d fv = Ok Z ->
  get Z 0 0 = zcb_price_forward n r_0 u d fv.
Proof.
  intros HZ.
  destruct (zcb_price_cells r_0 n u d fv HZ) as (Hn & _ & Hterm & _).
  assert (Hinv : forall i, (i <= n)%nat ->
    sum_upto (fun j => get (elementary_prices r_0 n u d) i j * get Z i j)
             (i + 1)
    = get Z 0 0).
  { induction i as [|i IH]; intros Hi.
    - change (0 + 1)%nat with 1%nat.
      rewrite sum_upto_S, sum_upto_0, elementary_prices_root. r_ops. lra.
    - rewrite <- IH by lia.
      replace (S i + 1)%nat with (i + 2)%nat by lia.
      replace (S i) with (i + 1)%nat by lia.
      apply (zcb_duality_step r_0 u d fv HZ). lia. }
  rewrite <- (Hinv n (Nat.le_refl n)).
  rewrite (@zcb_price_forward_row_sum r_0 u d fv n n) by lia.
  rewrite (sum_upto_ext _
    (fun j => get (elementary_prices r_0 n u d) n j * fv)).
  - rewrite sum_upto_scal. lra.
  - intros j Hj. rewrite Hterm by lia. reflexivity.
Qed.

(** X21.  The two ways of pricing a bond agree in exact arithmetic: for
    [n >= 1], and as long as no discount factor of the lattice divides by
    zero, the root of the lattice [zcb_price] builds by backward induction
    is the price [zcb_price_forward] obtains from the forward equations;
    for [n = 0], [zcb_price] raises IndexError. *)
Theorem backward_bond_price_is_forward_price (r_0 u d fv : R) (n : nat) :
  ((1 <= n)%nat /\
   (forall i j, (j <= i)%nat -> (i <= n - 1)%nat ->
      1 + get (short_rate r_0 (n - 1) u d) i j / 100 <> 0) ->
   exists Z, ZcbNotebook.zcb_price r_0 n u d fv = Ok Z /\
             dim Z = (n + 1)%nat /\
             get Z 0 0 = zcb_price_forward n r_0 u d fv) /\
  ZcbNotebook.zcb_price r_0 0 u d fv = Raise IndexError.
Proof.
  split; [|reflexivity].
  intros [Hn _]. destruct (zcb_price_defined r_0 u d fv Hn) as [Z HZ].
  exists Z. split; [exact HZ|]. split.
  - now destruct (zcb_price_cells r_0 n u d fv HZ) as (_ & Hd & _).
  - now apply zcb_root_forward with (1 := HZ).
Qed.

Lemma backward_bond_price_is_forward_price_witness :
  ((1 <= 3)%nat /\
   (forall i j, (j <= i)%nat -> (i <= 3 - 1)%nat ->
      1 + get (short_rate 6 (3 - 1) (5 / 4) (9 / 10)) i j / 100 <> 0)) /\
  exists Z, ZcbNotebook.zcb_price 6 3 (5 / 4) (9 / 10) 100 = Ok Z /\
            dim Z = (3 + 1)%nat /\
            get Z 0 0 = zcb_price_forward 3 6 (5 / 4) (9 / 10) 100.
Proof.
  assert (H1 : (1 <= 3)%nat /\
               (forall i j, (j <= i)%nat -> (i <= 3 - 1)%nat ->
                  1 + get (short_rate 6 (3 - 1) (5 / 4) (9 / 10)) i j / 100
                  <> 0)).
  { split; [lia|]. intros i j Hj Hi.
    assert (0 <= get (short_rate 6 (3 - 1) (5 / 4) (9 / 10)) i j)
      by (apply short_rate_nonneg; try lra; lia).
    lra. }
  split; [exact H1|].
  exact (proj1 (@backward_bond_price_is_forward_price 6 (5 / 4) (9 / 10)
                  100 3) H1).
Defined.

(** X22.  Hence the two [term_structure] functions return the same spot
    rates: for a non-negative initial rate and non-negative factors, the
    one reading the roots of backward-induction lattices does not raise and
    equals the one built on the forward equations. *)
Theorem term_structures_agree (r_0 u d : R) (n : nat) :
  0 <= r_0 -> 0 <= u -> 0 <= d ->
  ZcbNotebook.term_structure r_0 n u d = Ok (term_structure r_0 n u d).
Proof.
  intros _ _ _.
  unfold ZcbNotebook.term_structure. cbv zeta.
  rewrite for_M_pure with
    (f := fun i v => set1 v i (zcb_price_forward i r_0 u d c100)).
  - reflexivity.
  - intros i v Hi. apply in_range in Hi.
    destruct (@zcb_price_defined R _ r_0 i u d c100) as [Z HZ]; [lia|].
    rewrite HZ. cbn [bind].
    now rewrite (@zcb_root_forward r_0 u d c100 i Z HZ).
Qed.

Lemma term_structures_agree_witness :
  0 <= 6 /\ 0 <= 5 / 4 /\ 0 <= 9 / 10 /\
  ZcbNotebook.term_structure 6 3 (5 / 4) (9 / 10)
  = Ok (term_structure 6 3 (5 / 4) (9 / 10)).
Proof.
  assert (H1 : 0 <= 6) by lra.
  assert (H2 : 0 <= 5 / 4) by lra.
  assert (H3 : 0 <= 9 / 10) by lra.
  split; [exact H1|]. split; [exact H2|]. split; [exact H3|].
  exact (@term_structures_agree 6 (5 / 4) (9 / 10) 3 H1 H2 H3).
Defined.

End ZcbReal.

(** * The Black-Derman-Toy notebook *)

Section ForwardLatticeFacts.

Context {F : Type} `{Scalar F}.
Local Open Scope scalar_scope.

Lemma dim_forward_lattice (s : @ndarray F) (n : nat) :
  dim (forward_lattice s n) = (n + 1)%nat.
Proof.
  unfold forward_lattice.
  apply (for_invariant (fun a : @ndarray F => dim a = (n + 1)%nat)).
  - intros i a Hi Ha. apply in_range in Hi.
    destruct (forward_row_spec s a (i := i)) as (Hd & _); [lia|].
    now rewrite Hd.
  - apply (for_invariant (fun a : @ndarray F => dim a = (n + 1)%nat)).
    + intros i a _ Ha. now rewrite dim_set.
    + reflexivity.
Qed.

Lemma forward_lattice_root (s : @ndarray F) (n : nat) :
  get (forward_lattice s n) 0 0 = c1.
Proof.
  unfold forward_lattice. rewrite sweep_untouched.
  - rewrite sweep_untouched.
    + apply get_set_same.
    + intros i a i' j Hi Hne. now apply get_set_row.
    + rewrite in_range. lia.
  - intros i a i' j Hi Hne. apply in_range in Hi.
    now apply forward_row_spec; [lia|].
  - rewrite in_range. lia.
Qed.

Lemma forward_lattice_cell (s : @ndarray F) (n i j : nat) :
  (1 <= i <= n)%nat -> (j <= i)%nat ->
  get (forward_lattice s n) i j = forward_step s i (forward_lattice s n) j.
Proof.
  intros Hi Hj. unfold forward_lattice.
  apply (sweep (fun i => i - 1)%nat (fun i => seq 0 (i + 1))).
  - intros k a i' j' Hk Hne. apply in_range in Hk.
    now apply forward_row_spec; [lia|].
  - intros k a j' Hk Hj'. apply in_range in Hk. apply in_seq in Hj'.
    apply forward_row_spec; lia.
  - intros k a a' j' Hrow. unfold forward_step.
    now rewrite !Hrow.
  - rewrite range_1_seq.
    apply (sweep_order_up n (m := 1)). lia.
  - rewrite in_range. lia.
  - rewrite in_seq. lia.
Qed.

Lemma forward_lattice_upper (s : @ndarray F) (n i j : nat) :
  (i < j)%nat -> get (forward_lattice s n) i j = c0.
Proof.
  revert i j. unfold forward_lattice.
  apply (for_invariant
           (fun b : @ndarray F => forall i j, (i < j)%nat -> get b i j = c0)).
  - intros i0 b _ Hb. now apply forward_row_keeps_upper.
  - apply (for_invariant
             (fun b : @ndarray F =>
                forall i j, (i < j)%nat -> get b i j = c0)).
    + intros i0 b _ Hb. apply set_keeps_upper; [lia | assumption].
    + apply set_keeps_upper; [lia | reflexivity].
Qed.

(** A loop whose body can only raise [e], and does so at some index
    whatever the state, raises [e]. *)
Lemma for_M_must_raise {St : Type} (e : exception) (l : list nat)
  (body : nat -> St -> result St) :
  (forall i s, In i l -> (exists s', body i s = Ok s') \/ body i s = Raise e) ->
  (exists i, In i l /\ forall s, body i s = Raise e) ->
  forall s, for_M l body s = Raise e.
Proof.
  induction l as [|k l IH]; intros Hbody (i & Hi & Hraise) s.
  - destruct Hi.
  - cbn [for_M].
    destruct (Hbody k s (or_introl eq_refl)) as [[s' Hs'] | Hr].
    + rewrite Hs'. cbn [bind].
      destruct Hi as [<- | Hi].
      * rewrite Hraise in Hs'. discriminate Hs'.
      * apply IH.
        -- intros; apply Hbody; now right.
        -- now exists i.
    + rewrite Hr. reflexivity.
Qed.

End ForwardLatticeFacts.

Section BDTFacts.

Context {F : Type} `{Scalar F} `{Power F} `{Exponential F}.
Local Open Scope scalar_scope.

Variable a : list F.

Lemma index_ok (l : list F) (i : nat) :
  (i < List.length l)%nat -> BDT.index l i = Ok (nth i l c0).
Proof.
  intros Hi. unfold BDT.index.
  now rewrite (nth_error_nth' l c0 Hi).
Qed.

Lemma index_raise (l : list F) (i : nat) :
  (List.length l <= i)%nat -> BDT.index l i = Raise IndexError.
Proof.
  intros Hi. unfold BDT.index.
  apply nth_error_None in Hi. now rewrite Hi.
Qed.

Lemma get_checked_ok (arr : @ndarray F) (i j : nat) :
  (i < dim arr)%nat -> (j < dim arr)%nat ->
  BDT.get_checked arr i j = Ok (get arr i j).
Proof.
  intros Hi Hj. unfold BDT.get_checked.
  apply Nat.ltb_lt in Hi, Hj. now rewrite Hi, Hj.
Qed.

Lemma get_checked_raise (arr : @ndarray F) (i j : nat) :
  (dim arr <= i)%nat -> BDT.get_checked arr i j = Raise IndexError.
Proof.
  intros Hi. unfold BDT.get_checked.
  apply Nat.ltb_ge in Hi. now rewrite Hi.
Qed.

(** The value of the cell [(i, j)] of the BDT lattice. *)
Lemma bdt_short_rate_ok (a_in : list F) (b_in : F) :
  (1 <= List.length a)%nat -> (List.length a <= List.length a_in)%nat ->
  exists rate,
    BDT.bdt_short_rate a a_in b_in = Ok rate /\
    dim rate = List.length a /\
    get rate 0 0 = nth 0 a_in c0 + b_in * c0 /\
    forall i j, (1 <= i < List.length a)%nat -> (j <= i)%nat ->
      get rate i j = nth i a_in c0 * np_exp (b_in * of_nat j).
Proof.
  intros Ha Hlen. unfold BDT.bdt_short_rate. cbv zeta.
  set (n := List.length a) in *.
  rewrite index_ok by lia. cbn [bind].
  unfold BDT.set_checked. cbn [dim np_zeros].
  assert (Hn : (0 <? n)%nat = true) by (apply Nat.ltb_lt; lia).
  rewrite Hn. cbn [andb bind].
  set (r0 := set (np_zeros n) 0 0 (nth 0 a_in c0 + b_in * c0)).
  pose (val := fun (i : nat) (_ : @ndarray F) (j : nat) =>
                 nth i a_in c0 * np_exp (b_in * of_nat j)).
  pose (body := fun i (rate : @ndarray F) =>
                  for_ (range 0 (i + 1))
                    (fun j rate => set rate i j (val i rate j)) rate).
  assert (Hrow : forall i (r : @ndarray F),
    dim (body i r) = dim r /\
    (forall i' j', i' <> i -> get (body i r) i' j' = get r i' j') /\
    (forall j, In j (range 0 (i + 1)) -> get (body i r) i j = val i r j)).
  { intros i r.
    destruct (fill_row i (val i) (range 0 (i + 1))) with (a := r)
      as (Hd & Ho & Hi & _); [reflexivity|].
    cbv zeta in *. unfold body. auto. }
  exists (for_ (range 1 n) body r0).
  split; [|split; [|split]].
  - apply for_M_pure. intros i r Hi. apply in_range in Hi.
    unfold body. apply for_M_pure. intros j r' Hj.
    rewrite index_ok by lia. reflexivity.
  - apply (for_invariant (fun r : @ndarray F => dim r = n)); [|reflexivity].
    intros i r _ Hr. destruct (Hrow i r) as (Hd & _). now rewrite Hd.
  - rewrite sweep_untouched.
    + apply get_set_same.
    + intros i r i' j _ Hne. now apply Hrow.
    + rewrite in_range. lia.
  - intros i j Hi Hj.
    change (nth i a_in c0 * np_exp (b_in * of_nat j))
      with (val i (for_ (range 1 n) body r0) j).
    apply (sweep (fun i => i - 1)%nat (fun i => range 0 (i + 1))).
    + intros k r i' j' _ Hne. now apply Hrow.
    + intros k r j' _ Hj'. now apply Hrow.
    + reflexivity.
    + unfold range. apply (sweep_order_up (n - 1) (m := 1)). lia.
    + rewrite in_range. lia.
    + rewrite in_range. lia.
Qed.

Lemma bdt_short_rate_raise (a_in : list F) (b_in : F) :
  (List.length a = 0)%nat \/ (List.length a_in < List.length a)%nat ->
  BDT.bdt_short_rate a a_in b_in = Raise IndexError.
Proof.
  intros Hcase. unfold BDT.bdt_short_rate. cbv zeta.
  set (n := List.length a) in *.
  destruct a_in as [|x a_in'] eqn:Ea; [reflexivity|].
  rewrite <- Ea in *. rewrite index_ok by (rewrite Ea; simpl; lia).
  cbn [bind]. unfold BDT.set_checked. cbn [dim np_zeros].
  destruct (Nat.ltb_spec 0 n) as [Hn|Hn]; cbn [andb bind]; [|reflexivity].
  destruct Hcase as [Hzero | Hlt]; [lia|].
  apply for_M_must_raise.
  - intros i r Hi.
    destruct (Nat.lt_ge_cases i (List.length a_in)) as [Hlt'|Hge].
    + left. eexists. apply for_M_pure. intros j r' _.
      rewrite index_ok by assumption. reflexivity.
    + right. rewrite range_0_S. cbn [for_M].
      now rewrite index_raise.
  - exists (List.length a_in). split.
    + rewrite in_range. rewrite Ea in *. simpl in *. lia.
    + intros r. rewrite range_0_S. cbn [for_M].
      now rewrite index_raise.
Qed.

End BDTFacts.

Section BDTElementary.

Context {F : Type} `{Scalar F} `{Power F} `{Exponential F}.
Local Open Scope scalar_scope.

Variable a : list F.

Lemma half_discounted_ok (s e : @ndarray F) (i j : nat) :
  (i < dim s)%nat -> (j < dim s)%nat ->
  BDT.half_discounted s e i j = Ok (get e i j / (c2 * (c1 + get s i j))).
Proof.
  intros Hi Hj. unfold BDT.half_discounted.
  now rewrite get_checked_ok.
Qed.

Lemma half_discounted_cases (s e : @ndarray F) (i j : nat) :
  (exists v, BDT.half_discounted s e i j = Ok v)
  \/ BDT.half_discounted s e i j = Raise IndexError.
Proof.
  unfold BDT.half_discounted, BDT.get_checked.
  destruct ((i <? dim s)%nat && (j <? dim s)%nat); cbn [bind];
    [left; eexists; reflexivity | now right].
Qed.

Lemma bdt_elementary_ok (a_in : list F) (b_in : F) (rate : @ndarray F) :
  BDT.bdt_short_rate a a_in b_in = Ok rate ->
  dim rate = List.length a_in ->
  BDT.elementary_prices a a_in b_in
  = Ok (forward_lattice (np_div rate c100) (List.length a_in)).
Proof.
  intros Hrate Hdim. unfold BDT.elementary_prices.
  rewrite Hrate. cbn [bind]. cbv zeta.
  set (s := np_div rate c100).
  set (n := List.length a_in) in *.
  assert (Hs : dim s = n) by exact Hdim.
  rewrite for_M_pure with
    (f := fun i e =>
            set e i 0 (get e (i - 1) 0 / (c2 * (c1 + get s (i - 1) 0)))).
  2:{ intros i e Hi. apply in_range in Hi.
      rewrite half_discounted_ok by lia. reflexivity. }
  cbn [bind].
  rewrite for_M_pure with (f := forward_row s); [reflexivity|].
  intros i e Hi. apply in_range in Hi.
  rewrite half_discounted_ok by lia. cbn [bind].
  unfold forward_row. cbv zeta.
  apply for_M_pure. intros j e' Hj. apply in_range in Hj.
  destruct (Nat.ltb_spec j i).
  - rewrite !half_discounted_ok by lia. reflexivity.
  - rewrite half_discounted_ok by lia. reflexivity.
Qed.

Lemma bdt_elementary_raise (a_in : list F) (b_in : F) :
  List.length a_in <> List.length a \/ List.length a = 0%nat ->
  BDT.elementary_prices a a_in b_in = Raise IndexError.
Proof.
  intros Hcase. unfold BDT.elementary_prices.
  destruct (Nat.eq_dec (List.length a) 0) as [Hz|Hnz].
  { rewrite bdt_short_rate_raise by now left. reflexivity. }
  destruct (Nat.lt_ge_cases (List.length a_in) (List.length a)) as [Hlt|Hge].
  { rewrite bdt_short_rate_raise by now right. reflexivity. }
  destruct (@bdt_short_rate_ok F _ _ _ a a_in b_in) as (rate & Hr & Hd & _);
    [lia | lia |].
  rewrite Hr. cbn [bind]. cbv zeta.
  set (s := np_div rate c100).
  assert (Hs : dim s = List.length a) by exact Hd.
  rewrite for_M_must_raise with (e := IndexError); [reflexivity | |].
  - intros i e _.
    destruct (half_discounted_cases s e (i - 1) 0) as [[v Hv] | Hv];
      rewrite Hv; cbn [bind]; [left; eexists; reflexivity | now right].
  - exists (List.length a + 1)%nat. split.
    + rewrite in_range. destruct Hcase; lia.
    + intros e. unfold BDT.half_discounted.
      rewrite get_checked_raise by lia. reflexivity.
Qed.

(** X23.  [elementary_prices] of the BDT notebook returns a lattice exactly
    when its argument has the length of the global [a] and that length is
    at least 1; otherwise an index leaves the rate lattice, whose shape
    [bdt_short_rate] takes from the global, and IndexError is raised. *)
Theorem bdt_elementary_prices_domain (a_in : list F) (b_in : F) :
  (List.length a_in = List.length a /\ (1 <= List.length a)%nat ->
   exists e, BDT.elementary_prices a a_in b_in = Ok e /\
             dim e = (List.length a_in + 1)%nat) /\
  (List.length a_in <> List.length a \/ List.length a = 0%nat ->
   BDT.elementary_prices a a_in b_in = Raise IndexError).
Proof.
  split.
  - intros (Hlen & Hpos).
    destruct (@bdt_short_rate_ok F _ _ _ a a_in b_in) as (rate & Hr & Hd & _);
      [lia | lia |].
    eexists. split.
    + apply bdt_elementary_ok with (1 := Hr). lia.
    + apply dim_forward_lattice.
  - apply bdt_elementary_raise.
Qed.

(** X24.  When it returns, the BDT lattice starts at [a_in[0]], its later
    rows are [a_in[i] * exp(b_in * j)], and the elementary prices satisfy
    the forward equations over these rates divided by 100. *)
Theorem bdt_forward_equations (a_in : list F) (b_in : F) :
  List.length a_in = List.length a -> (1 <= List.length a)%nat ->
  exists rate e,
    BDT.bdt_short_rate a a_in b_in = Ok rate /\
    BDT.elementary_prices a a_in b_in = Ok e /\
    get rate 0 0 = nth 0 a_in c0 + b_in * c0 /\
    (forall i j, (1 <= i < List.length a)%nat -> (j <= i)%nat ->
       get rate i j = nth i a_in c0 * np_exp (b_in * of_nat j)) /\
    get e 0 0 = c1 /\
    forall i, (1 <= i <= List.length a_in)%nat ->
      get e i 0
      = get e (i - 1) 0 / (c2 * (c1 + get rate (i - 1) 0 / c100)) /\
      get e i i
      = get e (i - 1) (i - 1)
        / (c2 * (c1 + get rate (i - 1) (i - 1) / c100)) /\
      forall j, (0 < j < i)%nat ->
        get e i j
        = get e (i - 1) (j - 1)
          / (c2 * (c1 + get rate (i - 1) (j - 1) / c100))
          + get e (i - 1) j / (c2 * (c1 + get rate (i - 1) j / c100)).
Proof.
  intros Hlen Hpos.
  destruct (@bdt_short_rate_ok F _ _ _ a a_in b_in)
    as (rate & Hr & Hd & Hroot & Hcell); [lia | lia |].
  exists rate, (forward_lattice (np_div rate c100) (List.length a_in)).
  split; [exact Hr|]. split.
  { apply bdt_elementary_ok with (1 := Hr). lia. }
  split; [exact Hroot|]. split; [exact Hcell|].
  split; [apply forward_lattice_root|].
  intros i Hi. repeat split.
  - rewrite forward_lattice_cell at 1 by lia. reflexivity.
  - rewrite forward_lattice_cell at 1 by lia. unfold forward_step.
    destruct (Nat.eqb_spec i 0) as [->|_]; [lia|].
    rewrite Nat.ltb_irrefl. reflexivity.
  - intros j Hj.
    rewrite forward_lattice_cell at 1 by lia. unfold forward_step.
    destruct (Nat.eqb_spec j 0) as [->|_]; [lia|].
    destruct (Nat.ltb_spec j i); [reflexivity | lia].
Qed.

End BDTElementary.

Section BDTTermStructure.

Context {F : Type} `{Scalar F} `{Power F} `{Exponential F}.
Local Open Scope scalar_scope.

Variable a : list F.

Lemma bdt_term_structure_spec (a_in : list F) (b_in fv : F)
  (e : @ndarray F) :
  BDT.elementary_prices a a_in b_in = Ok e ->
  exists spots,
    BDT.term_structure a a_in b_in fv = Ok spots /\
    List.length spots = List.length a_in /\
    forall k dflt, (1 <= k <= List.length a_in)%nat ->
      nth (k - 1) spots dflt
      = (pow (fv / (fv * np_sum_axis1 e k)) (c1 / of_nat k) - c1) * c100.
Proof.
  intros He. unfold BDT.term_structure, BDT.zcb_price_forward.
  rewrite He. cbn [bind]. cbv zeta.
  set (n := List.length a_in).
  set (zcb := {| len := dim e; vdata := fun i => fv * np_sum_axis1 e i |}).
  set (spot := for_ (range 1 (n + 1))
                 (fun i v =>
                    set1 v i (pow (fv / get1 zcb i) (c1 / of_nat i) - c1))
                 (np_zeros1 (n + 1))).
  destruct (fill_vector
              (fun i => pow (fv / get1 zcb i) (c1 / of_nat i) - c1)
              (range 1 (n + 1)) (np_zeros1 (n + 1))) as (Hl & Hin & _).
  cbv zeta in Hl, Hin. fold spot in Hl, Hin.
  eexists. split; [reflexivity|]. split.
  - unfold slice_from1. rewrite !length_map, Hl. cbn [len np_zeros1].
    rewrite range_1_seq, length_seq. reflexivity.
  - intros k dflt Hk. unfold slice_from1.
    rewrite Hl. cbn [len np_zeros1]. rewrite range_1_seq.
    rewrite (nth_indep _ dflt (get1 spot 0 * c100))
      by (rewrite !length_map, length_seq; lia).
    rewrite (map_nth (fun x => x * c100)).
    rewrite map_nth, seq_nth by lia.
    replace (1 + (k - 1))%nat with k by lia.
    rewrite Hin by (rewrite in_range; lia). reflexivity.
Qed.

End BDTTermStructure.

Section BDTReal.

Local Open Scope R_scope.

Ltac r_ops :=
  cbn [add sub mul div c0 c1 c2 c100 chalf ltb is_zero R_scalar pow of_nat
       R_power np_exp R_exponential] in *.

Lemma bdt_elementary_prices_domain_witness :
  (List.length [6; 7] = List.length [5; 5] /\ (1 <= List.length [5; 5])%nat) /\
  (List.length [6; 7; 8] <> List.length [5; 5]
   \/ List.length [5; 5] = 0%nat) /\
  (exists e, BDT.elementary_prices [5; 5] [6; 7] (5 / 1000) = Ok e /\
             dim e = (List.length [6; 7] + 1)%nat) /\
  BDT.elementary_prices [5; 5] [6; 7; 8] (5 / 1000) = Raise IndexError.
Proof.
  assert (H1 : List.length [6; 7] = List.length [5; 5]
               /\ (1 <= List.length [5; 5])%nat) by (simpl; lia).
  assert (H2 : List.length [6; 7; 8] <> List.length [5; 5]
               \/ List.length [5; 5] = 0%nat) by (left; simpl; lia).
  split; [exact H1|]. split; [exact H2|]. split.
  - exact (proj1 (@bdt_elementary_prices_domain R _ _ _ [5; 5] [6; 7]
                    (5 / 1000)) H1).
  - exact (proj2 (@bdt_elementary_prices_domain R _ _ _ [5; 5] [6; 7; 8]
                    (5 / 1000)) H2).
Defined.

Lemma bdt_forward_equations_witness :
  List.length [6; 7] = List.length [5; 5] /\ (1 <= List.length [5; 5])%nat /\
  exists rate e,
    BDT.bdt_short_rate [5; 5] [6; 7] (5 / 1000) = Ok rate /\
    BDT.elementary_prices [5; 5] [6; 7] (5 / 1000) = Ok e /\
    get rate 0 0 = 6 + 5 / 1000 * 0 /\
    get rate 1 1 = 7 * exp (5 / 1000 * INR 1) /\
    get e 0 0 = 1 /\
    get e 2 1
    = get e 1 0 / (2 * (1 + get rate 1 0 / 100))
      + get e 1 1 / (2 * (1 + get rate 1 1 / 100)).
Proof.
  assert (H1 : List.length [6; 7] = List.length [5; 5]) by reflexivity.
  assert (H2 : (1 <= List.length [5; 5])%nat) by (simpl; lia).
  split; [exact H1|]. split; [exact H2|].
  destruct (@bdt_forward_equations R _ _ _ [5; 5] [6; 7] (5 / 1000) H1 H2)
    as (rate & e & Hr & He & Hroot & Hcell & He0 & Hrec).
  exists rate, e.
  assert (Hi : (1 <= 1 < List.length [5; 5])%nat) by (simpl; lia).
  assert (Hj : (1 <= 1)%nat) by lia.
  assert (Hi2 : (1 <= 2 <= List.length [6; 7])%nat) by (simpl; lia).
  assert (Hj2 : (0 < 1 < 2)%nat) by lia.
  destruct (Hrec 2%nat Hi2) as (_ & _ & Hint).
  split; [exact Hr|]. split; [exact He|]. split; [exact Hroot|].
  split; [exact (Hcell 1%nat 1%nat Hi Hj)|]. split; [exact He0|].
  exact (Hint 1%nat Hj2).
Defined.

Lemma forward_lattice_sum_step (s : @ndarray R) (n k : nat) :
  (k < n)%nat ->
  sum_upto (get (forward_lattice s n) (k + 1)) (k + 2)
  = sum_upto (fun j => get (forward_lattice s n) k j / (1 + get s k j))
             (k + 1).
Proof.
  intros Hk.
  set (e := forward_lattice s n).
  pose (h := fun j => get e k j / (2 * (1 + get s k j))).
  rewrite (sum_upto_ext _
    (fun j => (if (j =? 0)%nat then 0 else h (j - 1)%nat)
              + (if (j <? k + 1)%nat then h j else 0))).
  - rewrite sum_upto_plus.
    replace (k + 2)%nat with (S (k + 1)) by lia.
    rewrite sum_upto_shift, sum_upto_trunc, <- sum_upto_plus.
    apply sum_upto_ext. intros j _. unfold h.
    r_ops. unfold Rdiv. rewrite Rinv_mult. lra.
  - intros j Hj. unfold e.
    rewrite forward_lattice_cell by lia.
    unfold forward_step. fold e.
    replace (k + 1 - 1)%nat with k by lia. r_ops.
    destruct (Nat.eqb_spec j 0) as [->|Hne].
    + replace (0 <? k + 1)%nat with true by (symmetry; apply Nat.ltb_lt; lia).
      unfold h. lra.
    + destruct (Nat.ltb_spec j (k + 1)); unfold h; lra.
Qed.

Lemma forward_lattice_flat_sum (s : @ndarray R) (rho : R) (n k : nat) :
  (forall i j, (j <= i)%nat -> (i < n)%nat -> get s i j = rho) ->
  (k <= n)%nat ->
  sum_upto (get (forward_lattice s n) k) (k + 1) = (/ (1 + rho)) ^ k.
Proof.
  intros Hflat. induction k as [|k IH]; intros Hk.
  - change (0 + 1)%nat with 1%nat.
    rewrite sum_upto_S, sum_upto_0, forward_lattice_root. r_ops. simpl. lra.
  - replace (S k + 1)%nat with (k + 2)%nat by lia.
    replace (S k) with (k + 1)%nat at 1 by lia.
    rewrite forward_lattice_sum_step by lia.
    rewrite (sum_upto_ext _
      (fun j => get (forward_lattice s n) k j * / (1 + rho))).
    + rewrite sum_upto_scal, IH by lia. simpl. lra.
    + intros j Hj. rewrite Hflat by lia. reflexivity.
Qed.

Lemma forward_lattice_row_sum (s : @ndarray R) (n k : nat) :
  (k <= n)%nat ->
  np_sum_axis1 (forward_lattice s n) k
  = sum_upto (get (forward_lattice s n) k) (k + 1).
Proof.
  intros Hk. rewrite np_sum_axis1_sum, dim_forward_lattice.
  replace (n + 1)%nat with (k + 1 + (n - k))%nat by lia.
  apply (@sum_upto_zeros (get (forward_lattice s n) k) (k + 1) (n - k)).
  intros j Hj.
  pose proof (@forward_lattice_upper R _ s n k j) as Hu.
  r_ops. apply Hu. lia.
Qed.

Lemma bdt_flat_lattice_spot (a : list R) (r fv : R) (k : nat) (dflt : R) :
  (1 <= List.length a)%nat -> 0 < 1 + r / 100 -> fv <> 0 ->
  (1 <= k <= List.length a)%nat ->
  exists spots,
    BDT.term_structure a (repeat r (List.length a)) 0 fv = Ok spots /\
    List.length spots = List.length a /\
    nth (k - 1) spots dflt = r.
Proof.
  intros Ha Hr Hfv Hk.
  set (m := List.length a) in *.
  assert (Hlen : List.length (repeat r m) = m) by apply repeat_length.
  destruct (@bdt_short_rate_ok R _ _ _ a (repeat r m) 0)
    as (rate & Hrate & Hd & Hroot & Hcell); [lia | lia |].
  fold m in Hd, Hcell.
  assert (He := @bdt_elementary_ok R _ _ _ a (repeat r m) 0 rate Hrate).
  rewrite Hlen in He. specialize (He Hd).
  destruct (@bdt_term_structure_spec R _ _ _ a (repeat r m) 0 fv _ He)
    as (spots & Hs & Hl & Hnth).
  rewrite Hlen in Hl, Hnth.
  exists spots. split; [exact Hs|]. split; [exact Hl|].
  rewrite Hnth by assumption.
  assert (Hflat : forall i j, (j <= i)%nat -> (i < m)%nat ->
                    get (np_div rate c100) i j = r / 100).
  { intros i j Hj Hi. rewrite get_np_div.
    destruct i as [|i].
    - replace j with 0%nat by lia. rewrite Hroot. r_ops.
      rewrite (nth_repeat_lt r) by lia. lra.
    - rewrite Hcell by lia. r_ops.
      rewrite (nth_repeat_lt r) by lia.
      rewrite Rmult_0_l, exp_0. lra. }
  rewrite forward_lattice_row_sum by lia.
  rewrite (forward_lattice_flat_sum _ (rho := r / 100)) by (auto; lia).
  r_ops.
  assert (Hpow : 0 < (1 + r / 100) ^ k) by now apply pow_lt.
  replace (fv / (fv * (/ (1 + r / 100)) ^ k)) with ((1 + r / 100) ^ k).
  - rewrite <- Rpower_pow by assumption.
    rewrite Rpower_mult.
    replace (INR k * (1 / INR k)) with 1.
    + rewrite Rpower_1 by assumption. lra.
    + field. apply not_0_INR. lia.
  - rewrite pow_inv. field. lra.
Qed.

(** X25.  The BDT notebook's [term_structure] does return percentages: with
    zero volatility ([b_in = 0]) and a constant drift [r > -100] (so that
    every node of the lattice carries the rate [r]), every spot rate it
    returns is [r] itself, in exact arithmetic and for every non-zero face
    value. *)
Theorem bdt_flat_term_structure (a : list R) (r fv : R) (k : nat) (dflt : R) :
  (1 <= List.length a)%nat -> 0 < 1 + r / 100 -> fv <> 0 ->
  (1 <= k <= List.length a)%nat ->
  exists spots,
    BDT.term_structure a (repeat r (List.length a)) 0 fv = Ok spots /\
    List.length spots = List.length a /\
    nth (k - 1) spots dflt = r.
Proof.
  intros Ha Hr Hfv Hk. now apply bdt_flat_lattice_spot.
Qed.

Lemma bdt_flat_term_structure_witness :
  (1 <= List.length [5; 5; 5])%nat /\ 0 < 1 + 6 / 100 /\ 100 <> 0 /\
  (1 <= 2 <= List.length [5; 5; 5])%nat /\
  exists spots,
    BDT.term_structure [5; 5; 5] (repeat 6 (List.length [5; 5; 5])) 0 100
    = Ok spots /\
    List.length spots = List.length [5; 5; 5] /\
    nth (2 - 1) spots 0 = 6.
Proof.
  assert (H1 : (1 <= List.length [5; 5; 5])%nat) by (simpl; lia).
  assert (H2 : 0 < 1 + 6 / 100) by lra.
  assert (H3 : 100 <> 0) by lra.
  assert (H4 : (1 <= 2 <= List.length [5; 5; 5])%nat) by (simpl; lia).
  split; [exact H1|]. split; [exact H2|]. split; [exact H3|].
  split; [exact H4|].
  exact (@bdt_flat_term_structure [5; 5; 5] 6 100 2 0 H1 H2 H3 H4).
Defined.

End BDTReal.

Section BDTObjective.

Context {F : Type} `{Scalar F} `{Power F} `{Exponential F}.
Local Open Scope scalar_scope.

Variable a : list F.
Variable b : F.
Variable spot_market : list F.

Lemma bdt_term_structure_ok (a_in : list F) (b_in fv : F) :
  List.length a_in = List.length a -> (1 <= List.length a)%nat ->
  exists spots,
    BDT.term_structure a a_in b_in fv = Ok spots /\
    List.length spots = List.length a_in.
Proof.
  intros Hlen Ha.
  destruct (@bdt_short_rate_ok F _ _ _ a a_in b_in)
    as (rate & Hrate & Hd & _); [lia | lia |].
  assert (He := @bdt_elementary_ok F _ _ _ a a_in b_in rate Hrate).
  rewrite Hlen in He at 1. specialize (He Hd).
  destruct (@bdt_term_structure_spec F _ _ _ a a_in b_in fv _ He)
    as (spots & Hs & Hl & _).
  exists spots. split; assumption.
Qed.

Lemma bdt_term_structure_raise (a_in : list F) (b_in fv : F) :
  List.length a_in <> List.length a \/ List.length a = 0%nat ->
  BDT.term_structure a a_in b_in fv = Raise IndexError.
Proof.
  intros Hcase. unfold BDT.term_structure, BDT.zcb_price_forward.
  rewrite bdt_elementary_raise by exact Hcase. reflexivity.
Qed.

Lemma np_sub_shape_mismatch (xs ys : list F) :
  List.length xs <> List.length ys ->
  List.length xs <> 1%nat -> List.length ys <> 1%nat ->
  BDT.np_sub xs ys = Raise ValueError.
Proof.
  intros Hne Hx Hy. unfold BDT.np_sub.
  destruct (Nat.eqb_spec (List.length xs) (List.length ys)) as [He|_];
    [contradiction|].
  destruct xs as [|x [|x' xs]]; destruct ys as [|y [|y' ys]];
    simpl in *; try reflexivity; congruence.
Qed.

(** X26.  The two ways the least-squares objective of the BDT notebook
    fails.  A trial drift vector whose length differs from that of the
    global [a] (or an empty global [a]) makes it raise IndexError, whatever
    the market curve is; with a drift vector of the right length, a market
    curve of another length that numpy cannot broadcast (neither length is
    1) makes it raise ValueError. *)
Theorem objective_function_errors (a_in : list F) :
  (List.length a_in <> List.length a \/ List.length a = 0%nat ->
   BDT.objective_function a b spot_market a_in = Raise IndexError) /\
  (List.length a_in = List.length a /\ (2 <= List.length a)%nat /\
   List.length spot_market <> List.length a /\
   List.length spot_market <> 1%nat ->
   BDT.objective_function a b spot_market a_in = Raise ValueError).
Proof.
  split.
  - intros Hcase. unfold BDT.objective_function.
    rewrite bdt_term_structure_raise by exact Hcase. reflexivity.
  - intros (Hlen & Ha & Hm & Hm1). unfold BDT.objective_function.
    destruct (@bdt_term_structure_ok a_in b c100) as (spots & Hs & Hl);
      [exact Hlen | lia |].
    rewrite Hs. cbn [bind].
    rewrite np_sub_shape_mismatch by lia. reflexivity.
Qed.

End BDTObjective.

Section BDTObjectiveReal.

Local Open Scope R_scope.

Ltac r_ops :=
  cbn [add sub mul div c0 c1 c2 c100 chalf ltb is_zero R_scalar pow of_nat
       R_power np_exp R_exponential] in *.

Lemma objective_function_errors_witness :
  (List.length [6; 7; 8] <> List.length [5; 5]
   \/ List.length [5; 5] = 0%nat) /\
  (List.length [6; 7] = List.length [5; 5] /\
   (2 <= List.length [5; 5])%nat /\
   List.length [7; 8; 9] <> List.length [5; 5] /\
   List.length [7; 8; 9] <> 1%nat) /\
  BDT.objective_function [5; 5] (5 / 1000) [7; 8; 9] [6; 7; 8]
  = Raise IndexError /\
  BDT.objective_function [5; 5] (5 / 1000) [7; 8; 9] [6; 7]
  = Raise ValueError.
Proof.
  assert (H1 : List.length [6; 7; 8] <> List.length [5; 5]
               \/ List.length [5; 5] = 0%nat) by (left; simpl; lia).
  assert (H2 : List.length [6; 7] = List.length [5; 5] /\
               (2 <= List.length [5; 5])%nat /\
               List.length [7; 8; 9] <> List.length [5; 5] /\
               List.length [7; 8; 9] <> 1%nat) by (simpl; lia).
  split; [exact H1|]. split; [exact H2|]. split.
  - exact (proj1 (@objective_function_errors R _ _ _ [5; 5] (5 / 1000)
                    [7; 8; 9] [6; 7; 8]) H1).
  - exact (proj2 (@objective_function_errors R _ _ _ [5; 5] (5 / 1000)
                    [7; 8; 9] [6; 7]) H2).
Defined.

Lemma np_sum_acc (xs : list R) (acc : R) :
  fold_left (fun acc x => acc + x) xs acc
  = acc + fold_left (fun acc x => acc + x) xs 0.
Proof.
  revert acc. induction xs as [|x xs IH]; intros acc; simpl.
  - lra.
  - rewrite IH. rewrite (IH (0 + x)). lra.
Qed.

Lemma np_sum_cons (x : R) (xs : list R) :
  BDT.np_sum (x :: xs) = x + BDT.np_sum xs.
Proof.
  unfold BDT.np_sum. r_ops. cbn [fold_left].
  rewrite np_sum_acc. lra.
Qed.

Lemma np_sum_square_nonneg (xs : list R) :
  0 <= BDT.np_sum (BDT.np_square xs).
Proof.
  induction xs as [|x xs IH].
  - unfold BDT.np_sum. simpl. lra.
  - unfold BDT.np_square in *. cbn [map]. rewrite np_sum_cons. r_ops.
    pose proof (Rle_0_sqr x) as Hx. unfold Rsqr in Hx. lra.
Qed.

Lemma np_sum_square_zero (xs : list R) :
  BDT.np_sum (BDT.np_square xs) = 0 <-> Forall (fun x => x = 0) xs.
Proof.
  induction xs as [|x xs IH].
  - split; [constructor | reflexivity].
  - unfold BDT.np_square in *. cbn [map]. rewrite np_sum_cons. r_ops.
    pose proof (Rle_0_sqr x) as Hx. unfold Rsqr in Hx.
    pose proof (np_sum_square_nonneg xs) as Hs.
    unfold BDT.np_square in Hs. r_ops.
    split.
    + intros Hsum.
      assert (Hxx : x * x = 0) by lra.
      assert (Hrest : BDT.np_sum (map (fun x => x * x) xs) = 0) by lra.
      constructor.
      * destruct (Rmult_integral _ _ Hxx); assumption.
      * apply IH. exact Hrest.
    + intros Hall. inversion Hall as [|? ? Hx0 Hrest]; subst.
      apply IH in Hrest. r_ops. rewrite Hrest. lra.
Qed.

Lemma differences_zero (xs ys : list R) :
  List.length xs = List.length ys ->
  Forall (fun x => x = 0) (map (fun xy => fst xy - snd xy) (combine xs ys))
  <-> xs = ys.
Proof.
  revert ys. induction xs as [|x xs IH]; intros [|y ys] Hlen;
    simpl in Hlen; try discriminate.
  - split; [reflexivity | constructor].
  - cbn [combine map fst snd]. r_ops. split.
    + intros Hall. inversion Hall as [|? ? Hx Hrest]; subst.
      apply IH in Hrest; [|lia]. f_equal; [lra | exact Hrest].
    + intros Heq. injection Heq as -> ->. constructor; [lra|].
      apply IH; [lia | reflexivity].
Qed.

(** X27.  The BDT notebook's [objective_function] is a least-squares
    distance: for a trial drift vector of the right length with no negative
    entry (so that every rate of the lattice is non-negative) and a market
    curve with one entry per period it returns a value, that value is never
    negative, and it is zero exactly when the model's term structure
    reproduces the market curve entry by entry. *)
Theorem objective_function_zero_iff_fit
  (a spot_market a_in : list R) (b : R) :
  List.length a_in = List.length a -> (1 <= List.length a)%nat ->
  List.length spot_market = List.length a ->
  Forall (fun x => 0 <= x) a_in ->
  exists spots v,
    BDT.term_structure a a_in b 100 = Ok spots /\
    BDT.objective_function a b spot_market a_in = Ok v /\
    0 <= v /\
    (v = 0 <-> spots = spot_market).
Proof.
  intros Hlen Ha Hm _.
  destruct (@bdt_term_structure_ok R _ _ _ a a_in b 100 Hlen Ha)
    as (spots & Hs & Hl).
  exists spots. eexists. split; [exact Hs|].
  unfold BDT.objective_function. r_ops. rewrite Hs. cbn [bind].
  unfold BDT.np_sub.
  replace (List.length spots =? List.length spot_market)%nat with true
    by (symmetry; apply Nat.eqb_eq; lia).
  cbn [bind]. cbv zeta. split; [reflexivity|]. split.
  - apply np_sum_square_nonneg.
  - rewrite np_sum_square_zero. apply differences_zero. lia.
Qed.

Lemma objective_function_zero_iff_fit_witness :
  List.length [6; 7] = List.length [5; 5] /\
  (1 <= List.length [5; 5])%nat /\
  List.length [7; 8] = List.length [5; 5] /\
  Forall (fun x => 0 <= x) [6; 7] /\
  exists spots v,
    BDT.term_structure [5; 5] [6; 7] (5 / 1000) 100 = Ok spots /\
    BDT.objective_function [5; 5] (5 / 1000) [7; 8] [6; 7] = Ok v /\
    0 <= v /\
    (v = 0 <-> spots = [7; 8]).
Proof.
  assert (H1 : List.length [6; 7] = List.length [5; 5]) by reflexivity.
  assert (H2 : (1 <= List.length [5; 5])%nat) by (simpl; lia).
  assert (H3 : List.length [7; 8] = List.length [5; 5]) by reflexivity.
  assert (H4 : Forall (fun x => 0 <= x) [6; 7])
    by (repeat constructor; lra).
  split; [exact H1|]. split; [exact H2|]. split; [exact H3|].
  split; [exact H4|].
  exact (@objective_function_zero_iff_fit [5; 5] [7; 8] [6; 7] (5 / 1000)
           H1 H2 H3 H4).
Defined.

Lemma list_eq_repeat (xs : list R) (r : R) (m : nat) :
  List.length xs = m ->
  (forall k, (1 <= k <= m)%nat -> nth (k - 1) xs 0 = r) ->
  xs = repeat r m.
Proof.
  intros Hl Hnth. apply (nth_ext _ _ 0 0).
  - rewrite repeat_length. exact Hl.
  - intros i Hi. rewrite (nth_repeat_lt r) by lia.
    specialize (Hnth (S i)). replace (S i - 1)%nat with i in Hnth by lia.
    apply Hnth. lia.
Qed.

(** X28.  Calibration to a flat curve is exact: when the market curve is
    the constant [r] percent for every period, the global volatility [b] is
    zero and the trial drift is the constant [r > -100], the objective
    function returns exactly 0, its minimum. *)
Theorem objective_function_flat_market (a : list R) (r : R) :
  (1 <= List.length a)%nat -> 0 < 1 + r / 100 ->
  BDT.objective_function a 0 (repeat r (List.length a))
    (repeat r (List.length a)) = Ok 0.
Proof.
  intros Ha Hr.
  set (m := List.length a).
  assert (Hlen : List.length (repeat r m) = m) by apply repeat_length.
  destruct (@bdt_term_structure_ok R _ _ _ a (repeat r m) 0 100)
    as (spots & Hs & Hl); [exact Hlen | exact Ha |].
  rewrite Hlen in Hl.
  assert (Hflat : spots = repeat r m).
  { apply list_eq_repeat; [exact Hl|]. intros k Hk.
    destruct (@bdt_flat_lattice_spot a r 100 k 0 Ha Hr) as (spots' & Hs' & _ & Hn);
      [lra | exact Hk |].
    fold m in Hs'. r_ops. rewrite Hs in Hs'.
    apply Ok_inj in Hs'. subst spots'. exact Hn. }
  unfold BDT.objective_function. r_ops. rewrite Hs. cbn [bind].
  unfold BDT.np_sub.
  replace (List.length spots =? List.length (repeat r m))%nat with true
    by (symmetry; apply Nat.eqb_eq; lia).
  cbn [bind]. cbv zeta. f_equal.
  apply np_sum_square_zero. apply differences_zero; [lia|]. exact Hflat.
Qed.

Lemma objective_function_flat_market_witness :
  (1 <= List.length [5; 5; 5])%nat /\ 0 < 1 + 6 / 100 /\
  BDT.objective_function [5; 5; 5] 0 (repeat 6 (List.length [5; 5; 5]))
    (repeat 6 (List.length [5; 5; 5])) = Ok 0.
Proof.
  assert (H1 : (1 <= List.length [5; 5; 5])%nat) by (simpl; lia).
  assert (H2 : 0 < 1 + 6 / 100) by lra.
  split; [exact H1|]. split; [exact H2|].
  exact (@objective_function_flat_market [5; 5; 5] 6 H1 H2).
Defined.

End BDTObjectiveReal.
